(** * imap2eml: export every message of an IMAP account to .eml files

    A shallow embedding of [imap2eml.py] and the properties of its
    sanitizer, its mailbox enumerator, its mailbox exporter and its
    orchestrator.

    Data model.  A Python [str] is a list of Unicode code points ([N]); a
    Python [bytes] object is a list of [byte].  The IMAP client object, the
    interactive prompt, the e-mail parser and the file system are the
    environment: a record of functions over an abstract world, each of which
    may return a value or raise.  The program runs in a state-and-exception
    monad that also emits the trace of the environment calls it makes and of
    the lines it prints.

    Built-in functions the script relies on are embedded as they behave in
    CPython 3.11 (Unicode 14.0.0): [str.isalnum], [str.strip], [bytes.split],
    [bytes.decode] (strict UTF-8) and [os.path.join] (POSIX flavour).
    Printing is taken to succeed, and only exceptions deriving from
    [Exception] are modelled (no [KeyboardInterrupt] or [SystemExit]). *)

From Stdlib Require Import NArith ZArith List Bool Lia.
From Stdlib Require Import Strings.Ascii Strings.String Strings.Byte.
From stdpp Require Import gmap.
Import ListNotations.

Local Open Scope N_scope.

(** ** Strings and bytes *)

Abbreviation str := (list N) (only parsing).
Abbreviation bytes := (list byte) (only parsing).

(** An ASCII literal as a [str] and as a [bytes] value. *)
Definition s_ (s : string) : str := map N_of_ascii (list_ascii_of_string s).
Definition b_ (s : string) : bytes := list_byte_of_string s.

Definition underscore : N := 95.
Definition slash : N := 47.

(** *** [str.isalnum]

    [c.isalnum()] holds when [c] is alphabetic, decimal, digit or numeric in
    the Unicode character database.  The table lists the inclusive ranges of
    code points for which it holds. *)
Definition alnum_ranges : list (N * N) :=
  [
    (48, 57); (65, 90); (97, 122); (170, 170); (178, 179); (181, 181);
    (185, 186); (188, 190); (192, 214); (216, 246); (248, 705); (710, 721);
    (736, 740); (748, 748); (750, 750); (880, 884); (886, 887); (890, 893);
    (895, 895); (902, 902); (904, 906); (908, 908); (910, 929); (931, 1013);
    (1015, 1153); (1162, 1327); (1329, 1366); (1369, 1369); (1376, 1416);
    (1488, 1514); (1519, 1522); (1568, 1610); (1632, 1641); (1646, 1647);
    (1649, 1747); (1749, 1749); (1765, 1766); (1774, 1788); (1791, 1791);
    (1808, 1808); (1810, 1839); (1869, 1957); (1969, 1969); (1984, 2026);
    (2036, 2037); (2042, 2042); (2048, 2069); (2074, 2074); (2084, 2084);
    (2088, 2088); (2112, 2136); (2144, 2154); (2160, 2183); (2185, 2190);
    (2208, 2249); (2308, 2361); (2365, 2365); (2384, 2384); (2392, 2401);
    (2406, 2415); (2417, 2432); (2437, 2444); (2447, 2448); (2451, 2472);
    (2474, 2480); (2482, 2482); (2486, 2489); (2493, 2493); (2510, 2510);
    (2524, 2525); (2527, 2529); (2534, 2545); (2548, 2553); (2556, 2556);
    (2565, 2570); (2575, 2576); (2579, 2600); (2602, 2608); (2610, 2611);
    (2613, 2614); (2616, 2617); (2649, 2652); (2654, 2654); (2662, 2671);
    (2674, 2676); (2693, 2701); (2703, 2705); (2707, 2728); (2730, 2736);
    (2738, 2739); (2741, 2745); (2749, 2749); (2768, 2768); (2784, 2785);
    (2790, 2799); (2809, 2809); (2821, 2828); (2831, 2832); (2835, 2856);
    (2858, 2864); (2866, 2867); (2869, 2873); (2877, 2877); (2908, 2909);
    (2911, 2913); (2918, 2927); (2929, 2935); (2947, 2947); (2949, 2954);
    (2958, 2960); (2962, 2965); (2969, 2970); (2972, 2972); (2974, 2975);
    (2979, 2980); (2984, 2986); (2990, 3001); (3024, 3024); (3046, 3058);
    (3077, 3084); (3086, 3088); (3090, 3112); (3114, 3129); (3133, 3133);
    (3160, 3162); (3165, 3165); (3168, 3169); (3174, 3183); (3192, 3198);
    (3200, 3200); (3205, 3212); (3214, 3216); (3218, 3240); (3242, 3251);
    (3253, 3257); (3261, 3261); (3293, 3294); (3296, 3297); (3302, 3311);
    (3313, 3314); (3332, 3340); (3342, 3344); (3346, 3386); (3389, 3389);
    (3406, 3406); (3412, 3414); (3416, 3425); (3430, 3448); (3450, 3455);
    (3461, 3478); (3482, 3505); (3507, 3515); (3517, 3517); (3520, 3526);
    (3558, 3567); (3585, 3632); (3634, 3635); (3648, 3654); (3664, 3673);
    (3713, 3714); (3716, 3716); (3718, 3722); (3724, 3747); (3749, 3749);
    (3751, 3760); (3762, 3763); (3773, 3773); (3776, 3780); (3782, 3782);
    (3792, 3801); (3804, 3807); (3840, 3840); (3872, 3891); (3904, 3911);
    (3913, 3948); (3976, 3980); (4096, 4138); (4159, 4169); (4176, 4181);
    (4186, 4189); (4193, 4193); (4197, 4198); (4206, 4208); (4213, 4225);
    (4238, 4238); (4240, 4249); (4256, 4293); (4295, 4295); (4301, 4301);
    (4304, 4346); (4348, 4680); (4682, 4685); (4688, 4694); (4696, 4696);
    (4698, 4701); (4704, 4744); (4746, 4749); (4752, 4784); (4786, 4789);
    (4792, 4798); (4800, 4800); (4802, 4805); (4808, 4822); (4824, 4880);
    (4882, 4885); (4888, 4954); (4969, 4988); (4992, 5007); (5024, 5109);
    (5112, 5117); (5121, 5740); (5743, 5759); (5761, 5786); (5792, 5866);
    (5870, 5880); (5888, 5905); (5919, 5937); (5952, 5969); (5984, 5996);
    (5998, 6000); (6016, 6067); (6103, 6103); (6108, 6108); (6112, 6121);
    (6128, 6137); (6160, 6169); (6176, 6264); (6272, 6276); (6279, 6312);
    (6314, 6314); (6320, 6389); (6400, 6430); (6470, 6509); (6512, 6516);
    (6528, 6571); (6576, 6601); (6608, 6618); (6656, 6678); (6688, 6740);
    (6784, 6793); (6800, 6809); (6823, 6823); (6917, 6963); (6981, 6988);
    (6992, 7001); (7043, 7072); (7086, 7141); (7168, 7203); (7232, 7241);
    (7245, 7293); (7296, 7304); (7312, 7354); (7357, 7359); (7401, 7404);
    (7406, 7411); (7413, 7414); (7418, 7418); (7424, 7615); (7680, 7957);
    (7960, 7965); (7968, 8005); (8008, 8013); (8016, 8023); (8025, 8025);
    (8027, 8027); (8029, 8029); (8031, 8061); (8064, 8116); (8118, 8124);
    (8126, 8126); (8130, 8132); (8134, 8140); (8144, 8147); (8150, 8155);
    (8160, 8172); (8178, 8180); (8182, 8188); (8304, 8305); (8308, 8313);
    (8319, 8329); (8336, 8348); (8450, 8450); (8455, 8455); (8458, 8467);
    (8469, 8469); (8473, 8477); (8484, 8484); (8486, 8486); (8488, 8488);
    (8490, 8493); (8495, 8505); (8508, 8511); (8517, 8521); (8526, 8526);
    (8528, 8585); (9312, 9371); (9450, 9471); (10102, 10131); (11264, 11492);
    (11499, 11502); (11506, 11507); (11517, 11517); (11520, 11557);
    (11559, 11559); (11565, 11565); (11568, 11623); (11631, 11631);
    (11648, 11670); (11680, 11686); (11688, 11694); (11696, 11702);
    (11704, 11710); (11712, 11718); (11720, 11726); (11728, 11734);
    (11736, 11742); (11823, 11823); (12293, 12295); (12321, 12329);
    (12337, 12341); (12344, 12348); (12353, 12438); (12445, 12447);
    (12449, 12538); (12540, 12543); (12549, 12591); (12593, 12686);
    (12690, 12693); (12704, 12735); (12784, 12799); (12832, 12841);
    (12872, 12879); (12881, 12895); (12928, 12937); (12977, 12991);
    (13312, 19903); (19968, 42124); (42192, 42237); (42240, 42508);
    (42512, 42539); (42560, 42606); (42623, 42653); (42656, 42735);
    (42775, 42783); (42786, 42888); (42891, 42954); (42960, 42961);
    (42963, 42963); (42965, 42969); (42994, 43009); (43011, 43013);
    (43015, 43018); (43020, 43042); (43056, 43061); (43072, 43123);
    (43138, 43187); (43216, 43225); (43250, 43255); (43259, 43259);
    (43261, 43262); (43264, 43301); (43312, 43334); (43360, 43388);
    (43396, 43442); (43471, 43481); (43488, 43492); (43494, 43518);
    (43520, 43560); (43584, 43586); (43588, 43595); (43600, 43609);
    (43616, 43638); (43642, 43642); (43646, 43695); (43697, 43697);
    (43701, 43702); (43705, 43709); (43712, 43712); (43714, 43714);
    (43739, 43741); (43744, 43754); (43762, 43764); (43777, 43782);
    (43785, 43790); (43793, 43798); (43808, 43814); (43816, 43822);
    (43824, 43866); (43868, 43881); (43888, 44002); (44016, 44025);
    (44032, 55203); (55216, 55238); (55243, 55291); (63744, 64109);
    (64112, 64217); (64256, 64262); (64275, 64279); (64285, 64285);
    (64287, 64296); (64298, 64310); (64312, 64316); (64318, 64318);
    (64320, 64321); (64323, 64324); (64326, 64433); (64467, 64829);
    (64848, 64911); (64914, 64967); (65008, 65019); (65136, 65140);
    (65142, 65276); (65296, 65305); (65313, 65338); (65345, 65370);
    (65382, 65470); (65474, 65479); (65482, 65487); (65490, 65495);
    (65498, 65500); (65536, 65547); (65549, 65574); (65576, 65594);
    (65596, 65597); (65599, 65613); (65616, 65629); (65664, 65786);
    (65799, 65843); (65856, 65912); (65930, 65931); (66176, 66204);
    (66208, 66256); (66273, 66299); (66304, 66339); (66349, 66378);
    (66384, 66421); (66432, 66461); (66464, 66499); (66504, 66511);
    (66513, 66517); (66560, 66717); (66720, 66729); (66736, 66771);
    (66776, 66811); (66816, 66855); (66864, 66915); (66928, 66938);
    (66940, 66954); (66956, 66962); (66964, 66965); (66967, 66977);
    (66979, 66993); (66995, 67001); (67003, 67004); (67072, 67382);
    (67392, 67413); (67424, 67431); (67456, 67461); (67463, 67504);
    (67506, 67514); (67584, 67589); (67592, 67592); (67594, 67637);
    (67639, 67640); (67644, 67644); (67647, 67669); (67672, 67702);
    (67705, 67742); (67751, 67759); (67808, 67826); (67828, 67829);
    (67835, 67867); (67872, 67897); (67968, 68023); (68028, 68047);
    (68050, 68096); (68112, 68115); (68117, 68119); (68121, 68149);
    (68160, 68168); (68192, 68222); (68224, 68255); (68288, 68295);
    (68297, 68324); (68331, 68335); (68352, 68405); (68416, 68437);
    (68440, 68466); (68472, 68497); (68521, 68527); (68608, 68680);
    (68736, 68786); (68800, 68850); (68858, 68899); (68912, 68921);
    (69216, 69246); (69248, 69289); (69296, 69297); (69376, 69415);
    (69424, 69445); (69457, 69460); (69488, 69505); (69552, 69579);
    (69600, 69622); (69635, 69687); (69714, 69743); (69745, 69746);
    (69749, 69749); (69763, 69807); (69840, 69864); (69872, 69881);
    (69891, 69926); (69942, 69951); (69956, 69956); (69959, 69959);
    (69968, 70002); (70006, 70006); (70019, 70066); (70081, 70084);
    (70096, 70106); (70108, 70108); (70113, 70132); (70144, 70161);
    (70163, 70187); (70272, 70278); (70280, 70280); (70282, 70285);
    (70287, 70301); (70303, 70312); (70320, 70366); (70384, 70393);
    (70405, 70412); (70415, 70416); (70419, 70440); (70442, 70448);
    (70450, 70451); (70453, 70457); (70461, 70461); (70480, 70480);
    (70493, 70497); (70656, 70708); (70727, 70730); (70736, 70745);
    (70751, 70753); (70784, 70831); (70852, 70853); (70855, 70855);
    (70864, 70873); (71040, 71086); (71128, 71131); (71168, 71215);
    (71236, 71236); (71248, 71257); (71296, 71338); (71352, 71352);
    (71360, 71369); (71424, 71450); (71472, 71483); (71488, 71494);
    (71680, 71723); (71840, 71922); (71935, 71942); (71945, 71945);
    (71948, 71955); (71957, 71958); (71960, 71983); (71999, 71999);
    (72001, 72001); (72016, 72025); (72096, 72103); (72106, 72144);
    (72161, 72161); (72163, 72163); (72192, 72192); (72203, 72242);
    (72250, 72250); (72272, 72272); (72284, 72329); (72349, 72349);
    (72368, 72440); (72704, 72712); (72714, 72750); (72768, 72768);
    (72784, 72812); (72818, 72847); (72960, 72966); (72968, 72969);
    (72971, 73008); (73030, 73030); (73040, 73049); (73056, 73061);
    (73063, 73064); (73066, 73097); (73112, 73112); (73120, 73129);
    (73440, 73458); (73648, 73648); (73664, 73684); (73728, 74649);
    (74752, 74862); (74880, 75075); (77712, 77808); (77824, 78894);
    (82944, 83526); (92160, 92728); (92736, 92766); (92768, 92777);
    (92784, 92862); (92864, 92873); (92880, 92909); (92928, 92975);
    (92992, 92995); (93008, 93017); (93019, 93025); (93027, 93047);
    (93053, 93071); (93760, 93846); (93952, 94026); (94032, 94032);
    (94099, 94111); (94176, 94177); (94179, 94179); (94208, 100343);
    (100352, 101589); (101632, 101640); (110576, 110579); (110581, 110587);
    (110589, 110590); (110592, 110882); (110928, 110930); (110948, 110951);
    (110960, 111355); (113664, 113770); (113776, 113788); (113792, 113800);
    (113808, 113817); (119520, 119539); (119648, 119672); (119808, 119892);
    (119894, 119964); (119966, 119967); (119970, 119970); (119973, 119974);
    (119977, 119980); (119982, 119993); (119995, 119995); (119997, 120003);
    (120005, 120069); (120071, 120074); (120077, 120084); (120086, 120092);
    (120094, 120121); (120123, 120126); (120128, 120132); (120134, 120134);
    (120138, 120144); (120146, 120485); (120488, 120512); (120514, 120538);
    (120540, 120570); (120572, 120596); (120598, 120628); (120630, 120654);
    (120656, 120686); (120688, 120712); (120714, 120744); (120746, 120770);
    (120772, 120779); (120782, 120831); (122624, 122654); (123136, 123180);
    (123191, 123197); (123200, 123209); (123214, 123214); (123536, 123565);
    (123584, 123627); (123632, 123641); (124896, 124902); (124904, 124907);
    (124909, 124910); (124912, 124926); (124928, 125124); (125127, 125135);
    (125184, 125251); (125259, 125259); (125264, 125273); (126065, 126123);
    (126125, 126127); (126129, 126132); (126209, 126253); (126255, 126269);
    (126464, 126467); (126469, 126495); (126497, 126498); (126500, 126500);
    (126503, 126503); (126505, 126514); (126516, 126519); (126521, 126521);
    (126523, 126523); (126530, 126530); (126535, 126535); (126537, 126537);
    (126539, 126539); (126541, 126543); (126545, 126546); (126548, 126548);
    (126551, 126551); (126553, 126553); (126555, 126555); (126557, 126557);
    (126559, 126559); (126561, 126562); (126564, 126564); (126567, 126570);
    (126572, 126578); (126580, 126583); (126585, 126588); (126590, 126590);
    (126592, 126601); (126603, 126619); (126625, 126627); (126629, 126633);
    (126635, 126651); (127232, 127244); (130032, 130041); (131072, 173791);
    (173824, 177976); (177984, 178205); (178208, 183969); (183984, 191456);
    (194560, 195101); (196608, 201546)
  ].

Definition in_ranges (t : list (N * N)) (c : N) : bool :=
  existsb (fun r => (fst r <=? c) && (c <=? snd r)) t.

Definition isalnum (c : N) : bool := in_ranges alnum_ranges c.

(** The characters the specification speaks of. *)
Definition is_ascii_digit (c : N) : bool := (48 <=? c) && (c <=? 57).
Definition is_ascii_letter (c : N) : bool :=
  ((65 <=? c) && (c <=? 90)) || ((97 <=? c) && (c <=? 122)).
Definition is_ascii_alnum (c : N) : bool := is_ascii_letter c || is_ascii_digit c.
Definition is_ascii (c : N) : bool := c <? 128.

(** *** [sanitize_filename]

    ["".join(c if c.isalnum() else "_" for c in filename)] *)
Definition sanitize_char (c : N) : N := if isalnum c then c else underscore.
Definition sanitize_filename (filename : str) : str := map sanitize_char filename.

(** *** [str.strip]

    Without argument it removes leading and trailing characters for which
    [str.isspace] holds. *)
Definition space_ranges : list (N * N) :=
  [ (9, 13); (28, 32); (133, 133); (160, 160); (5760, 5760); (8192, 8202);
    (8232, 8233); (8239, 8239); (8287, 8287); (12288, 12288) ].

Definition isspace (c : N) : bool := in_ranges space_ranges c.

Fixpoint lstrip (s : str) : str :=
  match s with
  | c :: r => if isspace c then lstrip r else s
  | [] => []
  end.

Definition rstrip (s : str) : str := rev (lstrip (rev s)).
Definition strip (s : str) : str := rstrip (lstrip s).

(** *** [bytes.split]

    Without argument it splits on runs of ASCII whitespace and drops empty
    tokens. *)
Definition is_bytes_space (b : byte) : bool :=
  let n := Byte.to_N b in ((9 <=? n) && (n <=? 13)) || (n =? 32).

Fixpoint split_from (cur : bytes) (l : bytes) : list bytes :=
  match l with
  | [] => match cur with [] => [] | _ => [rev cur] end
  | b :: r =>
      if is_bytes_space b
      then match cur with
           | [] => split_from [] r
           | _ => rev cur :: split_from [] r
           end
      else split_from (b :: cur) r
  end.

Definition split (b : bytes) : list bytes := split_from [] b.

(** *** [bytes.decode]: strict UTF-8 *)
Definition is_cont (b : N) : bool := (128 <=? b) && (b <=? 191).
Definition within (lo hi b : N) : bool := (lo <=? b) && (b <=? hi).

Fixpoint utf8_decode (l : list N) : option str :=
  match l with
  | [] => Some []
  | b0 :: r0 =>
      if b0 <? 128 then option_map (cons b0) (utf8_decode r0)
      else match r0 with
      | [] => None
      | b1 :: r1 =>
          if within 194 223 b0 then
            if is_cont b1
            then option_map (cons ((b0 - 192) * 64 + (b1 - 128))) (utf8_decode r1)
            else None
          else match r1 with
          | [] => None
          | b2 :: r2 =>
              if within 224 239 b0 then
                if (if b0 =? 224 then within 160 191 b1
                    else if b0 =? 237 then within 128 159 b1
                    else is_cont b1) && is_cont b2
                then option_map
                       (cons ((b0 - 224) * 4096 + (b1 - 128) * 64 + (b2 - 128)))
                       (utf8_decode r2)
                else None
              else match r2 with
              | [] => None
              | b3 :: r3 =>
                  if within 240 244 b0 then
                    if (if b0 =? 240 then within 144 191 b1
                        else if b0 =? 244 then within 128 143 b1
                        else is_cont b1) && is_cont b2 && is_cont b3
                    then option_map
                           (cons ((b0 - 240) * 262144 + (b1 - 128) * 4096
                                  + (b2 - 128) * 64 + (b3 - 128)))
                           (utf8_decode r3)
                    else None
                  else None
              end
          end
      end
  end.

Definition decode (b : bytes) : option str := utf8_decode (map Byte.to_N b).

(** *** [os.path.join] (two arguments, POSIX) *)
Definition startswith_sep (p : str) : bool :=
  match p with c :: _ => c =? slash | [] => false end.
Definition endswith_sep (p : str) : bool :=
  match rev p with c :: _ => c =? slash | [] => false end.

Definition join (a b : str) : str :=
  if startswith_sep b then b
  else if match a with [] => true | _ => endswith_sep a end then a ++ b
  else a ++ [slash] ++ b.

(** ** Values exchanged with the environment *)

(** The exceptions the script can meet; all derive from [Exception]. *)
Inductive exn :=
| IMAP4_error (msg : str)      (* imaplib.IMAP4.error *)
| IndexError
| AttributeError
| UnicodeDecodeError
| OtherException (msg : str).  (* OSError, ValueError, socket errors, ... *)

Inductive res (A : Type) :=
| Val (a : A)
| Exc (e : exn).
Arguments Val {A} a.
Arguments Exc {A} e.

Definition is_val {A} (r : res A) : bool :=
  match r with Val _ => true | Exc _ => false end.

(** An element of the data returned by [mail.list()]. *)
Inductive list_entry :=
| LBytes (b : bytes)
| LTuple (a b : bytes)
| LNone.

(** An element of the data returned by [mail.fetch(num, "(RFC822)")]. *)
Inductive response_part :=
| PTuple (header payload : bytes)
| PBytes (b : bytes)
| PNone.

Inductive prompt := PromptServer | PromptPort | PromptUsername | PromptPassword.

(** The lines the script prints, one constructor per [print] statement. *)
Inductive message :=
| MsgCouldNotConnect (server port : str)
| MsgError (e : exn)
| MsgLoggedIn
| MsgLoginFailed
| MsgLoginUnexpected (e : exn)
| MsgListFailed
| MsgListError (e : exn)
| MsgCouldNotSelect (mailbox : str)
| MsgNoMessages (mailbox : str)
| MsgFetchFailed (num : bytes) (mailbox : str)
| MsgSaved (mailbox filename : str)
| MsgErrorProcessing (num : bytes) (mailbox : str) (e : exn)
| MsgErrorAccessing (mailbox : str) (e : exn)
| MsgSavedIn (output_dir : str)
| MsgExiting
| MsgNoMailboxes
| MsgFound (mailboxes : list str)
| MsgProcessing (mailbox : str)
| MsgLoggedOut
| MsgLogoutError (e : exn).

(** What the program does to its environment, with what came back. *)
Inductive event :=
| EInput (p : prompt) (r : res str)
| EConnect (server : str) (port : Z) (ok : bool)
| ELogin (username password : str) (ok : bool)
| EList (r : res (str * list list_entry))
| ESelect (mailbox : str) (r : res str)
| ESearch (r : res (str * list (option bytes)))
| EFetch (num : bytes) (r : res (str * list response_part))
| ELogout (ok : bool)
| EMakedirs (path : str) (ok : bool)
| EOpen (path : str) (ok : bool)
| EWrite (path : str) (data : bytes) (ok : bool)
| EPrint (m : message).

(** The environment: the prompt, [int], the IMAP client class, the e-mail
    parser and the file system.  [subject_header payload] stands for
    [email.message_from_bytes(payload, policy=policy.default).get("subject")],
    [None] when the message has no such header. *)
Record Env := {
  World : Type;
  conn : Type;
  py_input : prompt -> World -> res str * World;
  py_int : str -> res Z;
  IMAP4_SSL : str -> Z -> World -> res conn * World;
  imap_login : conn -> str -> str -> World -> res unit * World;
  imap_list : conn -> World -> res (str * list list_entry) * World;
  imap_select : conn -> str -> World -> res str * World;
  imap_search : conn -> World -> res (str * list (option bytes)) * World;
  imap_fetch : conn -> bytes -> World -> res (str * list response_part) * World;
  imap_logout : conn -> World -> res unit * World;
  subject_header : bytes -> res (option str);
  os_makedirs : str -> World -> res unit * World;
  os_open_wb : str -> World -> res unit * World;
  os_write : str -> bytes -> World -> res unit * World
}.

(** ** The monad of the script *)

Section Program.

Context (E : Env).

(** The files on disk are a finite map from path to content. *)
Record state := State {
  world : World E;
  disk : gmap (list N) (list byte)
}.

Record outcome (A : Type) := Outcome {
  result : res A;
  final : state;
  trace : list event
}.
Arguments Outcome {A} result final trace.
Arguments result {A} o.
Arguments final {A} o.
Arguments trace {A} o.

Definition M (A : Type) : Type := state -> outcome A.

Definition ret {A} (a : A) : M A := fun st => Outcome (Val a) st [].

Definition raise {A} (e : exn) : M A := fun st => Outcome (Exc e) st [].

Definition bind {A B} (m : M A) (k : A -> M B) : M B :=
  fun st =>
    match m st with
    | Outcome (Val a) st1 tr1 =>
        match k a st1 with
        | Outcome r st2 tr2 => Outcome r st2 (tr1 ++ tr2)
        end
    | Outcome (Exc e) st1 tr1 => Outcome (Exc e) st1 tr1
    end.

(** [try: m  except Exception as e: h e] *)
Definition try_except {A} (m : M A) (h : exn -> M A) : M A :=
  fun st =>
    match m st with
    | Outcome (Val a) st1 tr1 => Outcome (Val a) st1 tr1
    | Outcome (Exc e) st1 tr1 =>
        match h e st1 with
        | Outcome r st2 tr2 => Outcome r st2 (tr1 ++ tr2)
        end
    end.

Declare Scope prog_scope.
Delimit Scope prog_scope with prog.
Bind Scope prog_scope with M.

Notation "x <- c ;; k" := (bind c (fun x => k))
  (at level 100, c at next level, k at level 200,
   right associativity) : prog_scope.
Notation "c ;; k" := (bind c (fun _ => k))
  (at level 100, k at level 200, right associativity) : prog_scope.

Local Open Scope prog_scope.

(** A pure computation that may raise. *)
Definition lift {A} (r : res A) : M A :=
  match r with Val a => ret a | Exc e => raise e end.

Definition print (m : message) : M unit :=
  fun st => Outcome (Val tt) st [EPrint m].

(** A call into the environment, recorded in the trace. *)
Definition call {A} (op : World E -> res A * World E) (ev : res A -> event)
    (upd : gmap (list N) (list byte) -> gmap (list N) (list byte)) : M A :=
  fun st =>
    match op (world st) with
    | (Val a, w) => Outcome (Val a) (State w (upd (disk st))) [ev (Val a)]
    | (Exc e, w) => Outcome (Exc e) (State w (disk st)) [ev (Exc e)]
    end.

(** [for x in l: body x] *)
Fixpoint for_each {A} (body : A -> M unit) (l : list A) : M unit :=
  match l with
  | [] => ret tt
  | x :: r => body x ;; for_each body r
  end.

(** A list comprehension whose element expression may raise. *)
Fixpoint comprehension {A B} (f : A -> res B) (l : list A) : res (list B) :=
  match l with
  | [] => Val []
  | x :: r =>
      match f x with
      | Exc e => Exc e
      | Val y => match comprehension f r with
                 | Exc e => Exc e
                 | Val ys => Val (y :: ys)
                 end
      end
  end.

Definition OK : str := s_ "OK".
Definition is_OK (status : str) : bool := bool_decide (status = OK).

(** ** The script *)

Definition input (p : prompt) : M str :=
  call (py_input E p) (EInput p) id.

(** [port or "993"] *)
Definition port_or_default (port : str) : str :=
  match port with
  | [] => s_ "993"
  | _ :: _ => port
  end.

(** [get_user_inputs] *)
Definition get_user_inputs : M (str * str * str * str) :=
  server <- input PromptServer ;;
  port <- input PromptPort ;;
  username <- input PromptUsername ;;
  password <- input PromptPassword ;;
  ret (strip server, port_or_default (strip port), strip username,
       strip password).

(** [connect_to_imap] *)
Definition connect_to_imap (server port username password : str)
    : M (option (conn E)) :=
  mail <- try_except
            (p <- lift (py_int E port) ;;
             c <- call (IMAP4_SSL E server p)
                       (fun r => EConnect server p (is_val r)) id ;;
             ret (Some c))
            (fun e =>
               match e with
               | IMAP4_error _ => print (MsgCouldNotConnect server port)
               | _ => print (MsgError e)
               end ;;
               ret None) ;;
  match mail with
  | None => ret None
  | Some c =>
      try_except
        (call (imap_login E c username password)
              (fun r => ELogin username password (is_val r)) id ;;
         print MsgLoggedIn ;;
         ret (Some c))
        (fun e =>
           match e with
           | IMAP4_error _ => print MsgLoginFailed
           | _ => print (MsgLoginUnexpected e)
           end ;;
           ret None)
  end.

(** [l[-1]] *)
Definition last_item {A} (l : list A) : res A :=
  match rev l with
  | x :: _ => Val x
  | [] => Exc IndexError
  end.

(** [box.split()[-1].decode()]; only [bytes] has a [split] method. *)
Definition mailbox_name (box : list_entry) : res str :=
  match box with
  | LBytes b =>
      match last_item (split b) with
      | Val tok =>
          match decode tok with
          | Some name => Val name
          | None => Exc UnicodeDecodeError
          end
      | Exc e => Exc e
      end
  | LTuple _ _ | LNone => Exc AttributeError
  end.

(** [list_mailboxes] *)
Definition list_mailboxes (mail : conn E) : M (list str) :=
  try_except
    (sm <- call (imap_list E mail) EList id ;;
     if is_OK (fst sm)
     then lift (comprehension mailbox_name (snd sm))
     else (print MsgListFailed ;; ret []))
    (fun e => print (MsgListError e) ;; ret []).

Definition default_subject : str := s_ "No_Subject".

(** [msg.get("subject", "No_Subject")], given the header or [None]. *)
Definition subject_or_default (header : option str) : str :=
  match header with
  | Some s => s
  | None => default_subject
  end.

(** [f"{num.decode('utf-8')}_{sanitize_filename(subject)}.eml"] *)
Definition eml_filename (num subject : str) : str :=
  num ++ [underscore] ++ sanitize_filename subject ++ s_ ".eml".

(** [with open(path, "wb") as f: f.write(data)]: opening truncates the file,
    writing gives it its content. *)
Definition write_file (path : str) (data : bytes) : M unit :=
  call (os_open_wb E path) (fun r => EOpen path (is_val r)) (insert path []) ;;
  call (os_write E path data) (fun r => EWrite path data (is_val r))
       (insert path data).

(** The body of [for response_part in msg_data]. *)
Definition save_part (mailbox mailbox_dir : str) (num : bytes)
    (response_part : response_part) : M unit :=
  match response_part with
  | PTuple _ payload =>
      header <- lift (subject_header E payload) ;;
      let subject := subject_or_default header in
      n <- lift (match decode num with
                 | Some n => Val n
                 | None => Exc UnicodeDecodeError
                 end) ;;
      let filename := eml_filename n subject in
      write_file (join mailbox_dir filename) payload ;;
      print (MsgSaved mailbox filename)
  | PBytes _ | PNone => ret tt
  end.

(** The body of [for num in messages[0].split()]. *)
Definition process_message (mail : conn E) (mailbox mailbox_dir : str)
    (num : bytes) : M unit :=
  try_except
    (sd <- call (imap_fetch E mail num) (EFetch num) id ;;
     if negb (is_OK (fst sd))
     then print (MsgFetchFailed num mailbox)
     else for_each (save_part mailbox mailbox_dir num) (snd sd))
    (fun e => print (MsgErrorProcessing num mailbox e)).

(** [messages[0]] *)
Definition first_item {A} (l : list A) : res A :=
  match l with
  | x :: _ => Val x
  | [] => Exc IndexError
  end.

(** [not messages[0]]: [None] and [b""] are falsy. *)
Definition falsy (m : option bytes) : bool :=
  match m with
  | None | Some [] => true
  | Some (_ :: _) => false
  end.

(** [messages[0].split()] *)
Definition split_ids (m : option bytes) : res (list bytes) :=
  match m with
  | Some b => Val (split b)
  | None => Exc AttributeError
  end.

(** [download_emails] *)
Definition download_emails (mail : conn E) (mailbox output_dir : str) : M unit :=
  try_except
    (status <- call (imap_select E mail mailbox) (ESelect mailbox) id ;;
     if negb (is_OK status)
     then print (MsgCouldNotSelect mailbox)
     else
       sm <- call (imap_search E mail) ESearch id ;;
       if negb (is_OK (fst sm))
       then print (MsgNoMessages mailbox)
       else
         m0 <- lift (first_item (snd sm)) ;;
         if falsy m0
         then print (MsgNoMessages mailbox)
         else
           let mailbox_dir := join output_dir (sanitize_filename mailbox) in
           call (os_makedirs E mailbox_dir)
                (fun r => EMakedirs mailbox_dir (is_val r)) id ;;
           nums <- lift (split_ids m0) ;;
           for_each (process_message mail mailbox mailbox_dir) nums)
    (fun e => print (MsgErrorAccessing mailbox e)).

(** [f"{sanitize_filename(server)}_{sanitize_filename(username)}"] *)
Definition output_root (server username : str) : str :=
  sanitize_filename server ++ [underscore] ++ sanitize_filename username.

(** The loop [for mailbox in mailboxes] of [main]. *)
Definition export_all (mail : conn E) (output_dir : str) (mailboxes : list str)
    : M unit :=
  for_each (fun mailbox =>
              print (MsgProcessing mailbox) ;;
              download_emails mail mailbox output_dir)
           mailboxes.

(** The part of [main] that follows [get_user_inputs]. *)
Definition export (server port username password : str) : M unit :=
  let output_dir := output_root server username in
  call (os_makedirs E output_dir) (fun r => EMakedirs output_dir (is_val r)) id ;;
  print (MsgSavedIn output_dir) ;;
  mail <- connect_to_imap server port username password ;;
  match mail with
  | None => print MsgExiting
  | Some mail =>
      mailboxes <- list_mailboxes mail ;;
      match mailboxes with
      | [] => print MsgNoMailboxes
      | _ :: _ =>
          print (MsgFound mailboxes) ;;
          export_all mail output_dir mailboxes ;;
          try_except
            (call (imap_logout E mail) (fun r => ELogout (is_val r)) id ;;
             print MsgLoggedOut)
            (fun e => print (MsgLogoutError e))
      end
  end.

(** [main] *)
Definition main : M unit :=
  inputs <- get_user_inputs ;;
  let '(server, port, username, password) := inputs in
  export server port username password.

End Program.

Arguments Outcome {E A} result final trace.
Arguments result {E A} o.
Arguments final {E A} o.
Arguments trace {E A} o.
Arguments State {E} world disk.
Arguments world {E} s.
Arguments disk {E} s.

(** ** Reading a trace *)

(** The mailbox operations of the protocol client. *)
Definition is_mailbox_op (e : event) : bool :=
  match e with
  | EList _ | ESelect _ _ | ESearch _ | EFetch _ _ => true
  | _ => false
  end.

Definition mailbox_ops (tr : list event) : list event :=
  List.filter is_mailbox_op tr.

(** The mailboxes selected, the messages fetched, the directories asked for
    and the (path, data) pairs written, each in the order of the calls. *)
Definition selected (tr : list event) : list str :=
  flat_map (fun e => match e with ESelect mb _ => [mb] | _ => [] end) tr.

Definition fetched (tr : list event) : list bytes :=
  flat_map (fun e => match e with EFetch num _ => [num] | _ => [] end) tr.

Definition made_dirs (tr : list event) : list str :=
  flat_map (fun e => match e with EMakedirs p _ => [p] | _ => [] end) tr.

Definition written (tr : list event) : list (str * bytes) :=
  flat_map (fun e => match e with EWrite p d _ => [(p, d)] | _ => [] end) tr.

Definition logouts (tr : list event) : nat :=
  length (List.filter (fun e => match e with ELogout _ => true | _ => false end) tr).

(** A session exists once a login call has returned normally. *)
Definition session_established (tr : list event) : Prop :=
  exists username password, In (ELogin username password true) tr.

(** The payloads of the tuple parts of a fetch response. *)
Definition payloads (parts : list response_part) : list bytes :=
  flat_map (fun p => match p with PTuple _ d => [d] | _ => [] end) parts.

Arguments ret {E A} a st.
Arguments raise {E A} e st.
Arguments bind {E A B} m k st.
Arguments try_except {E A} m h st.
Arguments lift {E A} r st.
Arguments print {E} m st.
Arguments call {E A} op ev upd st.
Arguments for_each {E A} body l st.
Arguments write_file {E} path data st.
Arguments save_part {E} mailbox mailbox_dir num response_part st.
Arguments process_message {E} mail mailbox mailbox_dir num st.
Arguments download_emails {E} mail mailbox output_dir st.
Arguments list_mailboxes {E} mail st.
Arguments connect_to_imap {E} server port username password st.
Arguments get_user_inputs {E} st.
Arguments export_all {E} mail output_dir mailboxes st.
Arguments export {E} server port username password st.

(** Events that stay inside the exporter of one message, and the events of
    that exporter. *)
Definition is_local (e : event) : bool :=
  match e with
  | EOpen _ _ | EWrite _ _ _ | EPrint _ => true
  | _ => false
  end.

Definition is_message_event (e : event) : bool :=
  match e with
  | EFetch _ _ | EOpen _ _ | EWrite _ _ _ | EPrint _ => true
  | _ => false
  end.

(** The events of the exporter of one mailbox, the select apart. *)
Definition is_mailbox_event (e : event) : bool :=
  match e with
  | ESearch _ | EMakedirs _ _ => true
  | _ => is_message_event e
  end.

(** The events of the loop over the mailboxes. *)
Definition is_export_event (e : event) : bool :=
  match e with
  | ESelect _ _ => true
  | _ => is_mailbox_event e
  end.

(** What [get_user_inputs] has done when every prompt was answered. *)
Definition inputs_trace (server port username password : str) : list event :=
  [EInput PromptServer (Val server); EInput PromptPort (Val port);
   EInput PromptUsername (Val username); EInput PromptPassword (Val password)].

(** What it has done when a prompt raised instead. *)
Definition interrupted_trace (tr : list event) : Prop :=
  (exists e, tr = [EInput PromptServer (Exc e)])
  \/ (exists s e, tr = [EInput PromptServer (Val s); EInput PromptPort (Exc e)])
  \/ (exists s p e,
        tr = [EInput PromptServer (Val s); EInput PromptPort (Val p);
              EInput PromptUsername (Exc e)])
  \/ (exists s p u e,
        tr = [EInput PromptServer (Val s); EInput PromptPort (Val p);
              EInput PromptUsername (Val u); EInput PromptPassword (Exc e)]).

(** A string that begins or ends with a whitespace character. *)
Definition padded (s : str) : Prop :=
  (exists c r, s = c :: r /\ isspace c = true)
  \/ (exists c r, s = r ++ [c] /\ isspace c = true).

(** What an event of [export] can be: no prompt, and a connect or a login
    only with the arguments [export] was given. *)
Definition export_fact (server username password : str) (e : event) : Prop :=
  match e with
  | EInput _ _ => False
  | EConnect s _ _ => s = server
  | ELogin u pw _ => u = username /\ pw = password
  | _ => True
  end.

(** What [main] has done by the time a session exists. *)
Definition session_prefix (root server : str) (p : Z) (username password : str)
    : list event :=
  [EMakedirs root true; EPrint (MsgSavedIn root); EConnect server p true;
   ELogin username password true; EPrint MsgLoggedIn].

(** What [connect_to_imap] has done when it returns no connection. *)
Definition refused_trace (server username password : str) (tr : list event) : Prop :=
  (exists m, tr = [EPrint m])
  \/ (exists p m, tr = [EConnect server p false; EPrint m])
  \/ (exists p m, tr = [EConnect server p true; ELogin username password false;
                        EPrint m]).

(** A failed [open] or [write]. *)
Definition is_failed_write (e : event) : bool :=
  match e with
  | EOpen _ false | EWrite _ _ false => true
  | _ => false
  end.

(** The path of the file of message [n] with subject header [header]. *)
Definition eml_path (dir n : str) (header : option str) : str :=
  join dir (eml_filename n (subject_or_default header)).

(** Every write of the loop over the parts of a response puts the payload
    of one of its tuple parts, as it is, at the path built from the message
    number and the subject. *)
Definition write_from (E : Env) (dir : str) (num : bytes) (parts : list response_part)
    (e : event) : Prop :=
  match e with
  | EWrite p d _ =>
      exists hd n header,
        In (PTuple hd d) parts /\ decode num = Some n
        /\ subject_header E d = Val header /\ p = eml_path dir n header
  | EOpen _ _ | EPrint _ => True
  | _ => False
  end.

(** ** The layout of the specification

    [{sanitize(server)}_{sanitize(username)}/{sanitize(mailboxName)}/{messageId}_{sanitize(subject)}.eml] *)
Definition layout (server username mailbox num subject : str) : str :=
  sanitize_filename server ++ s_ "_" ++ sanitize_filename username ++ s_ "/"
  ++ sanitize_filename mailbox ++ s_ "/"
  ++ num ++ s_ "_" ++ sanitize_filename subject ++ s_ ".eml".

(** What the specification says of the sanitizer's output. *)
Definition ascii_only (s : str) : Prop :=
  Forall (fun c => is_ascii_alnum c = true \/ c = underscore) s.

(** ** Scripted environments

    A server that answers from a script: the world remembers the mailbox
    selected last, the file system never fails, [int] reads ASCII decimal
    digits and the subject is read from a leading [Subject: ] line. *)

Fixpoint digits_value (acc : Z) (s : str) : res Z :=
  match s with
  | [] => Val acc
  | c :: r =>
      if is_ascii_digit c
      then digits_value (10 * acc + Z.of_N (c - 48)) r
      else Exc (OtherException (s_ "invalid literal for int()"))
  end.

Definition int_of_digits (s : str) : res Z :=
  match s with
  | [] => Exc (OtherException (s_ "invalid literal for int()"))
  | _ => digits_value 0 s
  end.

Fixpoint until_eol (l : bytes) : str :=
  match l with
  | [] => []
  | b :: r =>
      let n := Byte.to_N b in
      if (n =? 13) || (n =? 10) then [] else n :: until_eol r
  end.

Fixpoint strip_prefix (p l : bytes) : option bytes :=
  match p, l with
  | [], _ => Some l
  | a :: p', b :: l' =>
      if Byte.to_N a =? Byte.to_N b then strip_prefix p' l' else None
  | _ :: _, [] => None
  end.

Definition leading_subject (payload : bytes) : res (option str) :=
  Val (option_map until_eol (strip_prefix (b_ "Subject: ") payload)).

Record script := Script {
  typed : prompt -> str;
  on_connect : res unit;
  on_login : res unit;
  on_list : res (str * list list_entry);
  on_select : str -> res str;
  on_search : str -> res (str * list (option bytes));
  on_fetch : str -> bytes -> res (str * list response_part)
}.

Definition scripted (s : script) : Env := {|
  World := list N;
  conn := unit;
  py_input := fun p w => (Val (typed s p), w);
  py_int := int_of_digits;
  IMAP4_SSL := fun _ _ w => (on_connect s, w);
  imap_login := fun _ _ _ w => (on_login s, w);
  imap_list := fun _ w => (on_list s, w);
  imap_select := fun _ mb w => (on_select s mb, mb);
  imap_search := fun _ w => (on_search s w, w);
  imap_fetch := fun _ num w => (on_fetch s w num, w);
  imap_logout := fun _ w => (Val tt, w);
  subject_header := leading_subject;
  os_makedirs := fun _ w => (Val tt, w);
  os_open_wb := fun _ w => (Val tt, w);
  os_write := fun _ _ w => (Val tt, w)
|}.

(** Where every scripted run starts: nothing selected, nothing on disk. *)
Definition start (s : script) : state (scripted s) :=
  @State (scripted s) [] ∅.

Definition hello : bytes :=
  b_ "Subject: Hello World" ++ [Byte.x0d; Byte.x0a; Byte.x0d; Byte.x0a] ++ b_ "Hi.".

(** The line of a LIST response that names INBOX. *)
Definition inbox_line : bytes :=
  b_ "(\HasNoChildren) " ++ [Byte.x22; Byte.x2f; Byte.x22] ++ b_ " INBOX".

(** One mailbox, INBOX, holding message 1 with subject "Hello World". *)
Definition one_message : script := {|
  typed := fun p =>
    match p with
    | PromptServer => s_ "mail.example.com"
    | PromptPort => []
    | PromptUsername => s_ "a.b@example.com"
    | PromptPassword => s_ " secret "
    end;
  on_connect := Val tt;
  on_login := Val tt;
  on_list := Val (OK, [LBytes inbox_line]);
  on_select := fun _ => Val OK;
  on_search := fun _ => Val (OK, [Some (b_ "1")]);
  on_fetch := fun _ _ =>
    Val (OK, [PTuple (b_ "1 (RFC822 {27}") hello; PBytes (b_ ")")])
|}.

Definition with_select (r : res str) (s : script) : script :=
  Script (typed s) (on_connect s) (on_login s) (on_list s) (fun _ => r) (on_search s) (on_fetch s).
Definition with_connect (r : res unit) (s : script) : script :=
  Script (typed s) r (on_login s) (on_list s) (on_select s) (on_search s) (on_fetch s).
Definition with_list (r : res (str * list list_entry)) (s : script) : script :=
  Script (typed s) (on_connect s) (on_login s) r (on_select s) (on_search s) (on_fetch s).
Definition with_search (r : res (str * list (option bytes))) (s : script) : script :=
  Script (typed s) (on_connect s) (on_login s) (on_list s) (on_select s) (fun _ => r) (on_fetch s).
Definition with_fetch (r : res (str * list response_part)) (s : script) : script :=
  Script (typed s) (on_connect s) (on_login s) (on_list s) (on_select s) (on_search s) (fun _ _ => r).

(** The server refuses the connection. *)
Definition refused : script :=
  with_connect (Exc (OtherException (s_ "Connection refused"))) one_message.

(** The server answers NO to every select. *)
Definition unselectable : script := with_select (Val (s_ "NO")) one_message.

(** Every fetch raises. *)
Definition unfetchable : script :=
  with_fetch (Exc (IMAP4_error (s_ "FETCH command error: BAD"))) one_message.

(** The account lists no mailbox. *)
Definition no_mailboxes : script := with_list (Val (OK, [])) one_message.

(** Three messages; the fetch of each raises. *)
Definition three_unfetchable : script :=
  with_search (Val (OK, [Some (b_ "1 2 3")])) unfetchable.

(** The listing holds INBOX and an empty entry. *)
Definition blank_entry : script :=
  with_list (Val (OK, [LBytes inbox_line; LBytes []])) one_message.

(** The search answers with no identifier. *)
Definition no_messages : script := with_search (Val (OK, [Some []])) one_message.

(** The search answers with a blank where the identifiers go. *)
Definition blank_search : script := with_search (Val (OK, [Some (b_ " ")])) one_message.

(** The search answers with an identifier that begins with a slash. *)
Definition slash_id : script := with_search (Val (OK, [Some (b_ "/1")])) one_message.

(** The fetch answers with two literals. *)
Definition two_literals : script :=
  with_fetch (Val (OK, [PTuple (b_ "1 (RFC822 {27}") hello;
                        PTuple (b_ " BODY[TEXT] {3}") (b_ "Hi.");
                        PBytes (b_ ")")]))
             one_message.

(** Symbolic execution: unfold the monad and split on what the environment
    answers. *)
Ltac sx :=
  repeat (progress (try unfold bind, try_except, call, print, ret, raise, lift in *;
                    cbn [result final trace fst snd is_val world disk app negb id] in *)).

Ltac split_answer :=
  match goal with
  | |- context [?op ?w] =>
      lazymatch type of w with
      | World _ =>
          lazymatch type of (op w) with
          | (res _ * _)%type =>
              let r := fresh "r" in
              let w' := fresh "w" in
              let Hop := fresh "Hop" in
              destruct (op w) as [r w'] eqn:Hop; destruct r; sx
          end
      end
  end.

(** Membership in a trace made of explicit events, settled by cases; the
    events of a loop inside the trace are classified by [loop_event]. *)
Ltac in_split H :=
  unfold session_prefix, inputs_trace in H;
  repeat first [rewrite in_app_iff in H | progress cbn [In app] in H];
  repeat match type of H with
         | _ \/ _ => destruct H as [H | H]
         | False => destruct H
         end.

Ltac in_leaf H :=
  lazymatch type of H with
  | _ = _ => first [discriminate H | inversion H; subst; clear H]
  end.

Ltac in_cases H := in_split H; try in_leaf H.

Ltac in_trace H loop_event :=
  in_split H;
  try first [in_leaf H | apply loop_event in H; discriminate H].

(** A trace made of explicit events, cut at an event: one goal for each
    place where the event can stand. *)
Ltac peel H Hev Htl :=
  repeat match type of H with
         | [] = ?t ++ _ :: _ => exfalso; destruct t; discriminate H
         | _ :: _ = ?t ++ _ :: _ =>
             destruct t as [| ? t]; cbn [app] in H;
             [injection H as Hev Htl | injection H as <- H]
         end.

(** ** Further readings of a run *)

(** The paths a run opened or wrote. *)
Definition touched (tr : list event) : list str :=
  flat_map (fun e => match e with
                     | EOpen p _ | EWrite p _ _ => [p]
                     | _ => []
                     end) tr.

Definition is_file_event (e : event) : bool :=
  match e with
  | EOpen _ _ | EWrite _ _ _ => true
  | _ => false
  end.

(** The calls made for one message: the fetch, and the open and the write
    of a file. *)
Definition is_message_call (e : event) : bool :=
  match e with
  | EFetch _ _ | EOpen _ _ | EWrite _ _ _ => true
  | _ => false
  end.

(** The calls made for one mailbox: the select, the search, and the calls
    made for its messages. *)
Definition is_mailbox_call (e : event) : bool :=
  match e with
  | ESelect _ _ | ESearch _ => true
  | _ => is_message_call e
  end.

Definition has_suffix (suffix s : str) : Prop := exists pre, s = pre ++ suffix.

(** A file event at a path that ends in [.eml]. *)
Definition eml_file (e : event) : Prop :=
  match e with
  | EOpen p _ | EWrite p _ _ => has_suffix (s_ ".eml") p
  | _ => True
  end.

(** ASCII whitespace, as a code point. *)
Definition is_blank (c : N) : bool := within 9 13 c || (c =? 32).

(** Message numbers as the protocol has them: ASCII decimal digits. *)
Definition digits (num : bytes) : bool :=
  forallb (fun b => is_ascii_digit (Byte.to_N b)) num.

(** The reports of [connect_to_imap], by the class of the exception. *)
Definition connect_report (server port : str) (e : exn) : message :=
  match e with
  | IMAP4_error _ => MsgCouldNotConnect server port
  | _ => MsgError e
  end.

Definition login_report (e : exn) : message :=
  match e with
  | IMAP4_error _ => MsgLoginFailed
  | _ => MsgLoginUnexpected e
  end.

(** What [connect_to_imap] has done when it returns no connection, with the
    port it used and the report it printed. *)
Definition refused_at (E : Env) (server port username password : str)
    (tr : list event) : Prop :=
  (exists e, py_int E port = Exc e /\ tr = [EPrint (connect_report server port e)])
  \/ (exists p e,
        py_int E port = Val p
        /\ tr = [EConnect server p false; EPrint (connect_report server port e)])
  \/ (exists p e,
        py_int E port = Val p
        /\ tr = [EConnect server p true; ELogin username password false;
                 EPrint (login_report e)]).

(** What the logout block of [main] does. *)
Definition logout_trace (tr : list event) : Prop :=
  tr = [ELogout true; EPrint MsgLoggedOut]
  \/ exists e, tr = [ELogout false; EPrint (MsgLogoutError e)].

(** ** Scripted environments with faults

    The scripted server again, with a prompt, a file system and a logout
    that raise where the table of faults says so. *)
Record faults := Faults {
  input_fault : prompt -> option exn;
  makedirs_fault : str -> option exn;
  open_fault : str -> option exn;
  write_fault : str -> option exn;
  logout_fault : option exn
}.

Definition or_raise {A} (f : option exn) (a : A) : res A :=
  match f with
  | Some e => Exc e
  | None => Val a
  end.

Definition faulty (s : script) (f : faults) : Env := {|
  World := list N;
  conn := unit;
  py_input := fun p w => (or_raise (input_fault f p) (typed s p), w);
  py_int := int_of_digits;
  IMAP4_SSL := fun _ _ w => (on_connect s, w);
  imap_login := fun _ _ _ w => (on_login s, w);
  imap_list := fun _ w => (on_list s, w);
  imap_select := fun _ mb w => (on_select s mb, mb);
  imap_search := fun _ w => (on_search s w, w);
  imap_fetch := fun _ num w => (on_fetch s w num, w);
  imap_logout := fun _ w => (or_raise (logout_fault f) tt, w);
  subject_header := leading_subject;
  os_makedirs := fun p w => (or_raise (makedirs_fault f p) tt, w);
  os_open_wb := fun p w => (or_raise (open_fault f p) tt, w);
  os_write := fun p _ w => (or_raise (write_fault f p) tt, w)
|}.

Definition start_faulty (s : script) (f : faults) : state (faulty s f) :=
  @State (faulty s f) [] ∅.

Definition no_faults : faults :=
  Faults (fun _ => None) (fun _ => None) (fun _ => None) (fun _ => None) None.

Definition os_error : exn := OtherException (s_ "Permission denied").

(** The user closes the input at the password prompt. *)
Definition eof_at_password : faults :=
  Faults (fun p => match p with
                   | PromptPassword => Some (OtherException (s_ "EOF when reading a line"))
                   | _ => None
                   end)
         (fun _ => None) (fun _ => None) (fun _ => None) None.

(** No directory can be made. *)
Definition read_only : faults :=
  Faults (fun _ => None) (fun _ => Some os_error) (fun _ => None) (fun _ => None) None.

(** The output root can be made, the directory of a mailbox cannot. *)
Definition no_subdirectory : faults :=
  Faults (fun _ => None)
         (fun p => if existsb (N.eqb slash) p then Some os_error else None)
         (fun _ => None) (fun _ => None) None.

(** No file can be opened for writing. *)
Definition locked_files : faults :=
  Faults (fun _ => None) (fun _ => None) (fun _ => Some os_error) (fun _ => None) None.

(** Every write fails. *)
Definition disk_full : faults :=
  Faults (fun _ => None) (fun _ => None) (fun _ => None)
         (fun _ => Some (OtherException (s_ "No space left on device"))) None.

(** The logout raises. *)
Definition lost_connection : faults :=
  Faults (fun _ => None) (fun _ => None) (fun _ => None) (fun _ => None)
         (Some (OtherException (s_ "socket error: EOF"))).

(** The server answers NO to every fetch. *)
Definition fetch_refused : script := with_fetch (Val (s_ "NO", [PNone])) one_message.

(** Two mailboxes, one of them with a blank in its quoted name. *)
Definition sent_items_line : bytes :=
  b_ "(\HasNoChildren) " ++ [Byte.x22; Byte.x2f; Byte.x22] ++ b_ " "
  ++ [Byte.x22] ++ b_ "Sent Items" ++ [Byte.x22].

Definition two_mailboxes : script :=
  with_list (Val (OK, [LBytes inbox_line; LBytes sent_items_line])) one_message.

(** A computation all of whose events satisfy [P]. *)
Definition emits {E : Env} {A : Type} (P : event -> Prop) (m : M E A) : Prop :=
  forall st, List.Forall P (trace (m st)).

(** ** The built-in functions on examples *)

Example sanitize_hello : sanitize_filename (s_ "Hello World") = s_ "Hello_World".
Proof. vm_compute. reflexivity. Qed.

Example strip_blanks : strip (s_ "  imap.test  ") = s_ "imap.test".
Proof. vm_compute. reflexivity. Qed.

Example split_identifiers : split (b_ " 1 22  3 ") = [b_ "1"; b_ "22"; b_ "3"].
Proof. vm_compute. reflexivity. Qed.

Example decode_two_bytes : decode [Byte.xc3; Byte.xa9] = Some [233].
Proof. vm_compute. reflexivity. Qed.

Example decode_truncated : decode [Byte.xc3] = None.
Proof. vm_compute. reflexivity. Qed.

Example join_relative : join (s_ "root") (s_ "INBOX") = s_ "root/INBOX".
Proof. vm_compute. reflexivity. Qed.

Example join_absolute : join (s_ "root") (s_ "/tmp") = s_ "/tmp".
Proof. vm_compute. reflexivity. Qed.

Example inbox_name : mailbox_name (LBytes inbox_line) = Val (s_ "INBOX").
Proof. vm_compute. reflexivity. Qed.

(** One mailbox with one message: one file, read back as fetched, and one
    logout. *)
Example one_message_run :
  let o := main (scripted one_message) (start one_message) in
  result o = Val tt
  /\ map_to_list (disk (final o))
     = [(s_ "mail_example_com_a_b_example_com/INBOX/1_Hello_World.eml", hello)]
  /\ logouts (trace o) = 1%nat.
Proof. cbv zeta. repeat split; vm_compute; reflexivity. Qed.

(** ** The sanitizer *)

Lemma isalnum_underscore : isalnum underscore = false.
Proof. vm_compute. reflexivity. Qed.

Lemma sanitize_char_idempotent c : sanitize_char (sanitize_char c) = sanitize_char c.
Proof.
  unfold sanitize_char.
  destruct (isalnum c) eqn:Hc.
  - rewrite Hc. reflexivity.
  - rewrite isalnum_underscore. reflexivity.
Qed.

(** On ASCII, [str.isalnum] is "letter or digit". *)
Lemma isalnum_ascii c : c < 128 -> isalnum c = is_ascii_alnum c.
Proof.
  intros Hc.
  assert (Hall : forallb (fun n => Bool.eqb (isalnum (N.of_nat n))
                                      (is_ascii_alnum (N.of_nat n)))
                         (seq 0 128) = true) by (vm_compute; reflexivity).
  rewrite forallb_forall in Hall.
  specialize (Hall (N.to_nat c)).
  rewrite N2Nat.id in Hall.
  apply Bool.eqb_prop, Hall.
  apply in_seq. lia.
Qed.

Lemma is_ascii_alnum_lt c : is_ascii_alnum c = true -> c < 128.
Proof.
  unfold is_ascii_alnum, is_ascii_letter, is_ascii_digit.
  rewrite !orb_true_iff, !andb_true_iff, !N.leb_le. lia.
Qed.

Lemma sanitize_char_spec c :
  sanitize_char c = c /\ isalnum c = true \/
  sanitize_char c = underscore /\ isalnum c = false.
Proof. unfold sanitize_char. destruct (isalnum c); auto. Qed.

(** C8: the sanitizer is idempotent and preserves the length of its input. *)
Theorem sanitize_idempotent_and_length_preserving (s : str) :
  sanitize_filename (sanitize_filename s) = sanitize_filename s
  /\ length (sanitize_filename s) = length s.
Proof.
  unfold sanitize_filename. split.
  - rewrite map_map. apply map_ext. intros c. apply sanitize_char_idempotent.
  - apply length_map.
Qed.

(** C7, as the specification states it, fails on a non-ASCII letter: the
    sanitizer keeps U+00E9 (e with acute accent), which is neither an ASCII
    letter, nor an ASCII digit, nor the placeholder. *)
Lemma sanitize_keeps_e_acute :
  sanitize_filename [233] = [233] /\ ~ ascii_only (sanitize_filename [233]).
Proof.
  split; [vm_compute; reflexivity |].
  intros H. inversion H as [| c l Hc _]; subst.
  vm_compute in Hc. destruct Hc as [Hc | Hc]; discriminate Hc.
Qed.

(** C7, amended: the sanitizer works character by character; it keeps the
    characters for which [str.isalnum] holds, among them every ASCII letter
    and digit, and replaces every other one by the placeholder; the output
    of an all-ASCII input holds only ASCII letters, digits and the
    placeholder. *)
Theorem sanitize_keeps_alnum_only (s : str) :
  (forall i c, nth_error s i = Some c ->
     nth_error (sanitize_filename s) i
     = Some (if isalnum c then c else underscore))
  /\ (forall c, is_ascii_alnum c = true -> isalnum c = true)
  /\ (Forall (fun c => is_ascii c = true) s -> ascii_only (sanitize_filename s)).
Proof.
  split; [| split].
  - intros i c Hi. unfold sanitize_filename.
    rewrite nth_error_map, Hi. reflexivity.
  - intros c Hc. rewrite isalnum_ascii; [exact Hc | now apply is_ascii_alnum_lt].
  - unfold ascii_only, sanitize_filename. intros Hs.
    apply Forall_map. eapply List.Forall_impl; [| exact Hs].
    intros c Hc. cbv beta. unfold is_ascii in Hc. apply N.ltb_lt in Hc.
    unfold sanitize_char. rewrite (isalnum_ascii c Hc).
    destruct (is_ascii_alnum c) eqn:Ha; auto.
Qed.

Lemma sanitize_keeps_alnum_only_witness :
  nth_error (sanitize_filename (s_ "a.b")) 1 = Some underscore
  /\ isalnum 97 = true
  /\ ascii_only (sanitize_filename (s_ "a.b")).
Proof.
  destruct (sanitize_keeps_alnum_only (s_ "a.b")) as (H1 & H2 & H3).
  split; [| split].
  - apply (H1 1%nat 46). reflexivity.
  - apply H2. reflexivity.
  - apply H3. repeat constructor.
Defined.

(** ** The monad and the loops *)

Section Properties.

Context {E : Env}.
Implicit Types (st : state E) (tr : list event) (mail : conn E).

Lemma trace_bind {A B} (m : M E A) (k : A -> M E B) st :
  trace (bind m k st)
  = trace (m st) ++ match result (m st) with
                    | Val a => trace (k a (final (m st)))
                    | Exc _ => []
                    end.
Proof.
  unfold bind. destruct (m st) as [[a | e] st1 tr1]; cbn [trace result final].
  - now destruct (k a st1).
  - now rewrite app_nil_r.
Qed.

Lemma result_bind {A B} (m : M E A) (k : A -> M E B) st :
  result (bind m k st)
  = match result (m st) with
    | Val a => result (k a (final (m st)))
    | Exc e => Exc e
    end.
Proof.
  unfold bind. destruct (m st) as [[a | e] st1 tr1]; cbn [trace result final].
  - now destruct (k a st1).
  - reflexivity.
Qed.

Lemma final_bind {A B} (m : M E A) (k : A -> M E B) st :
  final (bind m k st)
  = match result (m st) with
    | Val a => final (k a (final (m st)))
    | Exc e => final (m st)
    end.
Proof.
  unfold bind. destruct (m st) as [[a | e] st1 tr1]; cbn [trace result final].
  - now destruct (k a st1).
  - reflexivity.
Qed.


(** A loop whose body never raises runs to its end. *)
Lemma for_each_total {A} (body : A -> M E unit) (l : list A) :
  (forall x st, result (body x st) = Val tt) ->
  forall st, result (for_each body l st) = Val tt.
Proof.
  intros Hbody. induction l as [| x l IH]; intros st; cbn [for_each].
  - reflexivity.
  - rewrite result_bind, Hbody. apply IH.
Qed.

(** What holds of every event of every turn holds of every event of the
    loop. *)
Lemma for_each_Forall {A} (P : event -> Prop) (body : A -> M E unit) (l : list A) :
  (forall x st, In x l -> List.Forall P (trace (body x st))) ->
  forall st, List.Forall P (trace (for_each body l st)).
Proof.
  induction l as [| x l IH]; intros Hbody st; cbn [for_each].
  - constructor.
  - rewrite trace_bind. apply Forall_app. split.
    + apply Hbody. now left.
    + destruct (result (body x st)); [| constructor].
      apply IH. intros y st' Hy. apply Hbody. now right.
Qed.

(** A loop whose body never raises visits every element: what a reading [f]
    of the trace sees of the loop is what it sees of each turn, in order. *)
Lemma for_each_flat_map {A B} (f : event -> list B) (g : A -> list B)
    (body : A -> M E unit) (l : list A) :
  (forall x st, result (body x st) = Val tt) ->
  (forall x st, flat_map f (trace (body x st)) = g x) ->
  forall st, flat_map f (trace (for_each body l st)) = flat_map g l.
Proof.
  intros Htot Hbody. induction l as [| x l IH]; intros st; cbn [for_each].
  - reflexivity.
  - rewrite trace_bind, flat_map_app, Hbody, Htot. cbn [flat_map].
    now rewrite IH.
Qed.

Lemma flat_map_nil_Forall {B} (f : event -> list B) tr :
  List.Forall (fun e => f e = []) tr -> flat_map f tr = [].
Proof.
  induction 1 as [| e tr He _ IH]; cbn [flat_map]; [reflexivity |].
  now rewrite He, IH.
Qed.

(** An event of the trace of a loop is an event of one turn: what precedes
    it is what the earlier turns did, then what that turn did before it,
    and what follows it is the rest of that turn, then the later turns. *)
Lemma for_each_split {A} (body : A -> M E unit) (l : list A) st tr1 ev tr2 :
  trace (for_each body l st) = tr1 ++ ev :: tr2 ->
  exists x st' pre a b post,
    In x l /\ trace (body x st') = a ++ ev :: b
    /\ tr1 = pre ++ a /\ tr2 = b ++ post.
Proof.
  revert st tr1. induction l as [| x l IH]; intros st tr1; cbn [for_each].
  - intros H. now destruct tr1.
  - rewrite trace_bind. intros H.
    apply app_eq_app in H. destruct H as (m & [[H1 H2] | [H1 H2]]).
    + destruct m as [| e0 m].
      * rewrite app_nil_r in H1. cbn [app] in H2.
        destruct (result (body x st)) as [[] | x0]; [| discriminate H2].
        symmetry in H2. change (ev :: tr2) with ([] ++ ev :: tr2) in H2.
        destruct (IH _ _ H2) as (y & st' & pre & a & b & post & Hy & Hb & Hp & ->).
        symmetry in Hp. apply app_eq_nil in Hp. destruct Hp as [-> ->].
        exists y, st', tr1, [], b, post.
        split; [now right |]. split; [exact Hb |].
        split; [now rewrite app_nil_r | reflexivity].
      * cbn [app] in H2. injection H2 as -> ->.
        eexists x, st, [], tr1, m, _.
        split; [now left |]. split; [exact H1 |]. split; reflexivity.
    + destruct (result (body x st)) as [[] | x0]; [| now destruct m].
      destruct (IH _ _ H2) as (y & st' & pre & a & b & post & Hy & Hb & -> & ->).
      exists y, st', (trace (body x st) ++ pre), a, b, post.
      split; [now right |]. split; [exact Hb |].
      split; [now rewrite H1, app_assoc | reflexivity].
Qed.

(** A trace cut at an event that is not among its first events, or not
    among its last ones. *)
Lemma split_around {A} (P : A -> bool) (l1 l2 tr1 tr2 : list A) (e : A) :
  forallb (fun x => negb (P x)) l1 = true -> P e = true ->
  l1 ++ l2 = tr1 ++ e :: tr2 ->
  exists (t : list A), tr1 = l1 ++ t /\ l2 = t ++ e :: tr2.
Proof.
  revert tr1. induction l1 as [| a l1 IH]; intros tr1 Hl He Heq.
  - exists tr1. auto.
  - cbn [forallb] in Hl. apply andb_true_iff in Hl. destruct Hl as [Ha Hl].
    destruct tr1 as [| b tr1]; cbn [app] in Heq; injection Heq as -> Heq.
    + rewrite He in Ha. discriminate Ha.
    + destruct (IH tr1 Hl He Heq) as (tr1' & -> & ->). exists tr1'. auto.
Qed.

Lemma split_before {A} (P : A -> bool) (l1 l2 tr1 tr2 : list A) (e : A) :
  forallb (fun x => negb (P x)) l2 = true -> P e = true ->
  l1 ++ l2 = tr1 ++ e :: tr2 ->
  exists (t : list A), l1 = tr1 ++ e :: t /\ tr2 = t ++ l2.
Proof.
  revert tr1. induction l1 as [| a l1 IH]; intros tr1 Hl He Heq.
  - exfalso. cbn [app] in Heq. subst l2.
    rewrite forallb_app in Hl. cbn [forallb] in Hl. rewrite He in Hl.
    cbn in Hl. now rewrite andb_false_r in Hl.
  - destruct tr1 as [| b tr1]; cbn [app] in Heq; injection Heq as -> Heq.
    + exists l1. auto.
    + destruct (IH tr1 Hl He Heq) as (tr2' & -> & ->). exists tr2'. auto.
Qed.

Lemma fetched_app tr1 tr2 : fetched (tr1 ++ tr2) = fetched tr1 ++ fetched tr2.
Proof. apply flat_map_app. Qed.

(** ** Writing the parts of one response *)

Lemma save_part_other mb dir num part st :
  payloads [part] = [] ->
  save_part mb dir num part st = Outcome (Val tt) st [].
Proof. destruct part; [discriminate | reflexivity | reflexivity]. Qed.

Lemma save_part_early mb dir num hd d st :
  decode num = None \/ (exists e, subject_header E d = Exc e) ->
  exists e, result (save_part mb dir num (PTuple hd d) st) = Exc e
            /\ trace (save_part mb dir num (PTuple hd d) st) = [].
Proof.
  intros H. cbn [save_part]. sx.
  destruct (subject_header E d) as [header | e] eqn:Hh; sx; [| eauto].
  destruct H as [H | [e H]]; [| discriminate].
  rewrite H. sx. eauto.
Qed.

Lemma save_part_tuple mb dir num hd d st n header :
  decode num = Some n ->
  subject_header E d = Val header ->
  let p := eml_path dir n header in
  let o := save_part mb dir num (PTuple hd d) st in
  (exists e, result o = Exc e /\ trace o = [EOpen p false])
  \/ (exists e, result o = Exc e /\ trace o = [EOpen p true; EWrite p d false])
  \/ (result o = Val tt
      /\ trace o = [EOpen p true; EWrite p d true;
                    EPrint (MsgSaved mb (eml_filename n (subject_or_default header)))]
      /\ disk (final o) = <[p := d]> (<[p := []]> (disk st))).
Proof.
  intros Hn Hh p o. subst o p. unfold eml_path.
  cbn [save_part]. unfold write_file. rewrite Hh, Hn. sx.
  split_answer; [| left; eauto].
  split_answer; [| right; left; eauto].
  right; right. destruct a0. auto.
Qed.

Lemma save_part_write_from mb dir num parts part st :
  In part parts ->
  List.Forall (write_from E dir num parts) (trace (save_part mb dir num part st)).
Proof.
  intros Hin. destruct part as [hd d | b |].
  2,3: rewrite save_part_other by reflexivity; constructor.
  destruct (decode num) as [n |] eqn:Hn.
  2: { destruct (save_part_early mb dir num hd d st) as (e & _ & ->);
         [now auto | constructor]. }
  destruct (subject_header E d) as [header | e] eqn:Hh.
  2: { destruct (save_part_early mb dir num hd d st) as (e' & _ & ->);
         [now eauto | constructor]. }
  assert (Hw : forall ok, write_from E dir num parts (EWrite (eml_path dir n header) d ok)).
  { intros ok. exists hd, n, header. auto. }
  destruct (save_part_tuple mb dir num hd d st n header Hn Hh)
    as [(e & _ & ->) | [(e & _ & ->) | (_ & -> & _)]];
    repeat constructor; apply Hw.
Qed.

Lemma save_all_write_from mb dir num parts st :
  List.Forall (write_from E dir num parts)
              (trace (for_each (save_part mb dir num) parts st)).
Proof.
  apply for_each_Forall. intros part st' Hin. now apply save_part_write_from.
Qed.

Lemma save_all_failed_write mb dir num parts st :
  existsb is_failed_write (trace (for_each (save_part mb dir num) parts st)) = true ->
  exists e, result (for_each (save_part mb dir num) parts st) = Exc e.
Proof.
  revert st. induction parts as [| part parts IH]; intros st; cbn [for_each].
  - discriminate.
  - rewrite trace_bind, result_bind, existsb_app.
    destruct part as [hd d | b |].
    2,3: rewrite save_part_other by reflexivity;
         cbn [result final trace existsb orb]; apply IH.
    destruct (decode num) as [n |] eqn:Hn.
    2: { destruct (save_part_early mb dir num hd d st) as (e & -> & ->);
           [now auto |]. eauto. }
    destruct (subject_header E d) as [header | e] eqn:Hh.
    2: { destruct (save_part_early mb dir num hd d st) as (e' & -> & ->);
           [now eauto |]. eauto. }
    destruct (save_part_tuple mb dir num hd d st n header Hn Hh)
      as [(e & -> & ->) | [(e & -> & ->) | (-> & -> & _)]]; eauto.
Qed.

(** When no part fails, each tuple part is written once, in order. *)
Lemma save_all_written mb dir num parts st :
  result (for_each (save_part mb dir num) parts st) = Val tt ->
  map snd (written (trace (for_each (save_part mb dir num) parts st)))
  = payloads parts.
Proof.
  revert st. induction parts as [| part parts IH]; intros st; cbn [for_each].
  - reflexivity.
  - rewrite trace_bind, result_bind. unfold written.
    rewrite flat_map_app, map_app.
    destruct part as [hd d | b |].
    2,3: rewrite save_part_other by reflexivity;
         cbn [result final trace flat_map map app]; apply IH.
    destruct (decode num) as [n |] eqn:Hn.
    2: { destruct (save_part_early mb dir num hd d st) as (e & -> & ->);
           [now auto |]. discriminate. }
    destruct (subject_header E d) as [header | e] eqn:Hh.
    2: { destruct (save_part_early mb dir num hd d st) as (e' & -> & ->);
           [now eauto |]. discriminate. }
    destruct (save_part_tuple mb dir num hd d st n header Hn Hh)
      as [(e & -> & ->) | [(e & -> & ->) | (-> & -> & _)]];
      try discriminate.
    intros Hres. cbn [flat_map map app snd payloads]. f_equal. now apply IH.
Qed.

(** Parts that are no tuples leave no trace and change nothing. *)
Lemma save_all_no_tuple mb dir num parts st :
  payloads parts = [] ->
  for_each (save_part mb dir num) parts st = Outcome (Val tt) st [].
Proof.
  induction parts as [| part parts IH]; intros Hp; cbn [for_each].
  - reflexivity.
  - destruct part as [hd d | b |]; [discriminate | |];
      unfold bind; rewrite save_part_other by reflexivity; sx;
      now rewrite IH.
Qed.

(** A response with a single tuple part: one write, and the file holds the
    payload afterwards. *)
Lemma save_all_single mb dir num parts payload st :
  payloads parts = [payload] ->
  result (for_each (save_part mb dir num) parts st) = Val tt ->
  exists p,
    written (trace (for_each (save_part mb dir num) parts st)) = [(p, payload)]
    /\ disk (final (for_each (save_part mb dir num) parts st)) !! p = Some payload.
Proof.
  induction parts as [| part parts IH]; intros Hp; cbn [for_each].
  - discriminate.
  - rewrite trace_bind, result_bind, final_bind.
    destruct part as [hd d | b |].
    2,3: rewrite save_part_other by reflexivity;
         cbn [result final trace app]; now apply IH.
    cbn [payloads flat_map app] in Hp. injection Hp as -> Hrest.
    destruct (decode num) as [n |] eqn:Hn.
    2: { destruct (save_part_early mb dir num hd payload st) as (e & -> & ->);
           [now auto |]. discriminate. }
    destruct (subject_header E payload) as [header | e] eqn:Hh.
    2: { destruct (save_part_early mb dir num hd payload st) as (e' & -> & ->);
           [now eauto |]. discriminate. }
    destruct (save_part_tuple mb dir num hd payload st n header Hn Hh)
      as [(e & -> & ->) | [(e & -> & ->) | (-> & -> & Hd)]];
      try discriminate.
    intros _. rewrite save_all_no_tuple by exact Hrest.
    cbn [result final trace app].
    exists (eml_path dir n header). split; [reflexivity |].
    rewrite Hd. apply lookup_insert_eq.
Qed.

(** In the loop over the parts of a response, a failed open or write is the
    last event, and the loop ends with an exception. *)
Lemma save_all_failure_last mb dir num parts st tr1 e tr2 :
  trace (for_each (save_part mb dir num) parts st) = tr1 ++ e :: tr2 ->
  is_failed_write e = true ->
  tr2 = [] /\ exists x, result (for_each (save_part mb dir num) parts st) = Exc x.
Proof.
  revert st tr1. induction parts as [| part parts IH]; intros st tr1;
    cbn [for_each].
  - intros H. now destruct tr1.
  - rewrite trace_bind, result_bind.
    destruct part as [hd d | b |].
    2,3: rewrite save_part_other by reflexivity;
         cbn [result final trace app]; apply IH.
    destruct (decode num) as [n |] eqn:Hn.
    2: { destruct (save_part_early mb dir num hd d st) as (x & -> & ->);
           [now auto |]. intros H. now destruct tr1. }
    destruct (subject_header E d) as [header | x] eqn:Hh.
    2: { destruct (save_part_early mb dir num hd d st) as (x' & -> & ->);
           [now eauto |]. intros H. now destruct tr1. }
    destruct (save_part_tuple mb dir num hd d st n header Hn Hh)
      as [(x & -> & ->) | [(x & -> & ->) | (-> & -> & _)]];
      cbn [app]; intros H He.
    + destruct tr1 as [| a tr1]; cbn [app] in H; injection H as <- H.
      * split; [now symmetry | eauto].
      * now destruct tr1.
    + destruct tr1 as [| a tr1]; cbn [app] in H; injection H as <- H;
        [discriminate He |].
      destruct tr1 as [| a' tr1]; cbn [app] in H; injection H as <- H.
      * split; [now symmetry | eauto].
      * now destruct tr1.
    + match type of H with
      | ?a :: ?b :: ?c :: ?l = _ => change (a :: b :: c :: l) with ([a; b; c] ++ l) in H
      end.
      apply (split_around is_failed_write) in H; [| reflexivity | exact He].
      destruct H as (tr1' & _ & H').
      now apply IH in H'.
Qed.

(** Whatever fails, what the loop has written is the payloads of the first
    tuple parts, in order: no tuple part is written twice. *)
Lemma save_all_written_prefix mb dir num parts st :
  exists rest,
    payloads parts
    = map snd (written (trace (for_each (save_part mb dir num) parts st))) ++ rest.
Proof.
  revert st. induction parts as [| part parts IH]; intros st; cbn [for_each].
  - now exists [].
  - rewrite trace_bind. unfold written. rewrite flat_map_app, map_app.
    destruct part as [hd d | b |].
    2,3: rewrite save_part_other by reflexivity;
         cbn [result final trace flat_map map app payloads]; apply IH.
    cbn [payloads flat_map app]. fold (payloads parts).
    destruct (decode num) as [n |] eqn:Hn.
    2: { destruct (save_part_early mb dir num hd d st) as (e & -> & ->);
           [now auto |]. cbn [flat_map map app]. eauto. }
    destruct (subject_header E d) as [header | e] eqn:Hh.
    2: { destruct (save_part_early mb dir num hd d st) as (e' & -> & ->);
           [now eauto |]. cbn [flat_map map app]. eauto. }
    destruct (save_part_tuple mb dir num hd d st n header Hn Hh)
      as [(e & -> & ->) | [(e & -> & ->) | (-> & -> & _)]];
      cbn [flat_map map app snd].
    + eauto.
    + exists (payloads parts). reflexivity.
    + match goal with
      | |- context [for_each _ parts ?s] => destruct (IH s) as [rest Hrest]
      end.
      exists rest. unfold written in Hrest. now rewrite Hrest at 1.
Qed.

Lemma written_in tr p d :
  In (p, d) (written tr) -> exists ok, In (EWrite p d ok) tr.
Proof.
  induction tr as [| e tr IH]; [intros [] |].
  unfold written. cbn [flat_map]. fold (written tr). intros H.
  apply in_app_iff in H. destruct H as [H | H].
  - destruct e; cbn [In] in H; try contradiction. destruct H as [H | []].
    injection H as -> ->. eexists. now left.
  - destruct (IH H) as [ok Hok]. exists ok. now right.
Qed.

(** A loop over the parts that ends normally has had no open and no write
    fail. *)
Lemma save_all_ok mb dir num parts st e :
  result (for_each (save_part mb dir num) parts st) = Val tt ->
  In e (trace (for_each (save_part mb dir num) parts st)) ->
  is_failed_write e = false.
Proof.
  intros Hres Hin. destruct (is_failed_write e) eqn:He; [| reflexivity].
  destruct (save_all_failed_write mb dir num parts st) as [x Hx].
  - apply existsb_exists. now exists e.
  - congruence.
Qed.

(** ** Exporting one message *)

(** [process_message], run: the fetch, then the report of a failure or the
    loop over the parts, whose exception, if any, is reported. *)
Lemma process_message_run mail mb dir num st :
  let rw := imap_fetch E mail num (world st) in
  let st1 := State (snd rw) (disk st) in
  process_message mail mb dir num st
  = match fst rw with
    | Exc e =>
        Outcome (Val tt) st1
                [EFetch num (Exc e); EPrint (MsgErrorProcessing num mb e)]
    | Val sd =>
        if is_OK (fst sd)
        then
          let oa := for_each (save_part mb dir num) (snd sd) st1 in
          Outcome (Val tt) (final oa)
                  (EFetch num (Val sd)
                   :: trace oa
                   ++ match result oa with
                      | Val _ => []
                      | Exc e => [EPrint (MsgErrorProcessing num mb e)]
                      end)
        else Outcome (Val tt) st1
                     [EFetch num (Val sd); EPrint (MsgFetchFailed num mb)]
    end.
Proof.
  unfold process_message. sx.
  destruct (imap_fetch E mail num (world st)) as [[sd | e] w]; sx;
    [| reflexivity].
  destruct (is_OK (fst sd)); sx; [| reflexivity].
  destruct (for_each (save_part mb dir num) (snd sd) (State w (disk st)))
    as [[[] | e] stf trf]; sx; [| reflexivity].
  now rewrite app_nil_r.
Qed.

Lemma process_message_total mail mb dir num st :
  result (process_message mail mb dir num st) = Val tt.
Proof.
  rewrite process_message_run. cbv zeta.
  destruct (fst (imap_fetch E mail num (world st))) as [sd | e];
    [destruct (is_OK (fst sd)) |]; reflexivity.
Qed.

Lemma write_from_local dir num parts e :
  write_from E dir num parts e -> is_local e = true.
Proof. destruct e; cbn; intros H; solve [reflexivity | destruct H]. Qed.

Lemma process_message_trace mail mb dir num st :
  exists r tl,
    trace (process_message mail mb dir num st) = EFetch num r :: tl
    /\ List.Forall (fun e => is_local e = true) tl.
Proof.
  rewrite process_message_run. cbv zeta.
  destruct (imap_fetch E mail num (world st)) as [[sd | e] w]; sx.
  2: { eexists _, _. split; [reflexivity |]. repeat constructor. }
  destruct (is_OK (fst sd)); sx.
  2: { eexists _, _. split; [reflexivity |]. repeat constructor. }
  eexists _, _. split; [reflexivity |].
  apply Forall_app. split.
  - eapply List.Forall_impl; [| apply save_all_write_from].
    intros e. apply write_from_local.
  - destruct (result _); repeat constructor.
Qed.

Lemma local_is_message e : is_local e = true -> is_message_event e = true.
Proof. destruct e; cbn; congruence. Qed.

Lemma process_message_events mail mb dir num st :
  List.Forall (fun e => is_message_event e = true)
              (trace (process_message mail mb dir num st)).
Proof.
  destruct (process_message_trace mail mb dir num st) as (r & tl & -> & Htl).
  constructor; [reflexivity |].
  eapply List.Forall_impl; [| exact Htl]. apply local_is_message.
Qed.

Lemma local_not_fetched tl :
  List.Forall (fun e => is_local e = true) tl -> fetched tl = [].
Proof.
  intros H. apply flat_map_nil_Forall.
  eapply List.Forall_impl; [| exact H].
  intros e. destruct e; cbn; congruence.
Qed.

Lemma process_message_fetched mail mb dir num st :
  fetched (trace (process_message mail mb dir num st)) = [num].
Proof.
  destruct (process_message_trace mail mb dir num st) as (r & tl & -> & Htl).
  unfold fetched in *. cbn [flat_map]. fold (fetched tl).
  now rewrite (local_not_fetched tl Htl).
Qed.

(** Where a call made for a message stands in the trace of its exporter:
    the fetch comes first, the opens and the writes follow it. *)
Lemma process_message_at mail mb dir num st a ev b :
  trace (process_message mail mb dir num st) = a ++ ev :: b ->
  is_message_call ev = true ->
  (a = [] /\ exists r, ev = EFetch num r)
  \/ (is_file_event ev = true
      /\ exists r a', a = EFetch num r :: a'
                      /\ List.Forall (fun e => is_local e = true) a').
Proof.
  intros H He.
  destruct (process_message_trace mail mb dir num st) as (r & tl & Ht & Htl).
  rewrite Ht in H. destruct a as [| e0 a]; cbn [app] in H; injection H as <- H.
  - left. eauto.
  - right. subst tl. apply Forall_app in Htl. destruct Htl as [Ha Hev].
    inversion Hev as [| ? ? Hl _]; subst. split; [| eauto].
    destruct ev; try discriminate He; try discriminate Hl; reflexivity.
Qed.

(** A fetch that raised is followed by its report, which ends the
    message. *)
Lemma process_message_fetch_raised mail mb dir num st a num' e b :
  trace (process_message mail mb dir num st) = a ++ EFetch num' (Exc e) :: b ->
  a = [] /\ num' = num /\ b = [EPrint (MsgErrorProcessing num mb e)].
Proof.
  intros H.
  destruct (process_message_at mail mb dir num st _ _ _ H eq_refl)
    as [[-> (r & Hr)] | [Hf _]]; [| discriminate Hf].
  injection Hr as -> <-. revert H. rewrite process_message_run. cbv zeta.
  destruct (imap_fetch E mail num (world st)) as [[sd | e1] w]; cbn [fst snd].
  - destruct (is_OK (fst sd)); cbn [trace app]; intros H; discriminate H.
  - cbn [trace app]. intros H. injection H as <- <-. auto.
Qed.

(** A failed open or write is followed by its report, which ends the
    message. *)
Lemma process_message_failure_last mail mb dir num st tr1 e tr2 :
  trace (process_message mail mb dir num st) = tr1 ++ e :: tr2 ->
  is_failed_write e = true ->
  exists x, tr2 = [EPrint (MsgErrorProcessing num mb x)].
Proof.
  rewrite process_message_run. cbv zeta.
  destruct (imap_fetch E mail num (world st)) as [[[status parts] | e1] w];
    cbn [fst snd].
  2: { cbn [trace]. intros H He. peel H Hev Htl; subst e; discriminate He. }
  destruct (is_OK status); cbn [trace].
  2: { intros H He. peel H Hev Htl; subst e; discriminate He. }
  intros H He.
  destruct tr1 as [| a tr1]; cbn [app] in H; injection H as <- H;
    [discriminate He |].
  assert (Htail : forallb (fun x => negb (is_failed_write x))
                    match result (for_each (save_part mb dir num) parts
                                    (State w (disk st))) with
                    | Val _ => []
                    | Exc x => [EPrint (MsgErrorProcessing num mb x)]
                    end = true) by (destruct (result _); reflexivity).
  destruct (split_before is_failed_write _ _ _ _ _ Htail He H) as (tr2' & H1 & ->).
  destruct (save_all_failure_last mb dir num parts _ _ _ _ H1 He) as (-> & x & ->).
  exists x. reflexivity.
Qed.

(** The loop over the message numbers fetches every one of them. *)
Lemma process_all_fetched mail mb dir nums st :
  result (for_each (process_message mail mb dir) nums st) = Val tt
  /\ fetched (trace (for_each (process_message mail mb dir) nums st)) = nums.
Proof.
  split.
  - apply for_each_total. intros. apply process_message_total.
  - unfold fetched.
    rewrite (for_each_flat_map _ (fun num => [num])).
    + clear. induction nums; cbn; congruence.
    + intros. apply process_message_total.
    + intros. apply process_message_fetched.
Qed.

(** ** Exporting one mailbox *)

Lemma is_OK_true status : is_OK status = true -> status = OK.
Proof. unfold is_OK. apply bool_decide_eq_true_1. Qed.

Lemma falsy_false m0 :
  falsy m0 = false -> exists data, m0 = Some data /\ data <> [].
Proof.
  destruct m0 as [[| b data] |]; try discriminate.
  intros _. eexists. split; [reflexivity | discriminate].
Qed.

(** The runs of [download_emails]: where it can stop, and what it has done
    by then. *)
Lemma download_emails_cases mail mb out st :
  let o := download_emails mail mb out st in
  let dir := join out (sanitize_filename mb) in
  result o = Val tt /\
  ((exists e,
      trace o = [ESelect mb (Exc e); EPrint (MsgErrorAccessing mb e)])
   \/ (exists status,
         status <> OK /\
         trace o = [ESelect mb (Val status); EPrint (MsgCouldNotSelect mb)])
   \/ (exists e,
         trace o = [ESelect mb (Val OK); ESearch (Exc e);
                    EPrint (MsgErrorAccessing mb e)])
   \/ (exists status messages,
         status <> OK /\
         trace o = [ESelect mb (Val OK); ESearch (Val (status, messages));
                    EPrint (MsgNoMessages mb)])
   \/ trace o = [ESelect mb (Val OK); ESearch (Val (OK, []));
                 EPrint (MsgErrorAccessing mb IndexError)]
   \/ (exists m0 rest,
         falsy m0 = true /\
         trace o = [ESelect mb (Val OK); ESearch (Val (OK, m0 :: rest));
                    EPrint (MsgNoMessages mb)])
   \/ (exists data rest e,
         data <> [] /\
         trace o = [ESelect mb (Val OK); ESearch (Val (OK, Some data :: rest));
                    EMakedirs dir false; EPrint (MsgErrorAccessing mb e)])
   \/ (exists data rest st3,
         data <> [] /\
         trace o = ESelect mb (Val OK) :: ESearch (Val (OK, Some data :: rest))
                   :: EMakedirs dir true
                   :: trace (for_each (process_message mail mb dir) (split data) st3)
         /\ final o = final (for_each (process_message mail mb dir) (split data) st3))).
Proof.
  cbv zeta. unfold download_emails. sx.
  split_answer.
  2: { split; [reflexivity |]. left. eauto. }
  destruct (is_OK a) eqn:Hs; sx.
  2: { split; [reflexivity |]. right; left. exists a. split; [| reflexivity].
       intros ->. unfold is_OK in Hs. now rewrite bool_decide_eq_true_2 in Hs. }
  apply is_OK_true in Hs. subst a.
  split_answer.
  2: { split; [reflexivity |]. do 2 right; left. eauto. }
  destruct a as [status messages]. sx.
  destruct (is_OK status) eqn:Hs; sx.
  2: { split; [reflexivity |]. do 3 right; left. exists status, messages.
       split; [| reflexivity].
       intros ->. unfold is_OK in Hs. now rewrite bool_decide_eq_true_2 in Hs. }
  apply is_OK_true in Hs. subst status.
  destruct messages as [| m0 rest]; cbn [first_item]; sx.
  { split; [reflexivity |]. do 4 right; left. reflexivity. }
  destruct (falsy m0) eqn:Hf; sx.
  { split; [reflexivity |]. do 5 right; left. eauto. }
  apply falsy_false in Hf. destruct Hf as (data & -> & Hdata).
  split_answer.
  2: { split; [reflexivity |]. do 6 right; left. eauto. }
  cbn [split_ids]. sx.
  match goal with
  | |- context [for_each ?b ?l ?s] =>
      pose proof (for_each_total b l (process_message_total mail mb _) s) as Hloop;
      destruct (for_each b l s) as [rl stl trl] eqn:Hrun
  end.
  sx. subst rl. sx.
  split; [reflexivity |]. do 7 right.
  eexists data, rest, _. split; [exact Hdata |].
  rewrite Hrun. sx. split; reflexivity.
Qed.

Lemma download_emails_total mail mb out st :
  result (download_emails mail mb out st) = Val tt.
Proof. apply (download_emails_cases mail mb out st). Qed.

Lemma process_all_events mail mb dir nums st :
  List.Forall (fun e => is_message_event e = true)
              (trace (for_each (process_message mail mb dir) nums st)).
Proof.
  apply for_each_Forall. intros. apply process_message_events.
Qed.

Lemma message_events_no_dirs tl :
  List.Forall (fun e => is_message_event e = true) tl -> made_dirs tl = [].
Proof.
  intros H. apply flat_map_nil_Forall.
  eapply List.Forall_impl; [| exact H].
  intros e. destruct e; cbn; congruence.
Qed.

Lemma message_event_mailbox_event e :
  is_message_event e = true -> is_mailbox_event e = true.
Proof. destruct e; cbn; congruence. Qed.

(** A run of [download_emails] is a select followed by events of the
    exporter. *)
Lemma download_emails_trace mail mb out st :
  exists r tl,
    trace (download_emails mail mb out st) = ESelect mb r :: tl
    /\ List.Forall (fun e => is_mailbox_event e = true) tl.
Proof.
  destruct (download_emails_cases mail mb out st) as [_ H].
  destruct H as [(e & ->) | [(s & _ & ->) | [(e & ->) | [(s & m & _ & ->)
    | [-> | [(m0 & rest & _ & ->) | [(data & rest & e & _ & ->)
    | (data & rest & st3 & _ & -> & _)]]]]]]];
    eexists _, _; (split; [reflexivity |]); repeat constructor.
  eapply List.Forall_impl; [| apply process_all_events].
  apply message_event_mailbox_event.
Qed.

Lemma mailbox_events_not_selected tl :
  List.Forall (fun e => is_mailbox_event e = true) tl -> selected tl = [].
Proof.
  intros H. apply flat_map_nil_Forall.
  eapply List.Forall_impl; [| exact H].
  intros e. destruct e; cbn; congruence.
Qed.

Lemma download_emails_selected mail mb out st :
  selected (trace (download_emails mail mb out st)) = [mb].
Proof.
  destruct (download_emails_trace mail mb out st) as (r & tl & -> & Htl).
  unfold selected in *. cbn [flat_map]. fold (selected tl).
  now rewrite (mailbox_events_not_selected tl Htl).
Qed.

Lemma process_all_event_in mail mb dir nums st e :
  In e (trace (for_each (process_message mail mb dir) nums st)) ->
  is_message_event e = true.
Proof.
  intros Hin. pose proof (process_all_events mail mb dir nums st) as Hall.
  rewrite List.Forall_forall in Hall. now apply Hall.
Qed.

Lemma save_all_event_in mb dir num parts st e :
  In e (trace (for_each (save_part mb dir num) parts st)) ->
  write_from E dir num parts e.
Proof.
  intros Hin. pose proof (save_all_write_from mb dir num parts st) as Hall.
  rewrite List.Forall_forall in Hall. now apply Hall.
Qed.

(** Where a call made for a message stands in the trace of the exporter of
    its mailbox: after the select that answered OK and events of that
    mailbox, inside the turn of one identifier of the search answer. *)
Lemma download_emails_at mail mb out st tr1 ev tr2 :
  trace (download_emails mail mb out st) = tr1 ++ ev :: tr2 ->
  is_message_call ev = true ->
  exists tr0 a b post num st',
    tr1 = ESelect mb (Val OK) :: tr0 ++ a
    /\ List.Forall (fun e => is_mailbox_event e = true) tr0
    /\ trace (process_message mail mb (join out (sanitize_filename mb)) num st')
       = a ++ ev :: b
    /\ tr2 = b ++ post.
Proof.
  intros H He.
  assert (Hin : In ev (trace (download_emails mail mb out st)))
    by (rewrite H; apply in_elt).
  destruct (download_emails_cases mail mb out st) as [_ Hd].
  destruct Hd as [(e1 & Ht) | [(s & _ & Ht) | [(e1 & Ht) | [(s & m' & _ & Ht)
    | [Ht | [(m0 & rest & _ & Ht) | [(data & rest & e1 & _ & Ht)
    | (data & rest & st3 & _ & Ht & _)]]]]]]]; rewrite Ht in Hin, H; clear Ht.
  1-7: exfalso; in_split Hin; subst ev; discriminate He.
  clear Hin.
  match type of H with
  | ?x :: ?y :: ?z :: ?l = _ => change (x :: y :: z :: l) with ([x; y; z] ++ l) in H
  end.
  apply (split_around is_message_call) in H; [| reflexivity | exact He].
  destruct H as (t & -> & H).
  pose proof (process_all_events mail mb (join out (sanitize_filename mb))
                (split data) st3) as Hall.
  destruct (for_each_split _ _ _ _ _ _ H)
    as (num & st' & pre & a & b & post & _ & Hb & -> & ->).
  rewrite H in Hall. rewrite <- app_assoc in Hall.
  apply Forall_app in Hall. destruct Hall as [Hpre _].
  exists ([ESearch (Val (OK, Some data :: rest));
           EMakedirs (join out (sanitize_filename mb)) true] ++ pre),
         a, b, post, num, st'.
  split; [reflexivity |]. split; [| split; [exact Hb | reflexivity]].
  constructor; [reflexivity |]. constructor; [reflexivity |].
  eapply List.Forall_impl; [| exact Hpre]. apply message_event_mailbox_event.
Qed.

(** An exception of select or search is followed by its report, which ends
    the mailbox. *)
Lemma download_emails_access_raised mail mb out st tr1 ev tr2 :
  trace (download_emails mail mb out st) = tr1 ++ ev :: tr2 ->
  (forall mb' e, ev = ESelect mb' (Exc e) ->
     tr1 = [] /\ mb' = mb /\ tr2 = [EPrint (MsgErrorAccessing mb e)])
  /\ (forall e, ev = ESearch (Exc e) ->
        tr1 = [ESelect mb (Val OK)] /\ tr2 = [EPrint (MsgErrorAccessing mb e)]).
Proof.
  intros H.
  assert (Hin : In ev (trace (download_emails mail mb out st)))
    by (rewrite H; apply in_elt).
  destruct (download_emails_cases mail mb out st) as [_ Hd].
  destruct Hd as [(e1 & Ht) | [(s & _ & Ht) | [(e1 & Ht) | [(s & m' & _ & Ht)
    | [Ht | [(m0 & rest & _ & Ht) | [(data & rest & e1 & _ & Ht)
    | (data & rest & st3 & _ & Ht & _)]]]]]]]; rewrite Ht in Hin, H; clear Ht.
  8: { split; [intros mb' e -> | intros e ->];
         in_trace Hin (@process_all_event_in mail mb). }
  all: clear Hin; peel H Hev Htl; subst ev tr2;
    (split; [intros mb' e Heq | intros e Heq]); try discriminate Heq;
    inversion Heq; subst; auto.
Qed.

End Properties.

(** C4, as the specification states it, fails when the search answers with
    a blank: no message identifier comes back, and the directory of the
    mailbox is created all the same. *)
Lemma blank_search_creates_directory :
  let o := download_emails (E := scripted blank_search) tt (s_ "INBOX")
                           (s_ "root") (start blank_search) in
  trace o = [ESelect (s_ "INBOX") (Val OK);
             ESearch (Val (OK, [Some (b_ " ")]));
             EMakedirs (s_ "root/INBOX") true]
  /\ split (b_ " ") = []
  /\ ~ (made_dirs (trace o) <> [] -> fetched (trace o) <> []).
Proof.
  split; [vm_compute; reflexivity |].
  split; [vm_compute; reflexivity |].
  intros H. apply H; vm_compute; [discriminate | reflexivity].
Qed.

(** C4, amended: [download_emails] asks for the directory of the mailbox
    only after a select that answered OK and a search that answered OK with
    a first data item that is not empty (an item of blanks counts, though it
    holds no identifier); a select that does not answer OK ends the run of
    the mailbox at once; a search that raises, does not answer OK or answers
    with no or an empty first item leaves no directory. *)
Theorem mailbox_directory_only_after_search (E : Env) (mail : conn E)
    (mb out : str) (st : state E) :
  let tr := trace (download_emails mail mb out st) in
  (forall p ok, In (EMakedirs p ok) tr ->
     p = join out (sanitize_filename mb)
     /\ exists data rest tl,
          data <> []
          /\ tr = ESelect mb (Val OK) :: ESearch (Val (OK, Some data :: rest))
                  :: EMakedirs p ok :: tl
          /\ made_dirs tl = [])
  /\ (forall r, In (ESelect mb r) tr -> r <> Val OK ->
        exists m, tr = [ESelect mb r; EPrint m])
  /\ (forall r, In (ESearch r) tr ->
        (forall data rest, r = Val (OK, Some data :: rest) -> data = []) ->
        made_dirs tr = []).
Proof.
  cbv zeta.
  destruct (download_emails_cases mail mb out st) as [_ H].
  destruct H as [(e & ->) | [(s & Hs & ->) | [(e & ->) | [(s & m & Hs & ->)
    | [-> | [(m0 & rest & Hf & ->) | [(data & rest & e & Hd & ->)
    | (data & rest & st3 & Hd & -> & _)]]]]]]].
  all: split; [intros p ok Hin | split; [intros r Hin Hr | intros r Hin Hr]].
  all: try (in_cases Hin; fail).
  all: try reflexivity.
  all: try (in_cases Hin; try congruence; eexists; reflexivity).
  - in_cases Hin. split; [reflexivity |].
    exists data, rest, [EPrint (MsgErrorAccessing mb e)]. auto.
  - in_cases Hin. exfalso. apply Hd. eapply Hr. reflexivity.
  - destruct Hin as [Hin | [Hin | [Hin | Hin]]]; try discriminate Hin.
    + injection Hin as <- <-. split; [reflexivity |].
      eexists data, rest, _. split; [exact Hd |]. split; [reflexivity |].
      apply message_events_no_dirs, process_all_events.
    + exfalso.
      pose proof (process_all_events mail mb (join out (sanitize_filename mb))
                    (split data) st3) as Hall.
      rewrite List.Forall_forall in Hall. specialize (Hall _ Hin). discriminate.
  - destruct Hin as [Hin | [Hin | [Hin | Hin]]]; try discriminate Hin.
    + congruence.
    + exfalso.
      pose proof (process_all_events mail mb (join out (sanitize_filename mb))
                    (split data) st3) as Hall.
      rewrite List.Forall_forall in Hall. specialize (Hall _ Hin). discriminate.
  - destruct Hin as [Hin | [Hin | [Hin | Hin]]]; try discriminate Hin.
    + injection Hin as <-. exfalso. apply Hd. eapply Hr. reflexivity.
    + exfalso.
      pose proof (process_all_events mail mb (join out (sanitize_filename mb))
                    (split data) st3) as Hall.
      rewrite List.Forall_forall in Hall. specialize (Hall _ Hin). discriminate.
Qed.

Lemma mailbox_directory_only_after_search_witness :
  (exists data rest tl,
     data <> []
     /\ trace (download_emails (E := scripted one_message) tt (s_ "INBOX")
                               (s_ "root") (start one_message))
        = ESelect (s_ "INBOX") (Val OK) :: ESearch (Val (OK, Some data :: rest))
          :: EMakedirs (s_ "root/INBOX") true :: tl
     /\ made_dirs tl = [])
  /\ (exists m,
        trace (download_emails (E := scripted unselectable) tt (s_ "INBOX")
                               (s_ "root") (start unselectable))
        = [ESelect (s_ "INBOX") (Val (s_ "NO")); EPrint m])
  /\ made_dirs (trace (download_emails (E := scripted no_messages) tt (s_ "INBOX")
                                       (s_ "root") (start no_messages))) = [].
Proof.
  split; [| split].
  - destruct (mailbox_directory_only_after_search (scripted one_message) tt
                (s_ "INBOX") (s_ "root") (start one_message)) as (H & _ & _).
    apply (H (s_ "root/INBOX") true). vm_compute. tauto.
  - destruct (mailbox_directory_only_after_search (scripted unselectable) tt
                (s_ "INBOX") (s_ "root") (start unselectable)) as (_ & H & _).
    apply (H (Val (s_ "NO"))); [vm_compute; tauto | discriminate].
  - destruct (mailbox_directory_only_after_search (scripted no_messages) tt
                (s_ "INBOX") (s_ "root") (start no_messages)) as (_ & _ & H).
    apply (H (Val (OK, [Some []]))); [vm_compute; tauto |].
    intros data rest Heq. injection Heq as <- _. reflexivity.
Defined.

(** ** The session and the list of mailboxes *)

(** The names [list_mailboxes] returns are not empty. *)
Lemma split_from_nonempty cur l :
  List.Forall (fun tok => tok <> []) (split_from cur l).
Proof.
  revert cur. induction l as [| b l IH]; intros cur; cbn [split_from].
  - destruct cur as [| c cur]; constructor; [| constructor].
    intros H. apply (f_equal (@length byte)) in H.
    rewrite length_rev in H. discriminate H.
  - destruct (is_bytes_space b); [| apply IH].
    destruct cur as [| c cur]; [apply IH |].
    constructor; [| apply IH].
    intros H. apply (f_equal (@length byte)) in H.
    rewrite length_rev in H. discriminate H.
Qed.

Lemma utf8_decode_nonempty l s : l <> [] -> utf8_decode l = Some s -> s <> [].
Proof.
  intros Hl H. destruct l as [| b0 r0]; [now contradiction Hl |].
  cbn [utf8_decode] in H.
  repeat match type of H with
         | (if ?c then _ else _) = _ => destruct c
         | match ?r with [] => _ | _ :: _ => _ end = _ => destruct r
         | None = _ => discriminate H
         end;
    match type of H with
    | option_map _ ?o = _ => destruct o; cbn in H; [| discriminate H]
    end;
    injection H as <-; discriminate.
Qed.

Lemma mailbox_name_nonempty box name : mailbox_name box = Val name -> name <> [].
Proof.
  destruct box as [b | a b |]; cbn [mailbox_name]; try discriminate.
  unfold last_item.
  destruct (rev (split b)) as [| tok r] eqn:Hr; [discriminate |].
  destruct (decode tok) as [s |] eqn:Hd; [| discriminate].
  intros H. injection H as <-.
  unfold decode in Hd. eapply utf8_decode_nonempty; [| exact Hd].
  assert (Htok : tok <> []).
  { pose proof (split_from_nonempty [] b) as Hall. fold (split b) in Hall.
    rewrite List.Forall_forall in Hall. apply Hall.
    apply in_rev. rewrite Hr. now left. }
  destruct tok; [now contradiction Htok | discriminate].
Qed.

Lemma comprehension_names_nonempty entries names :
  comprehension mailbox_name entries = Val names ->
  List.Forall (fun name => name <> []) names.
Proof.
  revert names. induction entries as [| box entries IH]; intros names;
    cbn [comprehension].
  - intros H. injection H as <-. constructor.
  - destruct (mailbox_name box) as [name | e] eqn:Hb; [| discriminate].
    destruct (comprehension mailbox_name entries) as [ns | e]; [| discriminate].
    intros H. injection H as <-. constructor; [| now apply IH].
    now apply mailbox_name_nonempty in Hb.
Qed.

Section Orchestrator.

Context {E : Env}.
Implicit Types (st : state E) (tr : list event) (mail : conn E).

(** [connect_to_imap] never raises; it returns a connection only after a
    connect and a login that both returned. *)
Lemma connect_to_imap_cases server port username password st :
  let o := connect_to_imap server port username password st in
  (exists m, result o = Val None /\ trace o = [EPrint m])
  \/ (exists p m,
        result o = Val None /\ trace o = [EConnect server p false; EPrint m])
  \/ (exists p m,
        result o = Val None
        /\ trace o = [EConnect server p true; ELogin username password false;
                      EPrint m])
  \/ (exists p c,
        result o = Val (Some c)
        /\ trace o = [EConnect server p true; ELogin username password true;
                      EPrint MsgLoggedIn]).
Proof.
  cbv zeta. unfold connect_to_imap. sx.
  destruct (py_int E port) as [p | e] eqn:Hp; sx.
  2: { left. destruct e; sx; eauto. }
  split_answer.
  2: { right; left. destruct e; sx; eauto. }
  split_answer.
  2: { right; right; left. destruct e; sx; eauto. }
  right; right; right. eauto.
Qed.

Lemma comprehension_raises entries b :
  In (LBytes b) entries -> split b = [] ->
  exists e, comprehension mailbox_name entries = Exc e.
Proof.
  intros Hin Hb. induction entries as [| x entries IH]; [destruct Hin |].
  cbn [comprehension].
  destruct (mailbox_name x) as [name | e] eqn:Hx; [| eauto].
  destruct Hin as [-> | Hin].
  - cbn [mailbox_name] in Hx. rewrite Hb in Hx. discriminate Hx.
  - destruct (IH Hin) as [e ->]. eauto.
Qed.

(** [list_mailboxes] never raises; it returns names only when the list
    command answered OK and every entry yielded a name. *)
Lemma list_mailboxes_cases mail st :
  let o := list_mailboxes mail st in
  (exists e,
     result o = Val [] /\ trace o = [EList (Exc e); EPrint (MsgListError e)])
  \/ (exists status entries,
        status <> OK /\ result o = Val []
        /\ trace o = [EList (Val (status, entries)); EPrint MsgListFailed])
  \/ (exists entries e,
        comprehension mailbox_name entries = Exc e /\ result o = Val []
        /\ trace o = [EList (Val (OK, entries)); EPrint (MsgListError e)])
  \/ (exists entries names,
        comprehension mailbox_name entries = Val names /\ result o = Val names
        /\ trace o = [EList (Val (OK, entries))]).
Proof.
  cbv zeta. unfold list_mailboxes. sx.
  split_answer.
  2: { left. eauto. }
  destruct a as [status entries]. sx.
  destruct (is_OK status) eqn:Hs; sx.
  2: { right; left. exists status, entries. split; [| auto].
       intros ->. unfold is_OK in Hs. now rewrite bool_decide_eq_true_2 in Hs. }
  apply is_OK_true in Hs. subst status.
  destruct (comprehension mailbox_name entries) as [names | e] eqn:Hc; sx.
  - do 3 right. eauto.
  - do 2 right; left. eauto.
Qed.

(** ** The loop over the mailboxes *)

Lemma export_turn_run mail out mb st :
  bind (print (MsgProcessing mb)) (fun _ => download_emails mail mb out) st
  = let o := download_emails mail mb out st in
    Outcome (result o) (final o) (EPrint (MsgProcessing mb) :: trace o).
Proof. sx. now destruct (download_emails mail mb out st). Qed.

Lemma export_all_total mail out mbs st :
  result (export_all mail out mbs st) = Val tt.
Proof.
  apply for_each_total. intros mb st'. rewrite export_turn_run.
  apply download_emails_total.
Qed.

Lemma export_all_selected mail out mbs st :
  selected (trace (export_all mail out mbs st)) = mbs.
Proof.
  unfold export_all, selected.
  rewrite (for_each_flat_map _ (fun mb => [mb])).
  - clear. induction mbs; cbn; congruence.
  - intros mb st'. rewrite export_turn_run. apply download_emails_total.
  - intros mb st'. rewrite export_turn_run. cbn [trace flat_map app].
    apply download_emails_selected.
Qed.

Lemma export_all_events mail out mbs st :
  List.Forall (fun e => is_export_event e = true)
              (trace (export_all mail out mbs st)).
Proof.
  apply for_each_Forall. intros mb st' _. rewrite export_turn_run.
  cbn [trace]. constructor; [reflexivity |].
  destruct (download_emails_trace mail mb out st') as (r & tl & -> & Htl).
  constructor; [reflexivity |].
  eapply List.Forall_impl; [| exact Htl].
  intros e. destruct e; cbn; congruence.
Qed.

(** ** The orchestrator *)

(** The runs of [export]. *)
Lemma export_cases server port username password st :
  let o := export server port username password st in
  let root := output_root server username in
  (exists e, result o = Exc e /\ trace o = [EMakedirs root false])
  \/ (result o = Val tt /\
      exists trc,
        refused_trace server username password trc
        /\ trace o = EMakedirs root true :: EPrint (MsgSavedIn root)
                     :: trc ++ [EPrint MsgExiting])
  \/ (result o = Val tt /\
      exists p r m,
        trace o = session_prefix root server p username password
                  ++ [EList r; EPrint m; EPrint MsgNoMailboxes]
        /\ ((exists e, r = Exc e /\ m = MsgListError e)
            \/ (exists status entries,
                  status <> OK /\ r = Val (status, entries) /\ m = MsgListFailed)
            \/ (exists entries e,
                  comprehension mailbox_name entries = Exc e
                  /\ r = Val (OK, entries) /\ m = MsgListError e)))
  \/ (result o = Val tt /\
      exists p entries,
        comprehension mailbox_name entries = Val []
        /\ trace o = session_prefix root server p username password
                     ++ [EList (Val (OK, entries)); EPrint MsgNoMailboxes])
  \/ (result o = Val tt /\
      exists p mail entries names st5 ok m,
        names <> []
        /\ comprehension mailbox_name entries = Val names
        /\ trace o = session_prefix root server p username password
                     ++ EList (Val (OK, entries)) :: EPrint (MsgFound names)
                     :: trace (export_all mail root names st5)
                     ++ [ELogout ok; EPrint m]).
Proof.
  cbv zeta. unfold export. sx.
  split_answer.
  2: { left. eauto. }
  match goal with
  | |- context [connect_to_imap ?a ?b ?c ?d ?s] =>
      pose proof (connect_to_imap_cases a b c d s) as Hc; cbv zeta in Hc;
      destruct (connect_to_imap a b c d s) as [rc stc trc]
  end.
  sx.
  destruct Hc as [(m & -> & ->) | [(p & m & -> & ->) | [(p & m & -> & ->)
    | (p & c & -> & ->)]]]; sx.
  1: right; left; split; [reflexivity |]; exists [EPrint m];
     split; [unfold refused_trace; eauto 6 | reflexivity].
  1: right; left; split; [reflexivity |]; exists [EConnect server p false; EPrint m];
     split; [unfold refused_trace; eauto 6 | reflexivity].
  1: right; left; split; [reflexivity |];
     exists [EConnect server p true; ELogin username password false; EPrint m];
     split; [unfold refused_trace; eauto 6 | reflexivity].
  match goal with
  | |- context [list_mailboxes ?c ?s] =>
      pose proof (list_mailboxes_cases c s) as Hl; cbv zeta in Hl;
      destruct (list_mailboxes c s) as [rl stl trl]
  end.
  sx.
  destruct Hl as [(e & -> & ->) | [(status & entries & Hs & -> & ->)
    | [(entries & e & Hc & -> & ->) | (entries & names & Hc & -> & ->)]]]; sx.
  1-3: do 2 right; left; split; [reflexivity |]; eexists _, _, _;
       (split; [reflexivity |]); eauto 8.
  destruct names as [| name names]; sx.
  { do 3 right; left. split; [reflexivity |]. eauto. }
  do 4 right.
  match goal with
  | |- context [export_all ?c ?o ?l ?s] =>
      pose proof (export_all_total c o l s) as Ht;
      destruct (export_all c o l s) as [ra sta tra] eqn:Hrun
  end.
  sx. subst ra. sx.
  split_answer.
  - split; [reflexivity |].
    eexists p, c, entries, (name :: names), _, true, MsgLoggedOut.
    split; [discriminate |]. split; [exact Hc |].
    rewrite Hrun. sx. unfold session_prefix. cbn [app].
    rewrite <- ?app_assoc. reflexivity.
  - split; [reflexivity |].
    eexists p, c, entries, (name :: names), _, false, (MsgLogoutError e).
    split; [discriminate |]. split; [exact Hc |].
    rewrite Hrun. sx. unfold session_prefix. cbn [app].
    rewrite <- ?app_assoc. reflexivity.
Qed.

Lemma get_user_inputs_cases st :
  let o := @get_user_inputs E st in
  (exists e, result o = Exc e /\ interrupted_trace (trace o))
  \/ (exists ts tp tu tpw,
        result o = Val (strip ts, port_or_default (strip tp), strip tu, strip tpw)
        /\ trace o = inputs_trace ts tp tu tpw).
Proof.
  cbv zeta. unfold get_user_inputs, input, interrupted_trace. sx.
  split_answer; [| left; eauto 10].
  split_answer; [| left; eauto 10].
  split_answer; [| left; eauto 10].
  split_answer; [| left; eauto 10].
  right. eauto 10.
Qed.

(** The runs of [main]: the prompts, then [export] on the stripped answers. *)
Lemma main_cases st :
  let o := main E st in
  (exists e, result o = Exc e /\ interrupted_trace (trace o))
  \/ (exists ts tp tu tpw st4,
        let ox := export (strip ts) (port_or_default (strip tp)) (strip tu)
                         (strip tpw) st4 in
        result o = result ox
        /\ trace o = inputs_trace ts tp tu tpw ++ trace ox).
Proof.
  cbv zeta. unfold main, bind.
  pose proof (get_user_inputs_cases st) as Hi. cbv zeta in Hi.
  destruct (get_user_inputs st) as [ri sti tri]. sx.
  destruct Hi as [(e & -> & Ht) | (ts & tp & tu & tpw & -> & ->)].
  - sx. left. eauto.
  - sx. right. exists ts, tp, tu, tpw, sti. cbv zeta.
    destruct (export _ _ _ _ sti). sx. split; reflexivity.
Qed.

(** Where a call made for a mailbox stands in the trace of the loop over
    the mailboxes: inside the turn of one of them, after its announcement. *)
Lemma export_all_turn mail out mbs st tr1 ev tr2 :
  trace (export_all mail out mbs st) = tr1 ++ ev :: tr2 ->
  is_mailbox_call ev = true ->
  exists pre mb a b post st',
    In mb mbs
    /\ tr1 = pre ++ EPrint (MsgProcessing mb) :: a
    /\ trace (download_emails mail mb out st') = a ++ ev :: b
    /\ tr2 = b ++ post.
Proof.
  intros H He. unfold export_all in H.
  destruct (for_each_split _ _ _ _ _ _ H)
    as (mb & st' & pre & a0 & b & post & Hmb & Hb & -> & ->).
  cbv beta in Hb. rewrite export_turn_run in Hb. cbv zeta in Hb. cbn [trace] in Hb.
  destruct a0 as [| e0 a]; cbn [app] in Hb; injection Hb as <- Hb.
  - discriminate He.
  - exists pre, mb, a, b, post, st'. auto.
Qed.

(** The same in the trace of [export], where the mailboxes are the names
    of the listing, none of them empty. *)
Lemma export_turn server port username password st tr1 ev tr2 :
  trace (export server port username password st) = tr1 ++ ev :: tr2 ->
  is_mailbox_call ev = true ->
  exists mail pre mb a b post st',
    mb <> []
    /\ tr1 = pre ++ EPrint (MsgProcessing mb) :: a
    /\ trace (download_emails mail mb (output_root server username) st')
       = a ++ ev :: b
    /\ tr2 = b ++ post.
Proof.
  intros H He.
  assert (Hin : In ev (trace (export server port username password st)))
    by (rewrite H; apply in_elt).
  destruct (export_cases server port username password st)
    as [(e1 & Hr & Ht) | [(Hr & trc & Hc & Ht) | [(Hr & q & r & m & Ht & Hl)
    | [(Hr & q & entries' & Hc & Ht) | (Hr & q & mail & entries' & names & st5
                                       & ok' & m & _ & Hc & Ht)]]]];
    rewrite Ht in Hin, H; clear Ht.
  1: exfalso; in_split Hin; subst ev; discriminate He.
  1: exfalso; destruct Hc as [(m & ->) | [(q & m & ->) | (q & m & ->)]];
     in_split Hin; subst ev; discriminate He.
  1-2: exfalso; in_split Hin; subst ev; discriminate He.
  clear Hin. unfold session_prefix in H. cbn [app] in H.
  match type of H with
  | ?x1 :: ?x2 :: ?x3 :: ?x4 :: ?x5 :: ?x6 :: ?x7 :: ?l = _ =>
      change (x1 :: x2 :: x3 :: x4 :: x5 :: x6 :: x7 :: l)
        with ([x1; x2; x3; x4; x5; x6; x7] ++ l) in H
  end.
  apply (split_around is_mailbox_call) in H; [| reflexivity | exact He].
  destruct H as (t & -> & H).
  apply (split_before is_mailbox_call) in H; [| reflexivity | exact He].
  destruct H as (t2 & H & ->).
  destruct (export_all_turn _ _ _ _ _ _ _ H He)
    as (pre & mb & a & b & post & st' & Hmb & -> & Hd & ->).
  eexists mail, _, mb, a, b, _, st'.
  split; [| split; [| split; [exact Hd |]]].
  - apply comprehension_names_nonempty in Hc.
    rewrite List.Forall_forall in Hc. now apply Hc.
  - rewrite app_assoc. reflexivity.
  - rewrite <- app_assoc. reflexivity.
Qed.

(** The same in the trace of [main]. *)
Lemma main_turn st tr1 ev tr2 :
  trace (main E st) = tr1 ++ ev :: tr2 ->
  is_mailbox_call ev = true ->
  exists mail out pre mb a b post st',
    tr1 = pre ++ EPrint (MsgProcessing mb) :: a
    /\ trace (download_emails mail mb out st') = a ++ ev :: b
    /\ tr2 = b ++ post.
Proof.
  intros H He.
  destruct (main_cases st) as [(e & _ & Ht) | (ts & tp & tu & tpw & st4 & _ & Ht)].
  - exfalso.
    assert (Hin : In ev (trace (main E st))) by (rewrite H; apply in_elt).
    destruct Ht as [(e1 & Ht) | [(s1 & e1 & Ht) | [(s1 & p1 & e1 & Ht)
      | (s1 & p1 & u1 & e1 & Ht)]]]; rewrite Ht in Hin;
      in_split Hin; subst ev; discriminate He.
  - cbv zeta in Ht. rewrite Ht in H.
    apply (split_around is_mailbox_call) in H; [| reflexivity | exact He].
    destruct H as (t & -> & H).
    destruct (export_turn _ _ _ _ _ _ _ _ H He)
      as (mail & pre & mb & a & b & post & st' & _ & -> & Hd & ->).
    eexists mail, _, _, mb, a, b, post, st'.
    split; [| split; [exact Hd | reflexivity]].
    rewrite app_assoc. reflexivity.
Qed.

Lemma export_event_in mail out mbs st e :
  In e (trace (export_all mail out mbs st)) -> is_export_event e = true.
Proof.
  intros Hin. pose proof (export_all_events mail out mbs st) as Hall.
  rewrite List.Forall_forall in Hall. now apply Hall.
Qed.

Lemma export_events_no_ops_but_own mail out mbs st :
  logouts (trace (export_all mail out mbs st)) = 0%nat.
Proof.
  unfold logouts.
  pose proof (export_all_events mail out mbs st) as Hall.
  induction Hall as [| e tl He _ IH]; [reflexivity |].
  cbn [List.filter]. destruct e; cbn in He; try discriminate He; exact IH.
Qed.

Lemma mailbox_ops_app tr1 tr2 :
  mailbox_ops (tr1 ++ tr2) = mailbox_ops tr1 ++ mailbox_ops tr2.
Proof. apply List.filter_app. Qed.

(** Without a session [export] makes no mailbox operation; after a failed
    connect or login it reports and stops. *)
Lemma export_without_session server port username password st :
  let o := export server port username password st in
  (~ session_established (trace o) -> mailbox_ops (trace o) = [])
  /\ ((exists s p, In (EConnect s p false) (trace o))
      \/ (exists u pw, In (ELogin u pw false) (trace o)) ->
      mailbox_ops (trace o) = [] /\ result o = Val tt
      /\ exists tr0 m, trace o = tr0 ++ [EPrint m; EPrint MsgExiting]).
Proof.
  cbv zeta.
  destruct (export_cases server port username password st)
    as [(e & Hr & Ht) | [(Hr & trc & Hc & Ht) | [(Hr & p & r & m & Ht & _)
    | [(Hr & p & entries & _ & Ht) | (Hr & p & mail & entries & names & st5
                                       & ok & m & _ & _ & Ht)]]]];
    rewrite Ht, ?Hr; clear Ht.
  - split; [reflexivity |].
    intros [(s & p & H) | (u & pw & H)]; in_cases H.
  - assert (Hops : mailbox_ops
                     (EMakedirs (output_root server username) true
                      :: EPrint (MsgSavedIn (output_root server username))
                      :: trc ++ [EPrint MsgExiting]) = []).
    { destruct Hc as [(m & ->) | [(p & m & ->) | (p & m & ->)]]; reflexivity. }
    split; [auto |]. intros _. split; [exact Hops |]. split; [reflexivity |].
    destruct Hc as [(m & ->) | [(p & m & ->) | (p & m & ->)]].
    + exists [EMakedirs (output_root server username) true;
              EPrint (MsgSavedIn (output_root server username))], m.
      reflexivity.
    + exists [EMakedirs (output_root server username) true;
              EPrint (MsgSavedIn (output_root server username));
              EConnect server p false], m.
      reflexivity.
    + exists [EMakedirs (output_root server username) true;
              EPrint (MsgSavedIn (output_root server username));
              EConnect server p true; ELogin username password false], m.
      reflexivity.
  - split.
    + intros Hno. exfalso. apply Hno. exists username, password.
      unfold session_prefix. cbn [In app]. tauto.
    + intros [(s & q & H) | (u & pw & H)]; in_trace H export_event_in.
  - split.
    + intros Hno. exfalso. apply Hno. exists username, password.
      unfold session_prefix. cbn [In app]. tauto.
    + intros [(s & q & H) | (u & pw & H)]; in_trace H export_event_in.
  - split.
    + intros Hno. exfalso. apply Hno. exists username, password.
      unfold session_prefix. cbn [In app]. tauto.
    + intros [(s & q & H) | (u & pw & H)];
        in_trace H (export_event_in mail (output_root server username) names st5).
Qed.

End Orchestrator.

(** C5: when connecting or authenticating fails, [main] reports, stops
    normally and makes no mailbox operation (list, select, search, fetch);
    more generally it makes none unless a login has returned. *)
Theorem no_session_no_mailbox_operation (E : Env) (st : state E) :
  let o := main E st in
  (~ session_established (trace o) -> mailbox_ops (trace o) = [])
  /\ ((exists server p, In (EConnect server p false) (trace o))
      \/ (exists username password, In (ELogin username password false) (trace o)) ->
      mailbox_ops (trace o) = [] /\ result o = Val tt
      /\ exists tr0 m, trace o = tr0 ++ [EPrint m; EPrint MsgExiting]).
Proof.
  cbv zeta.
  destruct (main_cases st) as [(e & Hr & Ht) | (ts & tp & tu & tpw & st4 & Hr & Ht)].
  - assert (Hops : mailbox_ops (trace (main E st)) = []).
    { destruct Ht as [(e1 & ->) | [(s & e1 & ->) | [(s & p & e1 & ->)
        | (s & p & u & e1 & ->)]]]; reflexivity. }
    split; [auto |].
    intros [(s & p & H) | (u & pw & H)];
      destruct Ht as [(e1 & Ht) | [(s1 & e1 & Ht) | [(s1 & p1 & e1 & Ht)
        | (s1 & p1 & u1 & e1 & Ht)]]]; rewrite Ht in H; in_cases H.
  - cbv zeta in Hr, Ht. rewrite Ht, Hr, mailbox_ops_app.
    change (mailbox_ops (inputs_trace ts tp tu tpw)) with (@nil event).
    cbn [app].
    destruct (export_without_session (strip ts) (port_or_default (strip tp))
                (strip tu) (strip tpw) st4) as [H1 H2].
    split.
    + intros Hno. apply H1. intros (u & pw & Hin). apply Hno.
      exists u, pw. apply in_app_iff. now right.
    + intros H.
      destruct H2 as (Hops & Hres & tr0 & m & Htr).
      { destruct H as [(s & p & H) | (u & pw & H)];
          apply in_app_iff in H; destruct H as [H | H];
          try (in_cases H; fail); eauto. }
      split; [exact Hops |]. split; [exact Hres |].
      exists (inputs_trace ts tp tu tpw ++ tr0), m.
      rewrite Htr. now rewrite app_assoc.
Qed.

Lemma no_session_no_mailbox_operation_witness :
  mailbox_ops (trace (main (scripted refused) (start refused))) = []
  /\ result (main (scripted refused) (start refused)) = Val tt.
Proof.
  destruct (no_session_no_mailbox_operation (scripted refused) (start refused))
    as [H1 H2].
  split.
  - apply H1. intros (u & pw & H). vm_compute in H.
    repeat (destruct H as [H | H]; [discriminate H |]). exact H.
  - apply H2. left. exists (s_ "mail.example.com"), 993%Z. vm_compute. tauto.
Defined.

(** C9: when the list command answers OK and one entry holds no token,
    [list_mailboxes] returns the empty list, whatever the other entries are,
    and [main] stops as it does for an account without mailboxes. *)
Theorem blank_entry_empties_listing (E : Env) (entries : list list_entry)
    (b : bytes) :
  In (LBytes b) entries -> split b = [] ->
  (forall (mail : conn E) (st : state E),
     In (EList (Val (OK, entries))) (trace (list_mailboxes mail st)) ->
     result (list_mailboxes mail st) = Val [])
  /\ (forall st : state E,
        In (EList (Val (OK, entries))) (trace (main E st)) ->
        result (main E st) = Val tt
        /\ selected (trace (main E st)) = []
        /\ exists tr0 e,
             trace (main E st)
             = tr0 ++ [EList (Val (OK, entries)); EPrint (MsgListError e);
                       EPrint MsgNoMailboxes]).
Proof.
  intros Hin Hb.
  destruct (comprehension_raises entries b Hin Hb) as [e0 He0].
  split.
  - intros mail st H.
    destruct (list_mailboxes_cases mail st)
      as [(e & Hr & Ht) | [(status & entries' & Hs & Hr & Ht)
      | [(entries' & e & Hc & Hr & Ht) | (entries' & names & Hc & Hr & Ht)]]];
      try exact Hr.
    rewrite Ht in H. in_cases H. congruence.
  - intros st H.
    destruct (main_cases st) as [(e & Hr & Ht) | (ts & tp & tu & tpw & st4 & Hr & Ht)].
    { destruct Ht as [(e1 & Ht) | [(s1 & e1 & Ht) | [(s1 & p1 & e1 & Ht)
        | (s1 & p1 & u1 & e1 & Ht)]]]; rewrite Ht in H; in_cases H. }
    cbv zeta in Hr, Ht. rewrite Ht in H |- *. rewrite Hr. clear Hr Ht.
    destruct (export_cases (strip ts) (port_or_default (strip tp)) (strip tu)
                (strip tpw) st4)
      as [(e & Hr & Ht) | [(Hr & trc & Hc & Ht) | [(Hr & p & r & m & Ht & Hl)
      | [(Hr & p & entries' & Hc & Ht) | (Hr & p & mail & entries' & names & st5
                                         & ok & m & _ & Hc & Ht)]]]];
      rewrite Ht in H |- *; rewrite ?Hr; clear Ht.
    + in_cases H.
    + destruct Hc as [(m & ->) | [(p & m & ->) | (p & m & ->)]]; in_cases H.
    + in_cases H.
      destruct Hl as [(e & He & _) | [(status & en & Hs & He & _)
        | (en & e & Hc & He & ->)]]; try discriminate He.
      { injection He as <- _. now contradiction Hs. }
      injection He as <-.
      split; [reflexivity |]. split; [reflexivity |].
      exists (inputs_trace ts tp tu tpw
              ++ session_prefix (output_root (strip ts) (strip tu)) (strip ts) p
                   (strip tu) (strip tpw)), e.
      now rewrite <- app_assoc.
    + in_cases H. congruence.
    + in_trace H (@export_event_in E mail (output_root (strip ts) (strip tu)) names st5).
      congruence.
Qed.

Lemma blank_entry_empties_listing_witness :
  result (main (scripted blank_entry) (start blank_entry)) = Val tt
  /\ selected (trace (main (scripted blank_entry) (start blank_entry))) = [].
Proof.
  destruct (blank_entry_empties_listing (scripted blank_entry)
              [LBytes inbox_line; LBytes []] [])
    as [_ H].
  - right; left; reflexivity.
  - reflexivity.
  - destruct (H (start blank_entry)) as (H1 & H2 & _).
    + vm_compute. tauto.
    + split; assumption.
Defined.

(** ** The prompt *)

Lemma lstrip_length s : (length (lstrip s) <= length s)%nat.
Proof.
  induction s as [| c s IH]; cbn [lstrip]; [lia |].
  destruct (isspace c); cbn [length]; lia.
Qed.

Lemma rstrip_length s : (length (rstrip s) <= length s)%nat.
Proof.
  unfold rstrip. rewrite length_rev.
  etransitivity; [apply lstrip_length |]. now rewrite length_rev.
Qed.

Lemma rstrip_last r c :
  isspace c = true -> (length (rstrip (r ++ [c])) <= length r)%nat.
Proof.
  intros Hc. unfold rstrip. rewrite rev_app_distr. cbn [rev app lstrip].
  rewrite Hc, length_rev.
  etransitivity; [apply lstrip_length |]. now rewrite length_rev.
Qed.

Lemma lstrip_last r c :
  lstrip (r ++ [c]) = []
  \/ exists r', lstrip (r ++ [c]) = r' ++ [c] /\ (length r' <= length r)%nat.
Proof.
  induction r as [| a r IH]; cbn [app lstrip].
  - destruct (isspace c); [now left |]. right. exists []. split; [reflexivity | lia].
  - destruct (isspace a).
    + destruct IH as [IH | (r' & IH & Hl)]; [now left |].
      right. exists r'. split; [exact IH | cbn [length]; lia].
    + right. exists (a :: r). split; [reflexivity | lia].
Qed.

(** Stripping a padded string shortens it. *)
Lemma strip_padded s : padded s -> strip s <> s.
Proof.
  intros Hp Heq.
  assert (Hlt : (length (strip s) < length s)%nat); [| rewrite Heq in Hlt; lia].
  unfold strip.
  destruct Hp as [(c & r & -> & Hc) | (c & r & -> & Hc)].
  - cbn [lstrip]. rewrite Hc. cbn [length].
    pose proof (rstrip_length (lstrip r)). pose proof (lstrip_length r). lia.
  - rewrite length_app. cbn [length].
    destruct (lstrip_last r c) as [-> | (r' & -> & Hl)].
    + cbn. lia.
    + pose proof (rstrip_last r' c Hc). lia.
Qed.

Section Prompt.

Context {E : Env}.
Implicit Types (st : state E).

Lemma export_event_facts server port username password st e :
  In e (trace (export server port username password st)) ->
  export_fact server username password e.
Proof.
  intros H.
  destruct (export_cases server port username password st)
    as [(e1 & Hr & Ht) | [(Hr & trc & Hc & Ht) | [(Hr & p & r & m & Ht & Hl)
    | [(Hr & p & entries' & Hc & Ht) | (Hr & p & mail & entries' & names & st5
                                       & ok & m & _ & Hc & Ht)]]]];
    rewrite Ht in H; clear Ht.
  2: destruct Hc as [(m & ->) | [(p & m & ->) | (p & m & ->)]].
  all: unfold session_prefix in H;
    repeat first [rewrite in_app_iff in H | progress cbn [In app] in H];
    repeat match type of H with
           | _ \/ _ => destruct H as [H | H]
           | False => destruct H
           end;
    try (subst e; cbn; auto; fail).
  apply export_event_in in H. destruct e; cbn in *; try discriminate; auto.
Qed.

End Prompt.

(** C10: every answer to a prompt is stripped of leading and trailing
    whitespace before use, the password included: the password given to
    [login] is the stripped one, which differs from what was typed whenever
    that began or ended with a whitespace character. *)
Theorem inputs_are_stripped (E : Env) (st : state E) :
  (forall server port username password,
     result (@get_user_inputs E st) = Val (server, port, username, password) ->
     exists ts tp tu tpw,
       trace (@get_user_inputs E st) = inputs_trace ts tp tu tpw
       /\ server = strip ts /\ port = port_or_default (strip tp)
       /\ username = strip tu /\ password = strip tpw)
  /\ (forall typed username password ok,
        In (EInput PromptPassword (Val typed)) (trace (main E st)) ->
        In (ELogin username password ok) (trace (main E st)) ->
        password = strip typed /\ (padded typed -> password <> typed)).
Proof.
  split.
  - intros server port username password Hres.
    destruct (get_user_inputs_cases st)
      as [(e & Hr & _) | (ts & tp & tu & tpw & Hr & Ht)];
      rewrite Hr in Hres; [discriminate Hres |].
    injection Hres as <- <- <- <-. exists ts, tp, tu, tpw. auto.
  - intros typed username password ok Hi Hl.
    assert (Hs : password = strip typed);
      [| split; [exact Hs | intros Hp; rewrite Hs; now apply strip_padded]].
    destruct (main_cases st) as [(e & Hr & Ht) | (ts & tp & tu & tpw & st4 & Hr & Ht)].
    { destruct Ht as [(e1 & Ht) | [(s1 & e1 & Ht) | [(s1 & p1 & e1 & Ht)
        | (s1 & p1 & u1 & e1 & Ht)]]]; rewrite Ht in Hl; in_cases Hl. }
    cbv zeta in Ht. rewrite Ht in Hi, Hl. clear Ht Hr.
    apply in_app_iff in Hi. apply in_app_iff in Hl.
    destruct Hl as [Hl | Hl]; [in_cases Hl |].
    apply export_event_facts in Hl. destruct Hl as [_ ->].
    destruct Hi as [Hi | Hi].
    + in_cases Hi. reflexivity.
    + apply export_event_facts in Hi. destruct Hi.
Qed.

Lemma inputs_are_stripped_witness :
  (exists ts tp tu tpw,
     trace (@get_user_inputs (scripted one_message) (start one_message))
     = inputs_trace ts tp tu tpw
     /\ s_ "mail.example.com" = strip ts /\ s_ "993" = port_or_default (strip tp)
     /\ s_ "a.b@example.com" = strip tu /\ s_ "secret" = strip tpw)
  /\ s_ "secret" = strip (s_ " secret ")
  /\ s_ "secret" <> s_ " secret ".
Proof.
  destruct (inputs_are_stripped (scripted one_message) (start one_message))
    as [H1 H2].
  split.
  - apply H1. reflexivity.
  - destruct (H2 (s_ " secret ") (s_ "a.b@example.com") (s_ "secret") true)
      as [Hs Hd].
    + vm_compute. tauto.
    + vm_compute. tauto.
    + split; [exact Hs |]. apply Hd. left.
      exists 32, (s_ "secret "). split; reflexivity.
Defined.

(** ** Logout *)

Section Logout.

Context {E : Env}.
Implicit Types (st : state E).

Lemma logouts_app tr1 tr2 : logouts (tr1 ++ tr2) = (logouts tr1 + logouts tr2)%nat.
Proof. unfold logouts. now rewrite List.filter_app, length_app. Qed.

Lemma selected_app tr1 tr2 : selected (tr1 ++ tr2) = selected tr1 ++ selected tr2.
Proof. apply flat_map_app. Qed.

(** Once [main] has selected a mailbox, it logs out exactly once, whatever
    happened to the mailboxes and their messages. *)
Lemma logout_once_after_export st mb r :
  In (ESelect mb r) (trace (main E st)) ->
  logouts (trace (main E st)) = 1%nat /\ result (main E st) = Val tt.
Proof.
  intros H.
  destruct (main_cases st) as [(e & Hr & Ht) | (ts & tp & tu & tpw & st4 & Hr & Ht)].
  { destruct Ht as [(e1 & Ht) | [(s1 & e1 & Ht) | [(s1 & p1 & e1 & Ht)
      | (s1 & p1 & u1 & e1 & Ht)]]]; rewrite Ht in H; in_cases H. }
  cbv zeta in Hr, Ht. rewrite Ht in H |- *. rewrite Hr. clear Hr Ht.
  destruct (export_cases (strip ts) (port_or_default (strip tp)) (strip tu)
              (strip tpw) st4)
    as [(e & Hr & Ht) | [(Hr & trc & Hc & Ht) | [(Hr & p & r' & m & Ht & Hl)
    | [(Hr & p & entries' & Hc & Ht) | (Hr & p & mail & entries' & names' & st5
                                       & ok & m & _ & Hc & Ht)]]]];
    rewrite Ht in H |- *; rewrite ?Hr; clear Ht.
  - in_cases H.
  - destruct Hc as [(m & ->) | [(p & m & ->) | (p & m & ->)]]; in_cases H.
  - in_cases H.
  - in_cases H.
  - split; [| reflexivity].
    rewrite !logouts_app. cbn [app].
    change (EList (Val (OK, entries')) :: EPrint (MsgFound names')
            :: trace (export_all mail (output_root (strip ts) (strip tu)) names' st5)
            ++ [ELogout ok; EPrint m])
      with ([EList (Val (OK, entries')); EPrint (MsgFound names')]
            ++ trace (export_all mail (output_root (strip ts) (strip tu)) names' st5)
            ++ [ELogout ok; EPrint m]).
    rewrite !logouts_app, export_events_no_ops_but_own. reflexivity.
Qed.

(** When [main] has a session and selects no mailbox, which is what happens
    when the list of mailboxes comes back empty, it returns without logging
    out. *)
Lemma no_logout_without_mailboxes st :
  session_established (trace (main E st)) ->
  selected (trace (main E st)) = [] ->
  logouts (trace (main E st)) = 0%nat /\ result (main E st) = Val tt.
Proof.
  intros (u & pw & H) Hsel.
  destruct (main_cases st) as [(e & Hr & Ht) | (ts & tp & tu & tpw & st4 & Hr & Ht)].
  { destruct Ht as [(e1 & Ht) | [(s1 & e1 & Ht) | [(s1 & p1 & e1 & Ht)
      | (s1 & p1 & u1 & e1 & Ht)]]]; rewrite Ht in H; in_cases H. }
  cbv zeta in Hr, Ht. rewrite Ht in H, Hsel |- *. rewrite Hr. clear Hr Ht.
  destruct (export_cases (strip ts) (port_or_default (strip tp)) (strip tu)
              (strip tpw) st4)
    as [(e & Hr & Ht) | [(Hr & trc & Hc & Ht) | [(Hr & p & r' & m & Ht & Hl)
    | [(Hr & p & entries' & Hc & Ht) | (Hr & p & mail & entries' & names' & st5
                                       & ok & m & Hn & Hc & Ht)]]]];
    rewrite Ht in H, Hsel |- *; rewrite ?Hr; clear Ht.
  - in_cases H.
  - destruct Hc as [(m & ->) | [(p & m & ->) | (p & m & ->)]]; in_cases H.
  - split; reflexivity.
  - split; reflexivity.
  - exfalso. apply Hn.
    rewrite !selected_app in Hsel. cbn [app] in Hsel.
    change (EList (Val (OK, entries')) :: EPrint (MsgFound names')
            :: trace (export_all mail (output_root (strip ts) (strip tu)) names' st5)
            ++ [ELogout ok; EPrint m])
      with ([EList (Val (OK, entries')); EPrint (MsgFound names')]
            ++ trace (export_all mail (output_root (strip ts) (strip tu)) names' st5)
            ++ [ELogout ok; EPrint m]) in Hsel.
    rewrite !selected_app, export_all_selected in Hsel.
    cbn in Hsel. now apply app_eq_nil in Hsel.
Qed.

End Logout.

(** C3 fails on the code: with a session established and an empty list of
    mailboxes, [main] returns normally and never calls logout. *)
Theorem empty_listing_skips_logout :
  let o := main (scripted no_mailboxes) (start no_mailboxes) in
  session_established (trace o)
  /\ result o = Val tt
  /\ List.last (trace o) (EPrint MsgExiting) = EPrint MsgNoMailboxes
  /\ logouts (trace o) = 0%nat.
Proof.
  cbv zeta. split; [| split; [| split]]; try (vm_compute; reflexivity).
  exists (s_ "a.b@example.com"), (s_ "secret"). vm_compute. tauto.
Qed.

(** ** Failures inside the export *)

Section Failures.

Context {E : Env}.
Implicit Types (st : state E) (mail : conn E).

Lemma raised_access_reported mail mb out st e :
  In (ESelect mb (Exc e)) (trace (download_emails mail mb out st))
  \/ In (ESearch (Exc e)) (trace (download_emails mail mb out st)) ->
  In (EPrint (MsgErrorAccessing mb e)) (trace (download_emails mail mb out st)).
Proof.
  destruct (download_emails_cases mail mb out st) as [_ Hd].
  destruct Hd as [(e1 & Ht) | [(s & _ & Ht) | [(e1 & Ht) | [(s & m' & _ & Ht)
    | [Ht | [(m0 & rest & _ & Ht) | [(data & rest & e1 & _ & Ht)
    | (data & rest & st3 & _ & Ht & _)]]]]]]]; rewrite Ht; clear Ht;
    intros [H | H];
    in_trace H (@process_all_event_in E mail mb);
    cbn [In]; tauto.
Qed.

Lemma raised_fetch_reported mail mb dir num st e :
  In (EFetch num (Exc e)) (trace (process_message mail mb dir num st)) ->
  In (EPrint (MsgErrorProcessing num mb e)) (trace (process_message mail mb dir num st)).
Proof.
  rewrite process_message_run. cbv zeta.
  destruct (imap_fetch E mail num (world st)) as [[sd | e1] w]; cbn [fst snd].
  - destruct (is_OK (fst sd)); cbn [trace]; intros H.
    + destruct H as [H | H]; [discriminate H |].
      apply in_app_iff in H. destruct H as [H | H].
      * apply save_all_event_in in H. destruct H.
      * destruct (result _); in_cases H.
    + in_cases H.
  - cbn [trace]. intros H. in_cases H. cbn [In]. tauto.
Qed.

Lemma failed_write_reported mail mb dir num st :
  existsb is_failed_write (trace (process_message mail mb dir num st)) = true ->
  exists e,
    In (EPrint (MsgErrorProcessing num mb e))
       (trace (process_message mail mb dir num st)).
Proof.
  rewrite process_message_run. cbv zeta.
  destruct (imap_fetch E mail num (world st)) as [[sd | e1] w]; cbn [fst snd].
  2: discriminate.
  destruct (is_OK (fst sd)); cbn [trace]; [| discriminate].
  cbn [existsb is_failed_write orb]. rewrite existsb_app. intros H.
  apply orb_true_iff in H. destruct H as [H | H].
  - destruct (save_all_failed_write mb dir num (snd sd) _ H) as [e ->].
    exists e. right. apply in_app_iff. right. now left.
  - destruct (result _); discriminate H.
Qed.

(** After a search that answered with identifiers and a directory that
    could be made, every identifier is fetched. *)
Lemma every_identifier_fetched mail mb out st data rest p :
  In (ESearch (Val (OK, Some data :: rest))) (trace (download_emails mail mb out st)) ->
  In (EMakedirs p true) (trace (download_emails mail mb out st)) ->
  fetched (trace (download_emails mail mb out st)) = split data.
Proof.
  destruct (download_emails_cases mail mb out st) as [_ Hd].
  destruct Hd as [(e1 & Ht) | [(s & _ & Ht) | [(e1 & Ht) | [(s & m' & _ & Ht)
    | [Ht | [(m0 & rest' & _ & Ht) | [(data' & rest' & e1 & _ & Ht)
    | (data' & rest' & st3 & _ & Ht & _)]]]]]]]; rewrite Ht; clear Ht;
    intros Hs Hm.
  1-7: in_cases Hm.
  in_trace Hs (@process_all_event_in E mail mb).
  unfold fetched. cbn [flat_map app].
  apply process_all_fetched.
Qed.

(** ** Where the reports stand *)

Lemma selected_after pre mb r tl :
  List.Forall (fun e => is_mailbox_event e = true) tl ->
  selected (pre ++ ESelect mb r :: tl) = selected pre ++ [mb].
Proof.
  intros Htl. rewrite selected_app. f_equal.
  unfold selected. cbn [flat_map]. fold (selected tl).
  now rewrite (mailbox_events_not_selected tl Htl).
Qed.

Lemma fetched_after pre num r tl :
  List.Forall (fun e => is_local e = true) tl ->
  fetched (pre ++ EFetch num r :: tl) = fetched pre ++ [num].
Proof.
  intros Htl. rewrite fetched_app. f_equal.
  unfold fetched. cbn [flat_map]. fold (fetched tl).
  now rewrite (local_not_fetched tl Htl).
Qed.

Lemma failed_write_is_call ev : is_failed_write ev = true -> is_message_call ev = true.
Proof. destruct ev; try discriminate; reflexivity. Qed.

(** Before a call made for a message, the exporter of the mailbox has
    selected it, with the answer OK, and has selected nothing else. *)
Lemma download_emails_before mail mb out st tr1 ev tr2 :
  trace (download_emails mail mb out st) = tr1 ++ ev :: tr2 ->
  is_message_call ev = true ->
  exists tl, tr1 = ESelect mb (Val OK) :: tl
             /\ List.Forall (fun e => is_mailbox_event e = true) tl.
Proof.
  intros H He.
  destruct (download_emails_at mail mb out st _ _ _ H He)
    as (tr0 & a & b & post & num & st' & -> & Htr0 & Hpm & _).
  eexists. split; [reflexivity |]. apply Forall_app. split; [exact Htr0 |].
  pose proof (process_message_events mail mb (join out (sanitize_filename mb))
                num st') as Hall.
  rewrite Hpm in Hall. apply Forall_app in Hall. destruct Hall as [Ha _].
  eapply List.Forall_impl; [| exact Ha]. apply message_event_mailbox_event.
Qed.

(** In a run of [download_emails], an exception of select or search is
    followed by its report and nothing else; an exception of fetch, and a
    failed open or write, by the report that names the message it was made
    for. *)
Lemma download_emails_reports mail mb out st tr1 ev tr2 :
  trace (download_emails mail mb out st) = tr1 ++ ev :: tr2 ->
  (forall mb' e, ev = ESelect mb' (Exc e) ->
     mb' = mb /\ tr2 = [EPrint (MsgErrorAccessing mb e)])
  /\ (forall e, ev = ESearch (Exc e) ->
        tr1 = [ESelect mb (Val OK)] /\ tr2 = [EPrint (MsgErrorAccessing mb e)])
  /\ (forall num e, ev = EFetch num (Exc e) ->
        exists rest, tr2 = EPrint (MsgErrorProcessing num mb e) :: rest)
  /\ (is_failed_write ev = true ->
        exists fs num e rest,
          fetched tr1 = fs ++ [num]
          /\ tr2 = EPrint (MsgErrorProcessing num mb e) :: rest).
Proof.
  intros H.
  destruct (download_emails_access_raised mail mb out st _ _ _ H) as [Hsel Hsrch].
  split; [intros mb' e Hev; now destruct (Hsel mb' e Hev) as (_ & ? & ?) |].
  split; [exact Hsrch |]. split.
  - intros num e ->.
    destruct (download_emails_at mail mb out st _ _ _ H eq_refl)
      as (tr0 & a & b & post & num' & st' & _ & _ & Hpm & ->).
    apply process_message_fetch_raised in Hpm. destruct Hpm as (_ & -> & ->).
    eexists. reflexivity.
  - intros He. pose proof (failed_write_is_call ev He) as Hc.
    destruct (download_emails_at mail mb out st _ _ _ H Hc)
      as (tr0 & a & b & post & num & st' & -> & _ & Hpm & ->).
    destruct (process_message_at mail mb _ num st' _ _ _ Hpm Hc)
      as [(_ & r & ->) | (_ & r & a' & -> & Ha')]; [discriminate He |].
    destruct (process_message_failure_last mail mb _ num st' _ _ _ Hpm He)
      as [x ->].
    exists (fetched (ESelect mb (Val OK) :: tr0)), num, x, post.
    split; [| reflexivity].
    change (ESelect mb (Val OK) :: tr0 ++ EFetch num r :: a')
      with ((ESelect mb (Val OK) :: tr0) ++ EFetch num r :: a').
    now apply fetched_after.
Qed.

(** The same in a run of [main], where the report names the mailbox
    selected last. *)
Lemma main_reports st tr1 ev tr2 :
  trace (main E st) = tr1 ++ ev :: tr2 ->
  (forall mb e, ev = ESelect mb (Exc e) ->
     exists rest, tr2 = EPrint (MsgErrorAccessing mb e) :: rest)
  /\ (forall e, ev = ESearch (Exc e) ->
        exists ss mb rest,
          selected tr1 = ss ++ [mb]
          /\ tr2 = EPrint (MsgErrorAccessing mb e) :: rest)
  /\ (forall num e, ev = EFetch num (Exc e) ->
        exists ss mb rest,
          selected tr1 = ss ++ [mb]
          /\ tr2 = EPrint (MsgErrorProcessing num mb e) :: rest)
  /\ (is_failed_write ev = true ->
        exists ss mb fs num e rest,
          selected tr1 = ss ++ [mb] /\ fetched tr1 = fs ++ [num]
          /\ tr2 = EPrint (MsgErrorProcessing num mb e) :: rest).
Proof.
  intros H.
  assert (Hcut : forall pre m a,
            pre ++ EPrint m :: a = (pre ++ [EPrint m]) ++ a).
  { intros. now rewrite <- app_assoc. }
  split; [| split; [| split]].
  - intros mb e ->.
    destruct (main_turn st _ _ _ H eq_refl)
      as (mail & out & pre & mb0 & a & b & post & st' & _ & Hd & ->).
    destruct (download_emails_reports mail mb0 out st' _ _ _ Hd) as (H1 & _).
    destruct (H1 mb e eq_refl) as [-> ->]. eexists. reflexivity.
  - intros e ->.
    destruct (main_turn st _ _ _ H eq_refl)
      as (mail & out & pre & mb0 & a & b & post & st' & -> & Hd & ->).
    destruct (download_emails_reports mail mb0 out st' _ _ _ Hd) as (_ & H2 & _).
    destruct (H2 e eq_refl) as [-> ->].
    eexists _, mb0, post. split; [| reflexivity].
    rewrite Hcut. apply selected_after. constructor.
  - intros num e ->.
    destruct (main_turn st _ _ _ H eq_refl)
      as (mail & out & pre & mb0 & a & b & post & st' & -> & Hd & ->).
    destruct (download_emails_before mail mb0 out st' _ _ _ Hd eq_refl)
      as (tl & -> & Htl).
    destruct (download_emails_reports mail mb0 out st' _ _ _ Hd) as (_ & _ & H3 & _).
    destruct (H3 num e eq_refl) as [rest ->].
    eexists _, mb0, _. split; [| reflexivity].
    rewrite Hcut. now apply selected_after.
  - intros He. pose proof (failed_write_is_call ev He) as Hc.
    assert (Hm : is_mailbox_call ev = true).
    { destruct ev; try discriminate Hc; reflexivity. }
    destruct (main_turn st _ _ _ H Hm)
      as (mail & out & pre & mb0 & a & b & post & st' & -> & Hd & ->).
    destruct (download_emails_reports mail mb0 out st' _ _ _ Hd) as (_ & _ & _ & H4).
    destruct (H4 He) as (fs & num & e & rest & Hf & ->).
    destruct (download_emails_before mail mb0 out st' _ _ _ Hd Hc)
      as (tl & -> & Htl).
    eexists _, mb0, (fetched (pre ++ [EPrint (MsgProcessing mb0)]) ++ fs), num, e, _.
    split; [| split; [| reflexivity]].
    + rewrite Hcut. now apply selected_after.
    + rewrite Hcut, fetched_app, Hf. now rewrite app_assoc.
Qed.

End Failures.

(** C2: [download_emails] never raises; an exception raised by select or
    search is caught and reported and ends the mailbox; an exception raised
    by fetch, open or write is caught and reported and ends the message; the
    loop over the identifiers fetches every one of them and the loop over
    the mailboxes selects every one of them, whatever failed before.  In a
    run of [download_emails], and in a run of [main], the report stands
    right after the call that failed: it names the mailbox selected last
    and, for a fetch, an open or a write, the message fetched last.  Once
    [main] has selected a mailbox it returns normally. *)
Theorem export_absorbs_errors (E : Env) (mail : conn E) :
  (forall mb out st, result (download_emails mail mb out st) = Val tt)
  /\ (forall mb out st e,
        In (ESelect mb (Exc e)) (trace (download_emails mail mb out st))
        \/ In (ESearch (Exc e)) (trace (download_emails mail mb out st)) ->
        In (EPrint (MsgErrorAccessing mb e)) (trace (download_emails mail mb out st)))
  /\ (forall mb dir num st e,
        In (EFetch num (Exc e)) (trace (process_message mail mb dir num st)) ->
        In (EPrint (MsgErrorProcessing num mb e))
           (trace (process_message mail mb dir num st)))
  /\ (forall mb dir num st,
        existsb is_failed_write (trace (process_message mail mb dir num st)) = true ->
        exists e, In (EPrint (MsgErrorProcessing num mb e))
                     (trace (process_message mail mb dir num st)))
  /\ (forall mb out st data rest p,
        In (ESearch (Val (OK, Some data :: rest)))
           (trace (download_emails mail mb out st)) ->
        In (EMakedirs p true) (trace (download_emails mail mb out st)) ->
        fetched (trace (download_emails mail mb out st)) = split data)
  /\ (forall out mbs st,
        result (export_all mail out mbs st) = Val tt
        /\ selected (trace (export_all mail out mbs st)) = mbs)
  /\ (forall mb out st tr1 ev tr2,
        trace (download_emails mail mb out st) = tr1 ++ ev :: tr2 ->
        (forall mb' e, ev = ESelect mb' (Exc e) ->
           mb' = mb /\ tr2 = [EPrint (MsgErrorAccessing mb e)])
        /\ (forall e, ev = ESearch (Exc e) ->
              tr1 = [ESelect mb (Val OK)]
              /\ tr2 = [EPrint (MsgErrorAccessing mb e)])
        /\ (forall num e, ev = EFetch num (Exc e) ->
              exists rest, tr2 = EPrint (MsgErrorProcessing num mb e) :: rest)
        /\ (is_failed_write ev = true ->
              exists fs num e rest,
                fetched tr1 = fs ++ [num]
                /\ tr2 = EPrint (MsgErrorProcessing num mb e) :: rest))
  /\ (forall st tr1 ev tr2,
        trace (main E st) = tr1 ++ ev :: tr2 ->
        (forall mb e, ev = ESelect mb (Exc e) ->
           exists rest, tr2 = EPrint (MsgErrorAccessing mb e) :: rest)
        /\ (forall e, ev = ESearch (Exc e) ->
              exists ss mb rest,
                selected tr1 = ss ++ [mb]
                /\ tr2 = EPrint (MsgErrorAccessing mb e) :: rest)
        /\ (forall num e, ev = EFetch num (Exc e) ->
              exists ss mb rest,
                selected tr1 = ss ++ [mb]
                /\ tr2 = EPrint (MsgErrorProcessing num mb e) :: rest)
        /\ (is_failed_write ev = true ->
              exists ss mb fs num e rest,
                selected tr1 = ss ++ [mb] /\ fetched tr1 = fs ++ [num]
                /\ tr2 = EPrint (MsgErrorProcessing num mb e) :: rest))
  /\ (forall st mb r,
        In (ESelect mb r) (trace (main E st)) -> result (main E st) = Val tt).
Proof.
  split; [intros; apply download_emails_total |].
  split; [intros mb out st e; apply raised_access_reported |].
  split; [intros mb dir num st e; apply raised_fetch_reported |].
  split; [intros mb dir num st; apply failed_write_reported |].
  split; [intros mb out st data rest p; apply every_identifier_fetched |].
  split; [intros out mbs st; split;
          [apply export_all_total | apply export_all_selected] |].
  split; [intros mb out st tr1 ev tr2; apply download_emails_reports |].
  split; [intros st tr1 ev tr2; apply main_reports |].
  intros st mb r H. now apply logout_once_after_export in H.
Qed.

Lemma export_absorbs_errors_witness :
  let o := download_emails (E := scripted three_unfetchable) tt (s_ "INBOX")
                           (s_ "root") (start three_unfetchable) in
  let om := main (faulty two_literals disk_full)
                 (start_faulty two_literals disk_full) in
  result o = Val tt
  /\ fetched (trace o) = [b_ "1"; b_ "2"; b_ "3"]
  /\ In (EPrint (MsgErrorProcessing (b_ "2") (s_ "INBOX")
                   (IMAP4_error (s_ "FETCH command error: BAD"))))
        (trace (process_message (E := scripted three_unfetchable) tt (s_ "INBOX")
                                (s_ "root/INBOX") (b_ "2") (start three_unfetchable)))
  /\ (exists rest,
        skipn 6 (trace o)
        = EPrint (MsgErrorProcessing (b_ "2") (s_ "INBOX")
                    (IMAP4_error (s_ "FETCH command error: BAD"))) :: rest)
  /\ (exists ss mb fs num e rest,
        selected (firstn 17 (trace om)) = ss ++ [mb]
        /\ fetched (firstn 17 (trace om)) = fs ++ [num]
        /\ skipn 18 (trace om) = EPrint (MsgErrorProcessing num mb e) :: rest)
  /\ result om = Val tt.
Proof.
  destruct (export_absorbs_errors (scripted three_unfetchable) tt)
    as (H1 & _ & H3 & _ & H5 & _ & H7 & _).
  destruct (export_absorbs_errors (faulty two_literals disk_full) tt)
    as (_ & _ & _ & _ & _ & _ & _ & H8 & H9).
  cbv zeta. split; [apply H1 |]. split; [| split; [| split; [| split]]].
  - apply (H5 (s_ "INBOX") (s_ "root") (start three_unfetchable) (b_ "1 2 3") []
              (s_ "root/INBOX")); vm_compute; tauto.
  - apply H3. vm_compute. tauto.
  - destruct (H7 (s_ "INBOX") (s_ "root") (start three_unfetchable)
                 (firstn 5 (trace (download_emails (E := scripted three_unfetchable)
                                     tt (s_ "INBOX") (s_ "root")
                                     (start three_unfetchable))))
                 (EFetch (b_ "2") (Exc (IMAP4_error (s_ "FETCH command error: BAD"))))
                 (skipn 6 (trace (download_emails (E := scripted three_unfetchable)
                                    tt (s_ "INBOX") (s_ "root")
                                    (start three_unfetchable)))))
      as (_ & _ & Hf & _); [vm_compute; reflexivity |].
    apply (Hf _ _ eq_refl).
  - destruct (H8 (start_faulty two_literals disk_full)
                 (firstn 17 (trace (main (faulty two_literals disk_full)
                                      (start_faulty two_literals disk_full))))
                 (EWrite (s_ "mail_example_com_a_b_example_com/INBOX/1_Hello_World.eml")
                         hello false)
                 (skipn 18 (trace (main (faulty two_literals disk_full)
                                      (start_faulty two_literals disk_full)))))
      as (_ & _ & _ & Hw); [vm_compute; reflexivity |].
    apply Hw. reflexivity.
  - apply (H9 (start_faulty two_literals disk_full) (s_ "INBOX") (Val OK)).
    vm_compute. tauto.
Defined.

(** ** What is written, and where *)

Section Written.

Context {E : Env}.
Implicit Types (st : state E) (mail : conn E).

Lemma process_message_written mail mb dir num st :
  let o := process_message mail mb dir num st in
  (forall p d ok,
     In (EWrite p d ok) (trace o) ->
     (exists n header,
        decode num = Some n /\ subject_header E d = Val header
        /\ p = eml_path dir n header)
     /\ exists status parts hd,
          In (EFetch num (Val (status, parts))) (trace o)
          /\ In (PTuple hd d) parts)
  /\ (forall status parts,
        In (EFetch num (Val (status, parts))) (trace o) ->
        status = OK ->
        (forall e, ~ In (EPrint (MsgErrorProcessing num mb e)) (trace o)) ->
        map snd (written (trace o)) = payloads parts
        /\ forall payload,
             payloads parts = [payload] ->
             exists p,
               written (trace o) = [(p, payload)]
               /\ disk (final o) !! p = Some payload).
Proof.
  cbv zeta. rewrite process_message_run. cbv zeta.
  destruct (imap_fetch E mail num (world st)) as [[[status parts] | e1] w];
    cbn [fst snd].
  2: { cbn [trace final].
       split; [intros p d ok H | intros status parts H]; in_cases H. }
  destruct (is_OK status) eqn:Hs; cbn [trace final].
  2: { split; [intros p d ok H; in_cases H | intros status' parts' H ->].
       in_cases H. discriminate Hs. }
  split.
  - intros p d ok [H | H]; [discriminate H |].
    apply in_app_iff in H. destruct H as [H | H].
    + apply save_all_event_in in H. destruct H as (hd & n & header & Hp & Hn & Hh & ->).
      split; [eauto |]. exists status, parts, hd. split; [now left | exact Hp].
    + destruct (result _); in_cases H.
  - intros status' parts' H -> Hno.
    assert (parts' = parts) as ->.
    { destruct H as [H | H]; [congruence |].
      apply in_app_iff in H. destruct H as [H | H].
      - apply save_all_event_in in H. destruct H.
      - destruct (result _); in_cases H. }
    clear H.
    destruct (result (for_each (save_part mb dir num) parts (State w (disk st))))
      as [[] | e] eqn:Hres.
    2: { exfalso. apply (Hno e). right. apply in_app_iff. right. now left. }
    rewrite app_nil_r. unfold written. cbn [flat_map app]. fold (written (trace
      (for_each (save_part mb dir num) parts (State w (disk st))))).
    split; [now apply save_all_written |].
    intros payload Hp. now apply save_all_single.
Qed.

(** A write made for a message follows the fetch of that message, which
    answered OK, with only opens, writes and reports in between, and its
    data is the payload of a tuple part of the answer. *)
Lemma process_message_write_fetch mail mb dir num st a p d ok b :
  trace (process_message mail mb dir num st) = a ++ EWrite p d ok :: b ->
  exists parts hd a',
    a = EFetch num (Val (OK, parts)) :: a'
    /\ List.Forall (fun e => is_local e = true) a'
    /\ In (PTuple hd d) parts.
Proof.
  intros H.
  assert (Hin : In (EWrite p d ok) (trace (process_message mail mb dir num st)))
    by (rewrite H; apply in_elt).
  pose proof (process_message_trace mail mb dir num st) as (r & tl & Ht & Htl).
  revert H Hin Ht. rewrite process_message_run. cbv zeta.
  destruct (imap_fetch E mail num (world st)) as [[[status parts] | e1] w];
    cbn [fst snd].
  2: { cbn [trace]. intros _ Hin. in_cases Hin. }
  destruct (is_OK status) eqn:Hs; cbn [trace].
  2: { intros _ Hin. in_cases Hin. }
  apply is_OK_true in Hs. subst status.
  intros H Hin Ht. injection Ht as <- <-.
  destruct a as [| e0 a']; cbn [app] in H; [discriminate H | injection H as <- H].
  rewrite H in Htl. apply Forall_app in Htl. destruct Htl as [Ha _].
  destruct Hin as [Hin | Hin]; [discriminate Hin |].
  apply in_app_iff in Hin. destruct Hin as [Hin | Hin].
  - apply save_all_event_in in Hin.
    destruct Hin as (hd & n & header & Hp & _).
    exists parts, hd, a'. auto.
  - destruct (result _); in_cases Hin.
Qed.

End Written.

Section Segment.

Context {E : Env}.
Implicit Types (st : state E) (mail : conn E).

(** The same in a run of [main]. *)
Lemma main_write_fetch st tr1 p d ok tr2 :
  trace (main E st) = tr1 ++ EWrite p d ok :: tr2 ->
  exists pre num parts hd a,
    tr1 = pre ++ EFetch num (Val (OK, parts)) :: a
    /\ List.Forall (fun e => is_local e = true) a
    /\ In (PTuple hd d) parts.
Proof.
  intros H.
  destruct (main_turn st _ _ _ H eq_refl)
    as (mail & out & pre & mb & a & b & post & st' & -> & Hd & _).
  destruct (download_emails_at mail mb out st' _ _ _ Hd eq_refl)
    as (tr0 & a' & b' & post' & num & st'' & -> & _ & Hpm & _).
  destruct (process_message_write_fetch mail mb _ num st'' _ _ _ _ _ Hpm)
    as (parts & hd & a'' & -> & Ha & Hp).
  exists (pre ++ EPrint (MsgProcessing mb) :: ESelect mb (Val OK) :: tr0),
         num, parts, hd, a''.
  split; [| auto]. now rewrite <- app_assoc.
Qed.

End Segment.

Section Written.

Context {E : Env}.
Implicit Types (st : state E) (mail : conn E).

(** Whatever fails, the payloads written for a message are those of the
    first tuple parts of the response, in order. *)
Lemma process_message_written_prefix mail mb dir num st status parts :
  In (EFetch num (Val (status, parts))) (trace (process_message mail mb dir num st)) ->
  exists rest,
    payloads parts
    = map snd (written (trace (process_message mail mb dir num st))) ++ rest.
Proof.
  rewrite process_message_run. cbv zeta.
  destruct (imap_fetch E mail num (world st)) as [[[status' parts'] | e1] w];
    cbn [fst snd].
  2: { cbn [trace]. intros H. in_cases H. }
  destruct (is_OK status'); cbn [trace].
  2: { intros H. in_cases H. exists (payloads parts). reflexivity. }
  intros H.
  assert (parts' = parts) as ->.
  { destruct H as [H | H]; [congruence |].
    apply in_app_iff in H. destruct H as [H | H].
    - apply save_all_event_in in H. destruct H.
    - destruct (result _); in_cases H. }
  unfold written. cbn [flat_map app]. rewrite flat_map_app.
  replace (flat_map _ match result _ with Val _ => [] | Exc e => _ end)
    with (@nil (str * bytes)) by (destruct (result _); reflexivity).
  rewrite app_nil_r. apply save_all_written_prefix.
Qed.

(** When no error is reported for a message, every write made for it has
    returned. *)
Lemma process_message_writes_return mail mb dir num st p d ok :
  (forall e, ~ In (EPrint (MsgErrorProcessing num mb e))
                  (trace (process_message mail mb dir num st))) ->
  In (EWrite p d ok) (trace (process_message mail mb dir num st)) ->
  ok = true.
Proof.
  rewrite process_message_run. cbv zeta.
  destruct (imap_fetch E mail num (world st)) as [[[status parts] | e1] w];
    cbn [fst snd].
  2: { cbn [trace]. intros _ H. in_cases H. }
  destruct (is_OK status); cbn [trace].
  2: { intros _ H. in_cases H. }
  intros Hno [H | H]; [discriminate H |].
  apply in_app_iff in H. destruct H as [H | H].
  - destruct (result (for_each (save_part mb dir num) parts (State w (disk st))))
      as [[] | e] eqn:Hres.
    + apply (save_all_ok mb dir num parts _ _ Hres) in H.
      destruct ok; [reflexivity | discriminate H].
    + exfalso. apply (Hno e). right. apply in_app_iff. right. now left.
  - destruct (result _); in_cases H.
Qed.

(** Whatever the environment, a message whose identifier begins with a
    slash is written at the file name alone: the directory of the mailbox
    is dropped from the path. *)
Lemma absolute_identifier_drops_directory mail mb dir num st n p d ok :
  decode num = Some n -> startswith_sep n = true ->
  In (EWrite p d ok) (trace (process_message mail mb dir num st)) ->
  exists header,
    subject_header E d = Val header
    /\ p = eml_filename n (subject_or_default header).
Proof.
  intros Hn Hs H.
  destruct (process_message_written mail mb dir num st) as [Hw _].
  destruct (Hw p d ok H) as [(n' & header & Hn' & Hh & ->) _].
  rewrite Hn in Hn'. injection Hn' as <-.
  exists header. split; [exact Hh |].
  unfold eml_path, join. destruct n as [| c n]; [discriminate Hs |].
  cbn [eml_filename app startswith_sep] in *. now rewrite Hs.
Qed.

End Written.

(** C1, as the specification states it, fails on a response with two
    literals: one message identifier is fetched and two payloads are
    written for it. *)
Lemma two_literals_written_twice :
  let o := main (scripted two_literals) (start two_literals) in
  fetched (trace o) = [b_ "1"]
  /\ written (trace o)
     = [(s_ "mail_example_com_a_b_example_com/INBOX/1_Hello_World.eml", hello);
        (s_ "mail_example_com_a_b_example_com/INBOX/1_No_Subject.eml", b_ "Hi.")]
  /\ length (written (trace o)) <> length (fetched (trace o)).
Proof.
  cbv zeta. split; [| split]; vm_compute; [reflexivity | reflexivity | discriminate].
Qed.

(** A message that is fetched and cannot be written: the open fails, the
    error is reported, and nothing is written for its tuple part. *)
Example refused_open_writes_nothing :
  let o := process_message (E := faulty one_message locked_files) tt (s_ "INBOX")
             (s_ "root/INBOX") (b_ "1") (start_faulty one_message locked_files) in
  trace o
  = [EFetch (b_ "1") (Val (OK, [PTuple (b_ "1 (RFC822 {27}") hello; PBytes (b_ ")")]));
     EOpen (s_ "root/INBOX/1_Hello_World.eml") false;
     EPrint (MsgErrorProcessing (b_ "1") (s_ "INBOX") os_error)]
  /\ written (trace o) = [].
Proof. cbv zeta. split; vm_compute; reflexivity. Qed.

(** C1, amended: every write of the exporter of one message puts the
    payload of a tuple part of the fetch response on disk as it is; whatever
    fails, the payloads written are those of the first tuple parts, in
    order, so that no tuple part is written twice; when the fetch answered
    OK and no error is reported for the message, every write has returned
    and the payloads written are those of all the tuple parts, one write per
    tuple part, in order; a response with exactly one tuple part (and any
    number of other parts) is then written once, and the file holds exactly
    its payload.  In a run of [main] every write follows the fetch of its
    message, which answered OK, with only opens, writes and reports in
    between, and carries the payload of a tuple part of that answer. *)
Theorem payload_written_verbatim (E : Env) (mail : conn E) (mb dir : str)
    (num : bytes) (st : state E) :
  let o := process_message mail mb dir num st in
  (forall p d ok,
     In (EWrite p d ok) (trace o) ->
     exists status parts hd,
       In (EFetch num (Val (status, parts))) (trace o)
       /\ In (PTuple hd d) parts)
  /\ (forall status parts,
        In (EFetch num (Val (status, parts))) (trace o) ->
        exists rest, payloads parts = map snd (written (trace o)) ++ rest)
  /\ (forall status parts,
        In (EFetch num (Val (status, parts))) (trace o) ->
        status = OK ->
        (forall e, ~ In (EPrint (MsgErrorProcessing num mb e)) (trace o)) ->
        map snd (written (trace o)) = payloads parts
        /\ (forall p d ok, In (EWrite p d ok) (trace o) -> ok = true)
        /\ forall payload,
             payloads parts = [payload] ->
             exists p,
               written (trace o) = [(p, payload)]
               /\ In (EWrite p payload true) (trace o)
               /\ disk (final o) !! p = Some payload)
  /\ (forall st0 tr1 p d ok tr2,
        trace (main E st0) = tr1 ++ EWrite p d ok :: tr2 ->
        exists pre num' parts hd a,
          tr1 = pre ++ EFetch num' (Val (OK, parts)) :: a
          /\ List.Forall (fun e => is_local e = true) a
          /\ In (PTuple hd d) parts).
Proof.
  cbv zeta. destruct (process_message_written mail mb dir num st) as [H1 H2].
  split; [| split; [| split; [| intros st0 tr1 p d ok tr2; apply main_write_fetch]]].
  - intros p d ok H. now apply H1 in H.
  - intros status parts. apply process_message_written_prefix.
  - intros status parts Hf Hs Hno.
    destruct (H2 status parts Hf Hs Hno) as [Hw Hone].
    split; [exact Hw |]. split.
    + intros p d ok. now apply process_message_writes_return.
    + intros payload Hp. destruct (Hone payload Hp) as (p & Hwr & Hd).
      exists p. split; [exact Hwr |]. split; [| exact Hd].
      destruct (written_in (trace (process_message mail mb dir num st)) p payload)
        as [ok Hok]; [rewrite Hwr; now left |].
      now rewrite (process_message_writes_return mail mb dir num st p payload ok Hno Hok)
        in Hok.
Qed.

Lemma payload_written_verbatim_witness :
  let o := process_message (E := scripted one_message) tt (s_ "INBOX")
                           (s_ "root/INBOX") (b_ "1") (start one_message) in
  (exists status parts hd,
     In (EFetch (b_ "1") (Val (status, parts))) (trace o)
     /\ In (PTuple hd hello) parts)
  /\ (exists rest, [hello] = map snd (written (trace o)) ++ rest)
  /\ map snd (written (trace o)) = [hello]
  /\ (exists p,
        written (trace o) = [(p, hello)]
        /\ In (EWrite p hello true) (trace o)
        /\ disk (final o) !! p = Some hello)
  /\ exists pre num parts hd a,
       firstn 17 (trace (main (scripted one_message) (start one_message)))
       = pre ++ EFetch num (Val (OK, parts)) :: a
       /\ List.Forall (fun e => is_local e = true) a
       /\ In (PTuple hd hello) parts.
Proof.
  cbv zeta.
  destruct (payload_written_verbatim (scripted one_message) tt (s_ "INBOX")
              (s_ "root/INBOX") (b_ "1") (start one_message))
    as (H1 & H2 & H3 & H4).
  destruct (H3 OK [PTuple (b_ "1 (RFC822 {27}") hello; PBytes (b_ ")")])
    as (Hw & _ & Hs).
  { vm_compute. tauto. }
  { reflexivity. }
  { intros e H. vm_compute in H.
    repeat (destruct H as [H | H]; [discriminate H |]). exact H. }
  split; [| split; [| split; [exact Hw | split; [apply Hs; reflexivity |]]]].
  - apply (H1 (s_ "root/INBOX/1_Hello_World.eml") hello true).
    vm_compute. tauto.
  - apply (H2 OK [PTuple (b_ "1 (RFC822 {27}") hello; PBytes (b_ ")")]).
    vm_compute. tauto.
  - apply (H4 (start one_message) _
              (s_ "mail_example_com_a_b_example_com/INBOX/1_Hello_World.eml")
              hello true
              (skipn 18 (trace (main (scripted one_message) (start one_message))))).
    vm_compute. reflexivity.
Defined.

(** ** The layout of the output *)

Lemma sanitize_char_not_slash c : sanitize_char c <> slash.
Proof.
  unfold sanitize_char. destruct (isalnum c) eqn:Hc.
  - intros ->. vm_compute in Hc. discriminate Hc.
  - discriminate.
Qed.

Lemma sanitize_no_slash s : List.Forall (fun c => c <> slash) (sanitize_filename s).
Proof.
  unfold sanitize_filename. apply Forall_map.
  apply List.Forall_forall. intros c _. apply sanitize_char_not_slash.
Qed.

Lemma no_slash_startswith l :
  List.Forall (fun c => c <> slash) l -> startswith_sep l = false.
Proof.
  intros H. destruct l as [| c l]; [reflexivity |].
  inversion H; subst. cbn [startswith_sep]. now apply N.eqb_neq.
Qed.

Lemma no_slash_endswith l :
  List.Forall (fun c => c <> slash) l -> endswith_sep l = false.
Proof.
  intros H. unfold endswith_sep.
  destruct (rev l) as [| c r] eqn:Hr; [reflexivity |].
  apply N.eqb_neq. rewrite List.Forall_forall in H. apply H.
  apply in_rev. rewrite Hr. now left.
Qed.

Lemma endswith_sep_app a b :
  b <> [] -> endswith_sep (a ++ b) = endswith_sep b.
Proof.
  intros Hb. unfold endswith_sep. rewrite rev_app_distr.
  destruct (rev b) as [| c r] eqn:Hr; [| reflexivity].
  exfalso. apply Hb. apply (f_equal (@rev N)) in Hr.
  now rewrite rev_involutive in Hr.
Qed.

Lemma join_plain a b :
  a <> [] -> endswith_sep a = false -> startswith_sep b = false ->
  join a b = a ++ [slash] ++ b.
Proof.
  intros Ha He Hb. unfold join. rewrite Hb.
  destruct a as [| c a]; [now contradiction Ha |]. now rewrite He.
Qed.

Lemma output_root_no_slash server username :
  List.Forall (fun c => c <> slash) (output_root server username).
Proof.
  unfold output_root. apply Forall_app. split; [apply sanitize_no_slash |].
  apply Forall_app. split; [| apply sanitize_no_slash].
  constructor; [discriminate | constructor].
Qed.

Lemma startswith_eml_filename n subject :
  startswith_sep (eml_filename n subject) = startswith_sep n.
Proof. destruct n; reflexivity. Qed.

(** Where the path computed by the script is the path of the layout. *)
Lemma eml_path_layout server username mailbox n header :
  mailbox <> [] -> startswith_sep n = false ->
  eml_path (join (output_root server username) (sanitize_filename mailbox)) n header
  = layout server username mailbox n (subject_or_default header).
Proof.
  intros Hm Hn. unfold eml_path.
  assert (Hroot : output_root server username <> []).
  { unfold output_root. now destruct (sanitize_filename server). }
  assert (Hs : sanitize_filename mailbox <> []).
  { destruct mailbox; [now contradiction Hm | discriminate]. }
  rewrite (join_plain (output_root server username));
    [| exact Hroot | apply no_slash_endswith, output_root_no_slash
     | apply no_slash_startswith, sanitize_no_slash].
  rewrite join_plain.
  - unfold layout, output_root, eml_filename.
    change (s_ "_") with [underscore]. change (s_ "/") with [slash].
    now rewrite <- !app_assoc.
  - now destruct (output_root server username).
  - rewrite app_assoc, endswith_sep_app by exact Hs.
    apply no_slash_endswith, sanitize_no_slash.
  - now rewrite startswith_eml_filename.
Qed.

(** C6 fails on the code for a message identifier that begins with a
    slash: the server, the user name, the mailbox and the subject go
    through [sanitize_filename] before they enter the path, the identifier
    does not, so that joining the directory and the file name drops the
    directory and the file is written outside the layout, at the root of the
    file system. *)
Lemma slash_identifier_leaves_layout :
  let o := main (scripted slash_id) (start slash_id) in
  fetched (trace o) = [b_ "/1"]
  /\ written (trace o) = [(s_ "/1_Hello_World.eml", hello)]
  /\ layout (s_ "mail.example.com") (s_ "a.b@example.com") (s_ "INBOX") (s_ "/1")
            (s_ "Hello World")
     = s_ "mail_example_com_a_b_example_com/INBOX//1_Hello_World.eml"
  /\ ~ (forall p d, In (p, d) (written (trace o)) ->
        p = layout (s_ "mail.example.com") (s_ "a.b@example.com") (s_ "INBOX")
                   (s_ "/1") (s_ "Hello World")).
Proof.
  cbv zeta. split; [| split; [| split]]; try (vm_compute; reflexivity).
  intros H.
  assert (Hin : In (s_ "/1_Hello_World.eml", hello)
                   (written (trace (main (scripted slash_id) (start slash_id)))))
    by (vm_compute; left; reflexivity).
  apply H in Hin. vm_compute in Hin. discriminate Hin.
Qed.

(** * Further properties of the script *)

(** ** More on the sanitizer *)

Lemma space_not_alnum c : isspace c = true -> isalnum c = false.
Proof.
  intros Hs.
  pose (points := [9; 10; 11; 12; 13; 28; 29; 30; 31; 32; 133; 160; 5760;
                   8192; 8193; 8194; 8195; 8196; 8197; 8198; 8199; 8200; 8201;
                   8202; 8232; 8233; 8239; 8287; 12288]).
  assert (Hin : In c points).
  { unfold isspace, in_ranges, space_ranges in Hs. cbn [existsb fst snd] in Hs.
    rewrite !orb_true_iff, !andb_true_iff, !N.leb_le in Hs.
    subst points. cbn [In]. lia. }
  assert (Hall : forallb (fun n => negb (isalnum n)) points = true)
    by (vm_compute; reflexivity).
  rewrite forallb_forall in Hall. apply negb_true_iff. now apply Hall.
Qed.

(** X1: whatever the input, the ASCII characters of a sanitized name are
    letters, digits and underscores; the name holds no path separator, no
    dot, no NUL and no whitespace, so it is a single path component that is
    neither [.] nor [..]. *)
Theorem sanitized_name_is_one_component (s : str) (c : N) :
  In c (sanitize_filename s) ->
  (c < 128 -> is_ascii_alnum c = true \/ c = underscore)
  /\ c <> slash /\ c <> 92 /\ c <> 46 /\ c <> 0 /\ isspace c = false.
Proof.
  unfold sanitize_filename. intros Hin. apply in_map_iff in Hin.
  destruct Hin as (c0 & <- & _).
  destruct (sanitize_char_spec c0) as [[-> Ha] | [-> Ha]].
  - split; [intros Hc; left; now rewrite <- isalnum_ascii |].
    repeat split; try (intros ->; vm_compute in Ha; discriminate Ha).
    destruct (isspace c0) eqn:Hs; [| reflexivity].
    apply space_not_alnum in Hs. congruence.
  - split; [now right |]. repeat split; discriminate.
Qed.

Lemma sanitized_name_is_one_component_witness :
  (95 < 128 -> is_ascii_alnum 95 = true \/ 95 = underscore)
  /\ 95 <> slash /\ 95 <> 92 /\ 95 <> 46 /\ 95 <> 0 /\ isspace 95 = false.
Proof.
  apply (sanitized_name_is_one_component (s_ "../etc") 95).
  vm_compute. tauto.
Defined.

(** X2: the names the sanitizer leaves unchanged are those made of
    alphanumeric characters and underscores; any other name is changed, and
    then collides with its own sanitized form, a different name with the
    same image. *)
Theorem sanitize_fixed_points (s : str) :
  (sanitize_filename s = s
   <-> List.Forall (fun c => isalnum c = true \/ c = underscore) s)
  /\ (sanitize_filename s <> s ->
      exists s', s' <> s /\ sanitize_filename s' = sanitize_filename s).
Proof.
  split.
  - unfold sanitize_filename. induction s as [| c s IH]; cbn [map].
    + split; [constructor | reflexivity].
    + split.
      * intros H. injection H as Hc Hs. constructor; [| now apply IH].
        unfold sanitize_char in Hc. destruct (isalnum c); [now left | now right].
      * intros H. inversion H as [| ? ? Hc Hs]; subst. f_equal; [| now apply IH].
        unfold sanitize_char. destruct (isalnum c) eqn:Ha; [reflexivity |].
        destruct Hc as [Hc | Hc]; [discriminate Hc | now symmetry].
  - intros Hne. exists (sanitize_filename s). split; [exact Hne |].
    unfold sanitize_filename. rewrite map_map.
    apply map_ext. apply sanitize_char_idempotent.
Qed.

Lemma sanitize_fixed_points_witness :
  sanitize_filename (s_ "INBOX_2024") = s_ "INBOX_2024"
  /\ exists s', s' <> s_ "a.b" /\ sanitize_filename s' = sanitize_filename (s_ "a.b").
Proof.
  destruct (sanitize_fixed_points (s_ "INBOX_2024")) as [[_ H1] _].
  destruct (sanitize_fixed_points (s_ "a.b")) as [_ H2].
  split.
  - apply H1.
    repeat (constructor;
            [first [left; vm_compute; reflexivity | right; reflexivity] |]).
    constructor.
  - apply H2. vm_compute. discriminate.
Defined.

(** ** More on the prompt *)

Lemma lstrip_head s :
  lstrip s = [] \/ exists c r, lstrip s = c :: r /\ isspace c = false.
Proof.
  induction s as [| c s IH]; cbn [lstrip]; [now left |].
  destruct (isspace c) eqn:Hc; [exact IH |]. right. eauto.
Qed.

Lemma lstrip_keeps_last x c :
  isspace c = false -> exists x', lstrip (x ++ [c]) = x' ++ [c].
Proof.
  intros Hc. induction x as [| a x IH]; cbn [app lstrip].
  - rewrite Hc. now exists [].
  - destruct (isspace a); [exact IH |]. now exists (a :: x).
Qed.

Lemma rstrip_last_char l :
  rstrip l = [] \/ exists r c, rstrip l = r ++ [c] /\ isspace c = false.
Proof.
  unfold rstrip. destruct (lstrip_head (rev l)) as [-> | (c & r & -> & Hc)].
  - now left.
  - right. exists (rev r), c. split; [reflexivity | exact Hc].
Qed.

Lemma rstrip_keeps_head c r :
  isspace c = false -> exists r', rstrip (c :: r) = c :: r'.
Proof.
  intros Hc. unfold rstrip. cbn [rev].
  destruct (lstrip_keeps_last (rev r) c Hc) as [x' ->].
  rewrite rev_app_distr. cbn [rev app]. eauto.
Qed.

(** A stripped string neither begins nor ends with whitespace. *)
Lemma strip_not_padded s : ~ padded (strip s).
Proof.
  unfold strip.
  destruct (lstrip_head s) as [-> | (c & r & -> & Hc)].
  - cbn. intros [(c & r & H & _) | (c & r & H & _)]; [discriminate H |].
    now destruct r.
  - destruct (rstrip_keeps_head c r Hc) as [r' Hr].
    intros [(c0 & r0 & H & Hs) | (c0 & r0 & H & Hs)].
    + rewrite Hr in H. injection H as <- _. congruence.
    + destruct (rstrip_last_char (c :: r)) as [He | (r1 & c1 & He & Hc1)].
      * rewrite Hr in He. discriminate He.
      * rewrite He in H. apply app_inj_tail in H. destruct H as [_ ->].
        congruence.
Qed.

(** X3: what [get_user_inputs] returns neither begins nor ends with
    whitespace; the port is never empty, and it is 993 when the answer to
    the port prompt was empty or blank. *)
Theorem inputs_unpadded_and_port_defaulted (E : Env) (st : state E)
    (server port username password : str) :
  result (@get_user_inputs E st) = Val (server, port, username, password) ->
  ~ padded server /\ ~ padded port /\ ~ padded username /\ ~ padded password
  /\ port <> []
  /\ (forall typed,
        In (EInput PromptPort (Val typed)) (trace (@get_user_inputs E st)) ->
        strip typed = [] -> port = s_ "993").
Proof.
  intros Hres.
  destruct (get_user_inputs_cases st)
    as [(e & Hr & _) | (ts & tp & tu & tpw & Hr & Ht)];
    rewrite Hr in Hres; [discriminate Hres |].
  injection Hres as <- <- <- <-. rewrite Ht.
  assert (Hport : ~ padded (port_or_default (strip tp))
                  /\ port_or_default (strip tp) <> []).
  { pose proof (strip_not_padded tp) as Hp.
    destruct (strip tp) as [| c r]; cbn [port_or_default].
    - split; [| discriminate].
      intros [(c & r & H & Hs) | (c & r & H & Hs)].
      + injection H as <- _. discriminate Hs.
      + change (s_ "993") with ([57; 57] ++ [51]) in H.
        apply app_inj_tail in H. destruct H as [_ <-]. discriminate Hs.
    - split; [exact Hp | discriminate]. }
  repeat split; try apply strip_not_padded; try apply Hport.
  intros typed Hin Hs. in_cases Hin. now rewrite Hs.
Qed.

Lemma inputs_unpadded_and_port_defaulted_witness :
  ~ padded (s_ "secret") /\ s_ "993" <> [] /\ s_ "993" = s_ "993".
Proof.
  destruct (inputs_unpadded_and_port_defaulted (scripted one_message)
              (start one_message) (s_ "mail.example.com") (s_ "993")
              (s_ "a.b@example.com") (s_ "secret"))
    as (_ & _ & _ & H4 & H5 & H6).
  - reflexivity.
  - split; [exact H4 |]. split; [exact H5 |].
    apply (H6 []); [vm_compute; tauto | reflexivity].
Defined.

(** ** More on the session *)

Section Session.

Context {E : Env}.
Implicit Types (st : state E) (mail : conn E).

(** The runs of [connect_to_imap], with the port and the reports. *)
Lemma connect_to_imap_runs server port username password st :
  let o := connect_to_imap server port username password st in
  (result o = Val None /\ refused_at E server port username password (trace o))
  \/ (exists p c,
        py_int E port = Val p /\ result o = Val (Some c)
        /\ trace o = [EConnect server p true; ELogin username password true;
                      EPrint MsgLoggedIn]).
Proof.
  cbv zeta. unfold connect_to_imap, refused_at. sx.
  destruct (py_int E port) as [p | e] eqn:Hp; sx.
  2: { left. split; [now destruct e |]. left. exists e.
       split; [reflexivity |]. now destruct e. }
  split_answer.
  2: { left. split; [now destruct e |]. right; left. exists p, e.
       split; [reflexivity |]. now destruct e. }
  split_answer.
  2: { left. split; [now destruct e |]. right; right. exists p, e.
       split; [reflexivity |]. now destruct e. }
  right. eauto.
Qed.

(** The runs of [export], with the port, the reports and the logout. *)
Lemma export_runs server port username password st :
  let o := export server port username password st in
  let root := output_root server username in
  (exists e, result o = Exc e /\ trace o = [EMakedirs root false])
  \/ (result o = Val tt /\
      exists trc,
        refused_at E server port username password trc
        /\ trace o = EMakedirs root true :: EPrint (MsgSavedIn root)
                     :: trc ++ [EPrint MsgExiting])
  \/ (result o = Val tt /\
      exists p r m,
        py_int E port = Val p
        /\ trace o = session_prefix root server p username password
                     ++ [EList r; EPrint m; EPrint MsgNoMailboxes])
  \/ (result o = Val tt /\
      exists p entries,
        py_int E port = Val p
        /\ comprehension mailbox_name entries = Val []
        /\ trace o = session_prefix root server p username password
                     ++ [EList (Val (OK, entries)); EPrint MsgNoMailboxes])
  \/ (result o = Val tt /\
      exists p mail entries names st5 trl,
        py_int E port = Val p
        /\ names <> []
        /\ comprehension mailbox_name entries = Val names
        /\ logout_trace trl
        /\ trace o = session_prefix root server p username password
                     ++ EList (Val (OK, entries)) :: EPrint (MsgFound names)
                     :: trace (export_all mail root names st5) ++ trl).
Proof.
  cbv zeta. unfold export. sx.
  split_answer.
  2: { left. eauto. }
  match goal with
  | |- context [connect_to_imap ?a ?b ?c ?d ?s] =>
      pose proof (connect_to_imap_runs a b c d s) as Hc; cbv zeta in Hc;
      destruct (connect_to_imap a b c d s) as [rc stc trc]
  end.
  sx.
  destruct Hc as [(-> & Hc) | (p & c & Hp & -> & ->)]; sx.
  { right; left. split; [reflexivity |]. exists trc. split; [exact Hc | reflexivity]. }
  match goal with
  | |- context [list_mailboxes ?c ?s] =>
      pose proof (list_mailboxes_cases c s) as Hl; cbv zeta in Hl;
      destruct (list_mailboxes c s) as [rl stl trl]
  end.
  sx.
  destruct Hl as [(e & -> & ->) | [(status & entries & Hs & -> & ->)
    | [(entries & e & Hc & -> & ->) | (entries & names & Hc & -> & ->)]]]; sx.
  1-3: do 2 right; left; split; [reflexivity |]; eexists p, _, _;
       (split; [exact Hp | reflexivity]).
  destruct names as [| name names]; sx.
  { do 3 right; left. split; [reflexivity |]. eauto. }
  do 4 right.
  match goal with
  | |- context [export_all ?c ?o ?l ?s] =>
      pose proof (export_all_total c o l s) as Ht;
      destruct (export_all c o l s) as [ra sta tra] eqn:Hrun
  end.
  sx. subst ra. sx.
  split_answer.
  - split; [reflexivity |].
    eexists p, c, entries, (name :: names), _, _.
    split; [exact Hp |]. split; [discriminate |]. split; [exact Hc |].
    split; [left; reflexivity |].
    rewrite Hrun. sx. unfold session_prefix. cbn [app].
    rewrite <- ?app_assoc. reflexivity.
  - split; [reflexivity |].
    eexists p, c, entries, (name :: names), _, _.
    split; [exact Hp |]. split; [discriminate |]. split; [exact Hc |].
    split; [right; exists e; reflexivity |].
    rewrite Hrun. sx. unfold session_prefix. cbn [app].
    rewrite <- ?app_assoc. reflexivity.
Qed.

End Session.

(** X4: [connect_to_imap] never raises; it connects to the server it was
    given, on the port that [int] read; it logs in only after a connect that
    returned, with the user name and the password it was given; it returns a
    connection exactly when the login returned; when [int] raises on the
    port, nothing is attempted and the error is reported. *)
Theorem connect_attempts_in_order (E : Env)
    (server port username password : str) (st : state E) :
  let o := connect_to_imap server port username password st in
  (exists r, result o = Val r)
  /\ (forall s p ok, In (EConnect s p ok) (trace o) ->
        s = server /\ py_int E port = Val p)
  /\ (forall u pw ok, In (ELogin u pw ok) (trace o) ->
        u = username /\ pw = password
        /\ exists p, In (EConnect server p true) (trace o))
  /\ (forall c, result o = Val (Some c) -> In (ELogin username password true) (trace o))
  /\ (In (ELogin username password true) (trace o) -> exists c, result o = Val (Some c))
  /\ (forall e, py_int E port = Exc e ->
        trace o = [EPrint (connect_report server port e)]).
Proof.
  cbv zeta.
  destruct (connect_to_imap_runs server port username password st)
    as [(Hr & [(e & Hp & Ht) | [(p & e & Hp & Ht) | (p & e & Hp & Ht)]])
       | (p & c & Hp & Hr & Ht)];
    rewrite Hr, Ht; clear Hr Ht.
  - split; [eauto |].
    split; [intros s q ok H; in_cases H |].
    split; [intros u pw ok H; in_cases H |].
    split; [intros c0 H; discriminate H |].
    split; [intros H; in_cases H |].
    intros e0 He0. congruence.
  - split; [eauto |].
    split; [intros s q ok H; in_cases H; auto |].
    split; [intros u pw ok H; in_cases H |].
    split; [intros c0 H; discriminate H |].
    split; [intros H; in_cases H |].
    intros e0 He0. congruence.
  - split; [eauto |].
    split; [intros s q ok H; in_cases H; auto |].
    split; [intros u pw ok H; in_cases H; repeat split; exists p; now left |].
    split; [intros c0 H; discriminate H |].
    split; [intros H; in_cases H |].
    intros e0 He0. congruence.
  - split; [eauto |].
    split; [intros s q ok H; in_cases H; auto |].
    split; [intros u pw ok H; in_cases H; repeat split; exists p; now left |].
    split; [intros c0 H; right; now left |].
    split; [intros H; eauto |].
    intros e0 He0. congruence.
Qed.

Lemma connect_attempts_in_order_witness :
  let o := connect_to_imap (E := scripted one_message) (s_ "mail.example.com")
             (s_ "993") (s_ "a.b@example.com") (s_ "secret") (start one_message) in
  py_int (scripted one_message) (s_ "993") = Val 993%Z
  /\ (exists p, In (EConnect (s_ "mail.example.com") p true) (trace o))
  /\ (exists c, result o = Val (Some c))
  /\ trace (connect_to_imap (E := scripted one_message) (s_ "mail.example.com")
              (s_ "imaps") (s_ "a.b@example.com") (s_ "secret") (start one_message))
     = [EPrint (MsgError (OtherException (s_ "invalid literal for int()")))].
Proof.
  cbv zeta.
  destruct (connect_attempts_in_order (scripted one_message)
              (s_ "mail.example.com") (s_ "993") (s_ "a.b@example.com")
              (s_ "secret") (start one_message)) as (_ & H2 & H3 & _ & H5 & _).
  destruct (connect_attempts_in_order (scripted one_message)
              (s_ "mail.example.com") (s_ "imaps") (s_ "a.b@example.com")
              (s_ "secret") (start one_message)) as (_ & _ & _ & _ & _ & H6).
  split; [| split; [| split]].
  - apply (H2 (s_ "mail.example.com") 993%Z true). vm_compute. tauto.
  - apply (H3 (s_ "a.b@example.com") (s_ "secret") true). vm_compute. tauto.
  - apply H5. vm_compute. tauto.
  - apply (H6 (OtherException (s_ "invalid literal for int()"))). reflexivity.
Defined.

(** ** More on the orchestrator *)

Section Run.

Context {E : Env}.
Implicit Types (st : state E) (mail : conn E).

Lemma export_connect_port server port username password st s p ok :
  In (EConnect s p ok) (trace (export server port username password st)) ->
  s = server /\ py_int E port = Val p.
Proof.
  intros H.
  destruct (export_runs server port username password st)
    as [(e1 & Hr & Ht) | [(Hr & trc & Hc & Ht) | [(Hr & q & r & m & Hp & Ht)
    | [(Hr & q & entries' & Hp & Hc & Ht) | (Hr & q & mail & entries' & names & st5
                                            & trl & Hp & _ & Hc & Hl & Ht)]]]];
    rewrite Ht in H; clear Ht.
  - in_cases H.
  - destruct Hc as [(e & Hp & ->) | [(q & e & Hp & ->) | (q & e & Hp & ->)]];
      in_cases H; auto.
  - in_cases H. auto.
  - in_cases H. auto.
  - destruct Hl as [-> | (e & ->)];
      in_trace H (@export_event_in E mail (output_root server username) names st5);
      auto.
Qed.

Lemma download_emails_made_dirs mail mb out st p ok :
  In (EMakedirs p ok) (trace (download_emails mail mb out st)) ->
  p = join out (sanitize_filename mb).
Proof.
  destruct (download_emails_cases mail mb out st) as [_ Hd].
  destruct Hd as [(e1 & Ht) | [(s & _ & Ht) | [(e1 & Ht) | [(s & m' & _ & Ht)
    | [Ht | [(m0 & rest & _ & Ht) | [(data & rest & e1 & _ & Ht)
    | (data & rest & st3 & _ & Ht & _)]]]]]]]; rewrite Ht; clear Ht;
    intros H; in_trace H (@process_all_event_in E mail mb); reflexivity.
Qed.

Lemma export_all_made_dirs mail out mbs st p ok :
  In (EMakedirs p ok) (trace (export_all mail out mbs st)) ->
  exists mb, In mb mbs /\ p = join out (sanitize_filename mb).
Proof.
  intros H.
  assert (Hall : List.Forall
                   (fun e => forall p ok, e = EMakedirs p ok ->
                      exists mb, In mb mbs /\ p = join out (sanitize_filename mb))
                   (trace (export_all mail out mbs st))).
  { apply for_each_Forall. intros mb st' Hmb. rewrite export_turn_run.
    cbn [trace]. constructor; [intros ? ? Heq; discriminate Heq |].
    apply List.Forall_forall. intros e He q ok' ->.
    exists mb. split; [exact Hmb |].
    now apply download_emails_made_dirs in He. }
  rewrite List.Forall_forall in Hall. exact (Hall _ H p ok eq_refl).
Qed.

End Run.

(** X5: [main] raises only when a prompt raises or when the output root
    cannot be made; in both cases it has not tried to connect. *)
Theorem main_raises_only_before_connecting (E : Env) (st : state E) (e : exn) :
  result (main E st) = Exc e ->
  (interrupted_trace (trace (main E st))
   \/ exists ts tp tu tpw,
        trace (main E st)
        = inputs_trace ts tp tu tpw
          ++ [EMakedirs (output_root (strip ts) (strip tu)) false])
  /\ forall s p ok, ~ In (EConnect s p ok) (trace (main E st)).
Proof.
  intros Hres.
  destruct (main_cases st) as [(e1 & Hr & Ht) | (ts & tp & tu & tpw & st4 & Hr & Ht)].
  - split; [now left |]. intros s p ok H.
    destruct Ht as [(e2 & Ht) | [(s1 & e2 & Ht) | [(s1 & p1 & e2 & Ht)
      | (s1 & p1 & u1 & e2 & Ht)]]]; rewrite Ht in H; in_cases H.
  - cbv zeta in Hr, Ht. rewrite Hr in Hres. rewrite Ht. clear Hr Ht.
    destruct (export_cases (strip ts) (port_or_default (strip tp)) (strip tu)
                (strip tpw) st4)
      as [(e1 & Hr & Ht) | [(Hr & _) | [(Hr & _) | [(Hr & _) | (Hr & _)]]]];
      rewrite Hr in Hres; try discriminate Hres.
    rewrite Ht. split; [right; eauto |].
    intros s p ok H. in_cases H.
Qed.

Lemma main_raises_only_before_connecting_witness :
  (forall s p ok,
     ~ In (EConnect s p ok)
          (trace (main (faulty one_message read_only)
                       (start_faulty one_message read_only))))
  /\ forall s p ok,
       ~ In (EConnect s p ok)
            (trace (main (faulty one_message eof_at_password)
                         (start_faulty one_message eof_at_password))).
Proof.
  split.
  - apply (main_raises_only_before_connecting (faulty one_message read_only)
             (start_faulty one_message read_only) os_error).
    vm_compute. reflexivity.
  - apply (main_raises_only_before_connecting (faulty one_message eof_at_password)
             (start_faulty one_message eof_at_password)
             (OtherException (s_ "EOF when reading a line"))).
    vm_compute. reflexivity.
Defined.

(** X6: [main] connects to the stripped answer to the server prompt, on the
    port [int] reads from the stripped answer to the port prompt, or from
    993 when that answer is empty or blank. *)
Theorem connect_uses_stripped_server_and_port (E : Env) (st : state E)
    (ts tp s : str) (p : Z) (ok : bool) :
  In (EInput PromptServer (Val ts)) (trace (main E st)) ->
  In (EInput PromptPort (Val tp)) (trace (main E st)) ->
  In (EConnect s p ok) (trace (main E st)) ->
  s = strip ts
  /\ py_int E (port_or_default (strip tp)) = Val p
  /\ (strip tp = [] -> py_int E (s_ "993") = Val p).
Proof.
  intros Hs Hp Hc.
  assert (H : s = strip ts /\ py_int E (port_or_default (strip tp)) = Val p);
    [| destruct H as [H1 H2]; split; [exact H1 |]; split; [exact H2 |];
       intros Hb; now rewrite Hb in H2].
  destruct (main_cases st) as [(e1 & Hr & Ht) | (ts' & tp' & tu & tpw & st4 & Hr & Ht)].
  { destruct Ht as [(e2 & Ht) | [(s1 & e2 & Ht) | [(s1 & p1 & e2 & Ht)
      | (s1 & p1 & u1 & e2 & Ht)]]]; rewrite Ht in Hc; in_cases Hc. }
  cbv zeta in Ht. rewrite Ht in Hs, Hp, Hc. clear Hr Ht.
  apply in_app_iff in Hs. apply in_app_iff in Hp. apply in_app_iff in Hc.
  destruct Hc as [Hc | Hc]; [in_cases Hc |].
  destruct Hs as [Hs | Hs]; [| apply export_event_facts in Hs; destruct Hs].
  destruct Hp as [Hp | Hp]; [| apply export_event_facts in Hp; destruct Hp].
  in_cases Hs. in_cases Hp.
  now apply export_connect_port in Hc.
Qed.

Lemma connect_uses_stripped_server_and_port_witness :
  s_ "mail.example.com" = strip (s_ "mail.example.com")
  /\ py_int (scripted one_message) (port_or_default (strip [])) = Val 993%Z
  /\ (strip [] = [] -> py_int (scripted one_message) (s_ "993") = Val 993%Z).
Proof.
  apply (connect_uses_stripped_server_and_port (scripted one_message)
           (start one_message) (s_ "mail.example.com") [] (s_ "mail.example.com")
           993%Z true); vm_compute; tauto.
Defined.

(** X7: [main] logs out exactly when it has selected a mailbox, and then
    exactly once, as the last thing it does to the server; a logout that
    raises is reported and [main] still returns normally. *)
Theorem logout_follows_export (E : Env) (st : state E) :
  let o := main E st in
  logouts (trace o) = match selected (trace o) with [] => 0%nat | _ :: _ => 1%nat end
  /\ (selected (trace o) <> [] ->
      result o = Val tt
      /\ exists tr0 trl,
           trace o = tr0 ++ trl /\ logout_trace trl).
Proof.
  cbv zeta.
  destruct (main_cases st) as [(e1 & Hr & Ht) | (ts & tp & tu & tpw & st4 & Hr & Ht)].
  { destruct Ht as [(e2 & Ht) | [(s1 & e2 & Ht) | [(s1 & p1 & e2 & Ht)
      | (s1 & p1 & u1 & e2 & Ht)]]]; rewrite Ht;
      (split; [reflexivity | intros H; now contradiction H]). }
  cbv zeta in Hr, Ht. rewrite Ht, Hr. clear Hr Ht.
  destruct (export_runs (strip ts) (port_or_default (strip tp)) (strip tu)
              (strip tpw) st4)
    as [(e1 & Hr & Ht) | [(Hr & trc & Hc & Ht) | [(Hr & q & r & m & Hp & Ht)
    | [(Hr & q & entries' & Hp & Hc & Ht) | (Hr & q & mail & entries' & names & st5
                                            & trl & Hp & Hn & Hc & Hl & Ht)]]]];
    rewrite Ht, ?Hr; clear Ht.
  - split; [reflexivity | intros H; now contradiction H].
  - destruct Hc as [(e & _ & ->) | [(p & e & _ & ->) | (p & e & _ & ->)]];
      (split; [reflexivity | intros H; now contradiction H]).
  - split; [reflexivity | intros H; now contradiction H].
  - split; [reflexivity | intros H; now contradiction H].
  - change (EList (Val (OK, entries')) :: EPrint (MsgFound names)
            :: trace (export_all mail (output_root (strip ts) (strip tu)) names st5)
            ++ trl)
      with ([EList (Val (OK, entries')); EPrint (MsgFound names)]
            ++ trace (export_all mail (output_root (strip ts) (strip tu)) names st5)
            ++ trl).
    rewrite !selected_app, !logouts_app, export_all_selected,
      export_events_no_ops_but_own.
    assert (Hsel : selected trl = [] /\ logouts trl = 1%nat)
      by (destruct Hl as [-> | (e & ->)]; split; reflexivity).
    destruct Hsel as [-> ->].
    change (selected (inputs_trace ts tp tu tpw)) with (@nil (list N)).
    change (logouts (inputs_trace ts tp tu tpw)) with 0%nat.
    change (selected (session_prefix (output_root (strip ts) (strip tu)) (strip ts) q
                        (strip tu) (strip tpw))) with (@nil (list N)).
    change (logouts (session_prefix (output_root (strip ts) (strip tu)) (strip ts) q
                       (strip tu) (strip tpw))) with 0%nat.
    cbn [app selected logouts flat_map List.filter length Nat.add].
    rewrite app_nil_r.
    destruct names as [| name names]; [now contradiction Hn |].
    split; [reflexivity |]. intros _. split; [reflexivity |].
    exists (inputs_trace ts tp tu tpw
            ++ session_prefix (output_root (strip ts) (strip tu)) (strip ts) q
                 (strip tu) (strip tpw)
            ++ EList (Val (OK, entries')) :: EPrint (MsgFound (name :: names))
               :: trace (export_all mail (output_root (strip ts) (strip tu))
                           (name :: names) st5)), trl.
    split; [| exact Hl].
    rewrite <- !app_assoc. cbn [app]. reflexivity.
Qed.

Lemma logout_follows_export_witness :
  let o := main (faulty one_message lost_connection)
                (start_faulty one_message lost_connection) in
  result o = Val tt
  /\ exists tr0 trl, trace o = tr0 ++ trl /\ logout_trace trl.
Proof.
  cbv zeta.
  destruct (logout_follows_export (faulty one_message lost_connection)
              (start_faulty one_message lost_connection)) as [_ H].
  apply H. vm_compute. discriminate.
Defined.

(** X8: when the list command answers OK and every entry yields a name,
    [main] selects exactly the listed names, as they are, once each and in
    the order of the listing, and the directories it asks for are the output
    root and, under it, the sanitized names. *)
Theorem main_selects_listed_mailboxes (E : Env) (st : state E)
    (entries : list list_entry) (names : list str) :
  In (EList (Val (OK, entries))) (trace (main E st)) ->
  comprehension mailbox_name entries = Val names ->
  selected (trace (main E st)) = names
  /\ forall p ok,
       In (EMakedirs p ok) (trace (main E st)) ->
       exists ts tu,
         In (EInput PromptServer (Val ts)) (trace (main E st))
         /\ In (EInput PromptUsername (Val tu)) (trace (main E st))
         /\ (p = output_root (strip ts) (strip tu)
             \/ exists mb,
                  In mb names
                  /\ p = join (output_root (strip ts) (strip tu))
                              (sanitize_filename mb)).
Proof.
  intros H Hn.
  destruct (main_cases st) as [(e1 & Hr & Ht) | (ts & tp & tu & tpw & st4 & Hr & Ht)].
  { destruct Ht as [(e2 & Ht) | [(s1 & e2 & Ht) | [(s1 & p1 & e2 & Ht)
      | (s1 & p1 & u1 & e2 & Ht)]]]; rewrite Ht in H; in_cases H. }
  cbv zeta in Hr, Ht. rewrite Ht in H |- *. clear Hr Ht.
  assert (Hin : forall p,
            (p = output_root (strip ts) (strip tu)
             \/ exists mb, In mb names
                  /\ p = join (output_root (strip ts) (strip tu))
                              (sanitize_filename mb)) ->
            exists ts0 tu0,
              In (EInput PromptServer (Val ts0))
                 (inputs_trace ts tp tu tpw
                  ++ trace (export (strip ts) (port_or_default (strip tp))
                              (strip tu) (strip tpw) st4))
              /\ In (EInput PromptUsername (Val tu0))
                    (inputs_trace ts tp tu tpw
                     ++ trace (export (strip ts) (port_or_default (strip tp))
                                 (strip tu) (strip tpw) st4))
              /\ (p = output_root (strip ts0) (strip tu0)
                  \/ exists mb, In mb names
                       /\ p = join (output_root (strip ts0) (strip tu0))
                                   (sanitize_filename mb))).
  { intros p Hp. exists ts, tu.
    split; [apply in_app_iff; left; unfold inputs_trace; cbn [In]; tauto |].
    split; [apply in_app_iff; left; unfold inputs_trace; cbn [In]; tauto |].
    exact Hp. }
  destruct (export_cases (strip ts) (port_or_default (strip tp)) (strip tu)
              (strip tpw) st4)
    as [(e & Hr & Ht) | [(Hr & trc & Hc & Ht) | [(Hr & p & r & m & Ht & Hl)
    | [(Hr & p & entries' & Hc & Ht) | (Hr & p & mail & entries' & names' & st5
                                       & ok & m & _ & Hc & Ht)]]]];
    rewrite Ht in H, Hin |- *; clear Ht.
  - in_cases H.
  - destruct Hc as [(m & ->) | [(p & m & ->) | (p & m & ->)]]; in_cases H.
  - in_cases H.
    destruct Hl as [(e & He & _) | [(status & en & Hs & He & _)
      | (en & e & Hc & He & _)]]; try discriminate He.
    + injection He as <- _. now contradiction Hs.
    + injection He as <-. congruence.
  - in_cases H. assert (names = []) as -> by congruence.
    split; [reflexivity |].
    intros q ok Hm. apply (Hin q). in_cases Hm. now left.
  - in_trace H (@export_event_in E mail (output_root (strip ts) (strip tu)) names' st5).
    assert (names' = names) as -> by congruence.
    split.
    + change (EList (Val (OK, entries)) :: EPrint (MsgFound names)
              :: trace (export_all mail (output_root (strip ts) (strip tu)) names st5)
              ++ [ELogout ok; EPrint m])
        with ([EList (Val (OK, entries)); EPrint (MsgFound names)]
              ++ trace (export_all mail (output_root (strip ts) (strip tu)) names st5)
              ++ [ELogout ok; EPrint m]).
      rewrite !selected_app, export_all_selected. cbn. apply app_nil_r.
    + intros q ok' Hm. apply (Hin q). in_split Hm; try discriminate Hm.
      * injection Hm as <- _. now left.
      * right. now apply export_all_made_dirs in Hm.
Qed.

Lemma main_selects_listed_mailboxes_witness :
  selected (trace (main (scripted two_mailboxes) (start two_mailboxes)))
  = [s_ "INBOX"; [73; 116; 101; 109; 115; 34]].
Proof.
  apply (main_selects_listed_mailboxes (scripted two_mailboxes)
           (start two_mailboxes) [LBytes inbox_line; LBytes sent_items_line]).
  - vm_compute. tauto.
  - vm_compute. reflexivity.
Defined.

(** ** More on the list of mailboxes *)

Lemma comprehension_length {A B} (f : A -> res B) (l : list A) (ys : list B) :
  comprehension f l = Val ys -> length ys = length l.
Proof.
  revert ys. induction l as [| x l IH]; intros ys; cbn [comprehension].
  - intros H. injection H as <-. reflexivity.
  - destruct (f x); [| discriminate].
    destruct (comprehension f l) as [zs | e]; [| discriminate].
    intros H. injection H as <-. cbn [length]. f_equal. now apply IH.
Qed.

(** The tokens of [split] hold no whitespace byte. *)
Lemma split_from_no_space cur l :
  List.Forall (fun b => is_bytes_space b = false) cur ->
  List.Forall (List.Forall (fun b => is_bytes_space b = false)) (split_from cur l).
Proof.
  revert cur. induction l as [| b l IH]; intros cur Hcur; cbn [split_from].
  - destruct cur; constructor; [| constructor].
    apply List.Forall_rev. exact Hcur.
  - destruct (is_bytes_space b) eqn:Hb.
    + destruct cur as [| c cur]; [apply IH; constructor |].
      constructor; [apply List.Forall_rev; exact Hcur | apply IH; constructor].
    + apply IH. now constructor.
Qed.

(** The ASCII characters of a decoded string are bytes of the input. *)
Lemma utf8_decode_ascii n :
  forall l s, (length l <= n)%nat -> utf8_decode l = Some s ->
  forall c, In c s -> c < 128 -> In c l.
Proof.
  induction n as [| n IH]; intros l s Hlen H c Hc Hlt.
  - destruct l; [| cbn in Hlen; lia]. cbn in H. injection H as <-. destruct Hc.
  - destruct l as [| b0 r0]; [cbn in H; injection H as <-; destruct Hc |].
    cbn [utf8_decode] in H. cbn [length] in Hlen.
    assert (Hstep : forall (x : N) (r : list N) (s0 : list N),
              (length r <= n)%nat -> (forall y, In y r -> In y (b0 :: r0)) ->
              (x < 128 -> x = b0) ->
              option_map (cons x) (utf8_decode r) = Some s0 ->
              In c s0 -> In c (b0 :: r0)).
    { intros x r s0 Hr Hsub Hx Hs Hin.
      destruct (utf8_decode r) as [s' |] eqn:Hd; [| discriminate Hs].
      cbn in Hs. injection Hs as <-. destruct Hin as [<- | Hin].
      - left. symmetry. now apply Hx.
      - apply Hsub. eapply IH; eauto. }
    destruct (b0 <? 128) eqn:H0.
    { eapply Hstep; [| | | exact H | exact Hc]; [lia | intros; now right | auto]. }
    destruct r0 as [| b1 r1]; [discriminate H |]. cbn [length] in Hlen.
    destruct (within 194 223 b0) eqn:HA.
    { destruct (is_cont b1) eqn:H1; [| discriminate H].
      eapply Hstep; [| | | exact H | exact Hc];
        [lia | intros; right; now right |].
      unfold within, is_cont in *.
      rewrite !andb_true_iff, !N.leb_le in *. lia. }
    destruct r1 as [| b2 r2]; [discriminate H |]. cbn [length] in Hlen.
    destruct (within 224 239 b0) eqn:HB.
    { match type of H with
      | (if ?cnd then _ else _) = _ => destruct cnd eqn:H1; [| discriminate H]
      end.
      eapply Hstep; [| | | exact H | exact Hc];
        [lia | intros; right; right; now right |].
      unfold within, is_cont in *.
      destruct (b0 =? 224) eqn:E1; [| destruct (b0 =? 237) eqn:E2];
        rewrite ?N.eqb_eq, ?N.eqb_neq in *;
        rewrite !andb_true_iff, !N.leb_le in *; lia. }
    destruct r2 as [| b3 r3]; [discriminate H |]. cbn [length] in Hlen.
    destruct (within 240 244 b0) eqn:HC; [| discriminate H].
    match type of H with
    | (if ?cnd then _ else _) = _ => destruct cnd eqn:H1; [| discriminate H]
    end.
    eapply Hstep; [| | | exact H | exact Hc];
      [lia | intros; right; right; right; now right |].
    unfold within, is_cont in *.
    destruct (b0 =? 240) eqn:E1; [| destruct (b0 =? 244) eqn:E2];
      rewrite ?N.eqb_eq, ?N.eqb_neq in *;
      rewrite !andb_true_iff, !N.leb_le in *; lia.
Qed.

Lemma mailbox_name_no_blank box name :
  mailbox_name box = Val name ->
  List.Forall (fun c => is_blank c = false) name.
Proof.
  destruct box as [b | a b |]; cbn [mailbox_name]; try discriminate.
  unfold last_item.
  destruct (rev (split b)) as [| tok r] eqn:Hr; [discriminate |].
  destruct (decode tok) as [s |] eqn:Hd; [| discriminate].
  intros H. injection H as <-.
  assert (Htok : List.Forall (fun b => is_bytes_space b = false) tok).
  { pose proof (split_from_no_space [] b (List.Forall_nil _)) as Hall.
    fold (split b) in Hall. rewrite List.Forall_forall in Hall. apply Hall.
    apply in_rev. rewrite Hr. now left. }
  apply List.Forall_forall. intros c Hc.
  destruct (is_blank c) eqn:Hb; [| reflexivity]. exfalso.
  assert (Hlt : c < 128).
  { unfold is_blank, within in Hb.
    rewrite orb_true_iff, andb_true_iff, !N.leb_le, N.eqb_eq in Hb. lia. }
  unfold decode in Hd.
  pose proof (utf8_decode_ascii _ _ _ (Nat.le_refl _) Hd c Hc Hlt) as Hin.
  apply in_map_iff in Hin. destruct Hin as (b0 & <- & Hb0).
  rewrite List.Forall_forall in Htok. specialize (Htok _ Hb0).
  unfold is_bytes_space in Htok. unfold is_blank, within in Hb.
  cbv zeta in Htok. congruence.
Qed.

(** X9: the names [list_mailboxes] returns are one per entry of the
    listing, in its order; each is the decoded last token of its entry, so
    none is empty and none holds a blank: of a name with blanks only the
    last word is kept. *)
Theorem listed_names_are_last_tokens (E : Env) (mail : conn E) (st : state E)
    (names : list str) :
  result (list_mailboxes mail st) = Val names -> names <> [] ->
  exists entries,
    trace (list_mailboxes mail st) = [EList (Val (OK, entries))]
    /\ comprehension mailbox_name entries = Val names
    /\ length names = length entries
    /\ List.Forall (fun name => name <> []
                                /\ List.Forall (fun c => is_blank c = false) name)
                   names.
Proof.
  intros Hres Hne.
  destruct (list_mailboxes_cases mail st)
    as [(e & Hr & Ht) | [(status & entries & Hs & Hr & Ht)
    | [(entries & e & Hc & Hr & Ht) | (entries & names' & Hc & Hr & Ht)]]];
    rewrite Hr in Hres; injection Hres as <-; try now contradiction Hne.
  exists entries. split; [exact Ht |]. split; [exact Hc |].
  split; [now apply comprehension_length in Hc |].
  clear Hr Ht Hne. revert names' Hc.
  induction entries as [| box entries IH]; intros names Hc; cbn [comprehension] in Hc.
  - injection Hc as <-. constructor.
  - destruct (mailbox_name box) as [name | e] eqn:Hb; [| discriminate].
    destruct (comprehension mailbox_name entries) as [ns | e]; [| discriminate].
    injection Hc as <-. constructor; [| now apply IH].
    split; [now apply mailbox_name_nonempty in Hb
           | now apply mailbox_name_no_blank in Hb].
Qed.

Lemma listed_names_are_last_tokens_witness :
  exists entries,
    trace (list_mailboxes (E := scripted two_mailboxes) tt (start two_mailboxes))
    = [EList (Val (OK, entries))]
    /\ comprehension mailbox_name entries
       = Val [s_ "INBOX"; [73; 116; 101; 109; 115; 34]]
    /\ length [s_ "INBOX"; [73; 116; 101; 109; 115; 34]] = length entries
    /\ List.Forall (fun name => name <> []
                                /\ List.Forall (fun c => is_blank c = false) name)
                   [s_ "INBOX"; [73; 116; 101; 109; 115; 34]].
Proof.
  apply (listed_names_are_last_tokens (scripted two_mailboxes) tt
           (start two_mailboxes)).
  - vm_compute. reflexivity.
  - discriminate.
Defined.

(** ** Events and the disk, by the structure of the script *)

Section Structure.

Context {E : Env}.
Implicit Types (st : state E).

Lemma emits_ret {A} P (a : A) : emits P (@ret E A a).
Proof. intros st. constructor. Qed.

Lemma emits_raise {A} P e : emits P (@raise E A e).
Proof. intros st. constructor. Qed.

Lemma emits_lift {A} P (r : res A) : emits P (@lift E A r).
Proof. destruct r; [apply emits_ret | apply emits_raise]. Qed.

Lemma emits_print P m : P (EPrint m) -> emits P (@print E m).
Proof. intros H st. repeat constructor. exact H. Qed.

Lemma emits_call {A} P (op : World E -> res A * World E) ev upd :
  (forall r, P (ev r)) -> emits P (call op ev upd).
Proof.
  intros H st. unfold call.
  destruct (op (world st)) as [[a | e] w]; repeat constructor; apply H.
Qed.

Lemma emits_bind {A B} P (m : M E A) (k : A -> M E B) :
  emits P m -> (forall a, emits P (k a)) -> emits P (bind m k).
Proof.
  intros Hm Hk st. rewrite trace_bind. apply Forall_app. split; [apply Hm |].
  destruct (result (m st)); [apply Hk | constructor].
Qed.

Lemma trace_try_except {A} (m : M E A) (h : exn -> M E A) st :
  trace (try_except m h st)
  = trace (m st) ++ match result (m st) with
                    | Val _ => []
                    | Exc e => trace (h e (final (m st)))
                    end.
Proof.
  unfold try_except. destruct (m st) as [[a | e] st1 tr1]; cbn [trace result final].
  - now rewrite app_nil_r.
  - now destruct (h e st1).
Qed.

Lemma final_try_except {A} (m : M E A) (h : exn -> M E A) st :
  final (try_except m h st)
  = match result (m st) with
    | Val _ => final (m st)
    | Exc e => final (h e (final (m st)))
    end.
Proof.
  unfold try_except. destruct (m st) as [[a | e] st1 tr1]; cbn [trace result final].
  - reflexivity.
  - now destruct (h e st1).
Qed.

Lemma emits_try {A} P (m : M E A) (h : exn -> M E A) :
  emits P m -> (forall e, emits P (h e)) -> emits P (try_except m h).
Proof.
  intros Hm Hh st. rewrite trace_try_except. apply Forall_app.
  split; [apply Hm |]. destruct (result (m st)); [constructor | apply Hh].
Qed.

Lemma emits_for_each {A} P (body : A -> M E unit) (l : list A) :
  (forall x, emits P (body x)) -> emits P (for_each body l).
Proof. intros H st. apply for_each_Forall. intros x st' _. apply H. Qed.

Lemma join_suffix a b : has_suffix b (join a b).
Proof.
  unfold join, has_suffix. destruct (startswith_sep b).
  - now exists [].
  - destruct (match a with [] => true | _ :: _ => endswith_sep a end).
    + now exists a.
    + exists (a ++ [slash]). now rewrite <- app_assoc.
Qed.

Lemma eml_path_suffix dir n subject :
  has_suffix (s_ ".eml") (join dir (eml_filename n subject)).
Proof.
  destruct (join_suffix dir (eml_filename n subject)) as [pre ->].
  unfold eml_filename.
  exists (pre ++ n ++ [underscore] ++ sanitize_filename subject).
  now rewrite <- !app_assoc.
Qed.

(** Every file event of [main] is at a path that ends in [.eml]. *)
Lemma main_emits_eml : emits eml_file (main E).
Proof.
  unfold main, export, export_all, connect_to_imap, list_mailboxes,
    download_emails, process_message, save_part, write_file, get_user_inputs,
    input.
  repeat first
    [ apply emits_bind; [| intros ?]
    | apply emits_try; [| intros ?]
    | apply emits_for_each; intros ?
    | apply emits_call; intros ?
    | apply emits_print
    | apply emits_ret
    | apply emits_lift
    | progress cbv beta zeta
    | match goal with
      | |- emits _ (match ?x with _ => _ end) => destruct x
      end ];
    try exact I; apply eml_path_suffix.
Qed.

End Structure.

(** X11: every file [main] opens or writes has a path that ends in [.eml],
    whatever the server answers. *)
Theorem only_eml_files_are_written (E : Env) (st : state E) (p : str) :
  In p (touched (trace (main E st))) -> has_suffix (s_ ".eml") p.
Proof.
  intros H. unfold touched in H. apply in_flat_map in H.
  destruct H as (e & He & Hp).
  pose proof (main_emits_eml st) as Hall.
  rewrite List.Forall_forall in Hall. specialize (Hall e He).
  destruct e; cbn in Hp; try (destruct Hp; fail);
    destruct Hp as [<- | []]; exact Hall.
Qed.

Lemma only_eml_files_are_written_witness :
  has_suffix (s_ ".eml") (s_ "/1_Hello_World.eml").
Proof.
  apply (only_eml_files_are_written (scripted slash_id) (start slash_id)).
  vm_compute. tauto.
Defined.

(** ** More on the exporter *)

Section Exporter.

Context {E : Env}.
Implicit Types (st : state E) (mail : conn E).

Lemma digits_decode num :
  digits num = true -> decode num = Some (map Byte.to_N num).
Proof.
  unfold decode, digits. induction num as [| b num IH]; cbn [forallb map utf8_decode].
  - reflexivity.
  - intros H. apply andb_true_iff in H. destruct H as [Hb H].
    assert (Hlt : (Byte.to_N b <? 128) = true).
    { apply N.ltb_lt. unfold is_ascii_digit in Hb.
      rewrite andb_true_iff, !N.leb_le in Hb. lia. }
    rewrite Hlt, (IH H). reflexivity.
Qed.

Lemma digits_no_slash num :
  digits num = true -> startswith_sep (map Byte.to_N num) = false.
Proof.
  destruct num as [| b num]; [reflexivity |]. unfold digits. cbn [forallb map].
  intros H. apply andb_true_iff in H. destruct H as [Hb _].
  cbn [startswith_sep]. apply N.eqb_neq. unfold is_ascii_digit in Hb.
  rewrite andb_true_iff, !N.leb_le in Hb. unfold slash. lia.
Qed.

End Exporter.

(** X12: when the directory of a mailbox cannot be made, the mailbox is
    skipped: the failure is reported, no message is fetched, no file is
    opened, and [download_emails] returns normally. *)
Theorem failed_directory_skips_mailbox (E : Env) (mail : conn E)
    (mb out : str) (st : state E) (p : str) :
  let o := download_emails mail mb out st in
  In (EMakedirs p false) (trace o) ->
  result o = Val tt /\ fetched (trace o) = [] /\ touched (trace o) = []
  /\ exists e, List.last (trace o) (EPrint MsgExiting)
               = EPrint (MsgErrorAccessing mb e).
Proof.
  cbv zeta.
  destruct (download_emails_cases mail mb out st) as [Hres Hd].
  destruct Hd as [(e1 & Ht) | [(s & _ & Ht) | [(e1 & Ht) | [(s & m' & _ & Ht)
    | [Ht | [(m0 & rest & _ & Ht) | [(data & rest & e1 & _ & Ht)
    | (data & rest & st3 & _ & Ht & _)]]]]]]]; rewrite Ht, ?Hres; clear Ht;
    intros H; in_trace H (@process_all_event_in E mail mb).
  split; [reflexivity |]. split; [reflexivity |]. split; [reflexivity |].
  exists e1. reflexivity.
Qed.

Lemma failed_directory_skips_mailbox_witness :
  let o := download_emails (E := faulty one_message no_subdirectory) tt
             (s_ "INBOX") (s_ "root") (start_faulty one_message no_subdirectory) in
  result o = Val tt /\ fetched (trace o) = [] /\ touched (trace o) = []
  /\ exists e, List.last (trace o) (EPrint MsgExiting)
               = EPrint (MsgErrorAccessing (s_ "INBOX") e).
Proof.
  apply (failed_directory_skips_mailbox (faulty one_message no_subdirectory) tt
           (s_ "INBOX") (s_ "root") (start_faulty one_message no_subdirectory)
           (s_ "root/INBOX")).
  vm_compute. tauto.
Defined.

(** X13: a message whose fetch raises or does not answer OK is not
    written: no file is opened, the disk is left as it was, and a fetch that
    answered something else than OK is reported as failed. *)
Theorem unfetched_message_not_written (E : Env) (mail : conn E)
    (mb dir : str) (num : bytes) (st : state E)
    (r : res (str * list response_part)) :
  let o := process_message mail mb dir num st in
  In (EFetch num r) (trace o) ->
  (forall parts, r <> Val (OK, parts)) ->
  touched (trace o) = [] /\ disk (final o) = disk st
  /\ (forall status parts, r = Val (status, parts) ->
        trace o = [EFetch num r; EPrint (MsgFetchFailed num mb)]).
Proof.
  cbv zeta. rewrite process_message_run. cbv zeta.
  destruct (imap_fetch E mail num (world st)) as [[[status parts] | e1] w];
    cbn [fst snd].
  2: { cbn [trace final disk]. intros H Hr. in_cases H.
       split; [reflexivity |]. split; [reflexivity |]. discriminate. }
  destruct (is_OK status) eqn:Hs; cbn [trace final disk].
  - apply is_OK_true in Hs. subst status. intros H Hr. exfalso.
    destruct H as [H | H]; [injection H as <-; now apply (Hr parts) |].
    apply in_app_iff in H. destruct H as [H | H].
    + apply save_all_event_in in H. destruct H.
    + destruct (result _); in_cases H.
  - intros H Hr. in_cases H.
    split; [reflexivity |]. split; [reflexivity |]. reflexivity.
Qed.

Lemma unfetched_message_not_written_witness :
  let o := process_message (E := scripted fetch_refused) tt (s_ "INBOX")
             (s_ "root/INBOX") (b_ "1") (start fetch_refused) in
  touched (trace o) = [] /\ disk (final o) = disk (start fetch_refused)
  /\ (forall status parts, Val (s_ "NO", [PNone]) = Val (status, parts) ->
        trace o = [EFetch (b_ "1") (Val (s_ "NO", [PNone]));
                   EPrint (MsgFetchFailed (b_ "1") (s_ "INBOX"))]).
Proof.
  apply (unfetched_message_not_written (scripted fetch_refused) tt (s_ "INBOX")
           (s_ "root/INBOX") (b_ "1") (start fetch_refused)
           (Val (s_ "NO", [PNone]))).
  - vm_compute. tauto.
  - intros parts H. injection H as H _. vm_compute in H. discriminate H.
Defined.

(** X14: a failed open or write ends the export of the message: it is the
    last file event of the message, and only the report of the error
    follows it; later parts of the response are not written. *)
Theorem failed_write_ends_message (E : Env) (mail : conn E) (mb dir : str)
    (num : bytes) (st : state E) (tr1 tr2 : list event) (e : event) :
  trace (process_message mail mb dir num st) = tr1 ++ e :: tr2 ->
  is_failed_write e = true ->
  exists x, tr2 = [EPrint (MsgErrorProcessing num mb x)].
Proof.
  rewrite process_message_run. cbv zeta.
  destruct (imap_fetch E mail num (world st)) as [[[status parts] | e1] w];
    cbn [fst snd].
  2: { cbn [trace]. intros H He.
       destruct tr1 as [| a tr1]; cbn [app] in H; injection H as <- H;
         [discriminate He |].
       destruct tr1 as [| a' tr1]; cbn [app] in H; injection H as <- H;
         [discriminate He | now destruct tr1]. }
  destruct (is_OK status); cbn [trace].
  2: { intros H He.
       destruct tr1 as [| a tr1]; cbn [app] in H; injection H as <- H;
         [discriminate He |].
       destruct tr1 as [| a' tr1]; cbn [app] in H; injection H as <- H;
         [discriminate He | now destruct tr1]. }
  intros H He.
  destruct tr1 as [| a tr1]; cbn [app] in H; injection H as <- H;
    [discriminate He |].
  assert (Htail : forallb (fun x => negb (is_failed_write x))
                    match result (for_each (save_part mb dir num) parts
                                    (State w (disk st))) with
                    | Val _ => []
                    | Exc x => [EPrint (MsgErrorProcessing num mb x)]
                    end = true) by (destruct (result _); reflexivity).
  destruct (split_before is_failed_write _ _ _ _ _ Htail He H) as (tr2' & H1 & ->).
  destruct (save_all_failure_last mb dir num parts _ _ _ _ H1 He) as (-> & x & ->).
  exists x. reflexivity.
Qed.

Lemma failed_write_ends_message_witness :
  exists x,
    [EPrint (MsgErrorProcessing (b_ "1") (s_ "INBOX")
               (OtherException (s_ "No space left on device")))]
    = [EPrint (MsgErrorProcessing (b_ "1") (s_ "INBOX") x)].
Proof.
  apply (failed_write_ends_message (faulty two_literals disk_full) tt (s_ "INBOX")
           (s_ "root/INBOX") (b_ "1") (start_faulty two_literals disk_full)
           [EFetch (b_ "1") (on_fetch two_literals [] (b_ "1"));
            EOpen (s_ "root/INBOX/1_Hello_World.eml") true]
           _ (EWrite (s_ "root/INBOX/1_Hello_World.eml") hello false)).
  - vm_compute. reflexivity.
  - reflexivity.
Defined.

(** X15: every write of a run goes to the path the script builds from the
    mailbox selected last before the write, the identifier of the message
    fetched last before it and the subject header of the payload written;
    when that identifier is made of decimal digits, as the protocol has
    them, the path is
    [{sanitize(server)}_{sanitize(username)}/{sanitize(mailbox)}/{number}_{sanitize(subject)}.eml]. *)
Theorem numeric_identifiers_follow_layout (E : Env)
    (server port username password : str) (st : state E)
    (tr1 tr2 : list event) (p : str) (d : bytes) (ok : bool) :
  trace (export server port username password st) = tr1 ++ EWrite p d ok :: tr2 ->
  exists ss mailbox fs num n header,
    selected tr1 = ss ++ [mailbox] /\ fetched tr1 = fs ++ [num]
    /\ decode num = Some n /\ subject_header E d = Val header
    /\ p = eml_path (join (output_root server username) (sanitize_filename mailbox))
                    n header
    /\ (digits num = true ->
        n = map Byte.to_N num
        /\ p = layout server username mailbox n (subject_or_default header)).
Proof.
  intros H.
  destruct (export_turn server port username password st _ _ _ H eq_refl)
    as (mail & pre & mb & a & b & post & st' & Hmb & -> & Hd & ->).
  destruct (download_emails_at mail mb _ st' _ _ _ Hd eq_refl)
    as (tr0 & a' & b' & post' & num & st'' & -> & Htr0 & Hpm & ->).
  destruct (process_message_at mail mb _ num st'' _ _ _ Hpm eq_refl)
    as [(_ & r & Hr) | (_ & r & a'' & -> & Ha)]; [discriminate Hr |].
  destruct (process_message_written mail mb
              (join (output_root server username) (sanitize_filename mb)) num st'')
    as [Hw _].
  destruct (Hw p d ok) as [(n & header & Hn & Hh & Hp) _];
    [rewrite Hpm; apply in_elt |].
  exists (selected (pre ++ [EPrint (MsgProcessing mb)])), mb,
         (fetched ((pre ++ [EPrint (MsgProcessing mb)])
                   ++ ESelect mb (Val OK) :: tr0)),
         num, n, header.
  split; [| split; [| split; [exact Hn | split; [exact Hh | split; [exact Hp |]]]]].
  - replace (pre ++ EPrint (MsgProcessing mb)
             :: ESelect mb (Val OK) :: tr0 ++ EFetch num r :: a'')
      with ((pre ++ [EPrint (MsgProcessing mb)])
            ++ ESelect mb (Val OK) :: tr0 ++ EFetch num r :: a'')
      by (now rewrite <- app_assoc).
    apply selected_after. apply Forall_app. split; [exact Htr0 |].
    constructor; [reflexivity |].
    eapply List.Forall_impl; [| exact Ha].
    intros e He. now apply message_event_mailbox_event, local_is_message.
  - replace (pre ++ EPrint (MsgProcessing mb)
             :: ESelect mb (Val OK) :: tr0 ++ EFetch num r :: a'')
      with (((pre ++ [EPrint (MsgProcessing mb)]) ++ ESelect mb (Val OK) :: tr0)
            ++ EFetch num r :: a'')
      by (now rewrite <- !app_assoc).
    now apply fetched_after.
  - intros Hdg. rewrite (digits_decode num Hdg) in Hn. injection Hn as <-.
    split; [reflexivity |]. rewrite Hp.
    apply eml_path_layout; [exact Hmb | now apply digits_no_slash].
Qed.

Lemma numeric_identifiers_follow_layout_witness :
  exists ss mailbox fs num n header,
    selected (firstn 13 (trace (export (E := scripted one_message)
                                  (s_ "mail.example.com") (s_ "993")
                                  (s_ "a.b@example.com") (s_ "secret")
                                  (start one_message))))
    = ss ++ [mailbox]
    /\ fetched (firstn 13 (trace (export (E := scripted one_message)
                                    (s_ "mail.example.com") (s_ "993")
                                    (s_ "a.b@example.com") (s_ "secret")
                                    (start one_message))))
       = fs ++ [num]
    /\ decode num = Some n
    /\ subject_header (scripted one_message) hello = Val header
    /\ s_ "mail_example_com_a_b_example_com/INBOX/1_Hello_World.eml"
       = eml_path (join (output_root (s_ "mail.example.com") (s_ "a.b@example.com"))
                        (sanitize_filename mailbox)) n header
    /\ (digits num = true ->
        n = map Byte.to_N num
        /\ s_ "mail_example_com_a_b_example_com/INBOX/1_Hello_World.eml"
           = layout (s_ "mail.example.com") (s_ "a.b@example.com") mailbox n
                    (subject_or_default header)).
Proof.
  apply (numeric_identifiers_follow_layout (scripted one_message)
           (s_ "mail.example.com") (s_ "993") (s_ "a.b@example.com") (s_ "secret")
           (start one_message) _
           (skipn 14 (trace (export (E := scripted one_message)
                               (s_ "mail.example.com") (s_ "993")
                               (s_ "a.b@example.com") (s_ "secret")
                               (start one_message))))
           _ hello true).
  vm_compute. reflexivity.
Defined.

(** X16: [list_mailboxes] never raises and makes one list call; when that
    call raises or answers something else than OK, it reports and returns
    the empty list. *)
Theorem failed_listing_gives_no_mailbox (E : Env) (mail : conn E) (st : state E) :
  let o := list_mailboxes mail st in
  (exists names r tl,
     result o = Val names /\ trace o = EList r :: tl
     /\ List.Forall (fun e => is_local e = true) tl)
  /\ (forall r, In (EList r) (trace o) ->
        (forall entries, r <> Val (OK, entries)) ->
        result o = Val [] /\ exists m, trace o = [EList r; EPrint m]).
Proof.
  cbv zeta.
  destruct (list_mailboxes_cases mail st)
    as [(e & Hr & Ht) | [(status & entries & Hs & Hr & Ht)
    | [(entries & e & Hc & Hr & Ht) | (entries & names & Hc & Hr & Ht)]]];
    rewrite Hr, Ht; clear Hr Ht;
    (split; [eexists _, _, _; split; [reflexivity |]; split; [reflexivity |];
             repeat constructor |]);
    intros r H Hno; in_cases H; try (split; [reflexivity | eauto]);
    exfalso; now apply (Hno entries).
Qed.

Lemma failed_listing_gives_no_mailbox_witness :
  let o := list_mailboxes (E := scripted (with_list (Val (s_ "NO", [])) one_message))
             tt (start (with_list (Val (s_ "NO", [])) one_message)) in
  result o = Val [] /\ exists m, trace o = [EList (Val (s_ "NO", [])); EPrint m].
Proof.
  destruct (failed_listing_gives_no_mailbox
              (scripted (with_list (Val (s_ "NO", [])) one_message)) tt
              (start (with_list (Val (s_ "NO", [])) one_message))) as [_ H].
  apply (H (Val (s_ "NO", []))).
  - vm_compute. tauto.
  - intros entries Heq. injection Heq as Heq _. vm_compute in Heq. discriminate Heq.
Defined.
